(** * Fileway: LAN discovery and file transfer services

    A shallow embedding of the two network services of the application,
    [DeviceDiscovery] (discovery.js) and [FileTransfer] (fileTransfer.js),
    and the properties of their specification; then of the sending side
    of [FileTransfer], of the store (store.js) and of the two places of
    main.js that read them, with properties of the code itself.

    Conventions of the embedding:
    - a JS [Map] is an insertion-ordered association list ([JsMap]), since
      iteration order decides the order of the emitted events and of
      [getDeviceList];
    - an operation returns the events it emits next to the new state;
    - [Date.now()] and the OS interface table are arguments of the
      operations that read them;
    - sockets are entries of a connection table (a [gmap] over socket
      handles), the file system is a [gmap] from paths to files;
    - JS numbers are IEEE binary64 values: the arithmetic of [emitProgress]
      rounds every intermediate result to nearest, ties to even. *)

From Stdlib Require Import ZArith QArith Qround Qpower Lia Sorted.
From Stdlib.Strings Require Import Byte.
From stdpp Require Import gmap strings list fin_maps pretty.

Local Open Scope Z_scope.

(** ** JS numbers *)

Module JsNumber.

(** Round half to even of a rational to an integer: the significand
    rounding of IEEE 754 [roundTiesToEven]. *)
Definition rne (s : Q) : Z :=
  let f := Qfloor s in
  match Qcompare (s - inject_Z f) (1 # 2) with
  | Lt => f
  | Gt => f + 1
  | Eq => if Z.even f then f else f + 1
  end.

(** [ilog2 q] is the binade of a positive rational:
    [2^(ilog2 q) <= q < 2^(ilog2 q + 1)]. *)
Definition ilog2 (q : Q) : Z :=
  let e0 := Z.log2 (Qnum q) - Z.log2 (Zpos (Qden q)) in
  if Qle_bool (2 ^ e0) q then e0 else e0 - 1.

(** Rounding of a positive rational to a binary64 value (53 bits of
    significand).  The exponent range is not bounded: the operands of
    [emitProgress] are byte counts and sizes, whose quotients stay far
    from the overflow and the subnormal thresholds. *)
Definition round_pos (q : Q) : Q :=
  let e := ilog2 q in
  inject_Z (rne (q * 2 ^ (52 - e))) * 2 ^ (e - 52).

Definition round64 (q : Q) : Q :=
  match Qcompare q 0 with
  | Eq => 0
  | Gt => round_pos q
  | Lt => - round_pos (- q)
  end.

(** The results a JS arithmetic expression over numbers can have. *)
Inductive number : Type :=
| Num (q : Q)
| Infinity
| NegInfinity
| NaN.

(** [a / b] on finite operands. *)
Definition div (a b : Q) : number :=
  match Qcompare b 0, Qcompare a 0 with
  | Eq, Eq => NaN
  | Eq, Gt => Infinity
  | Eq, Lt => NegInfinity
  | _, _ => Num (round64 (a / b))
  end.

(** [a * b] with a finite right operand different from zero. *)
Definition mul (a : number) (b : Q) : number :=
  match a with
  | Num q => Num (round64 (q * b))
  | Infinity => if Qle_bool 0 b then Infinity else NegInfinity
  | NegInfinity => if Qle_bool 0 b then NegInfinity else Infinity
  | NaN => NaN
  end.

(** [Math.round]: the integer nearest to the argument, ties towards
    [+Infinity]; [NaN] and the infinities are returned unchanged. *)
Definition Math_round (x : number) : number :=
  match x with
  | Num q => Num (inject_Z (Qfloor (q + (1 # 2))))
  | other => other
  end.

(** Comparison [x <= y] of JS numbers ([NaN] compares false). *)
Definition le (x y : number) : Prop :=
  match x, y with
  | NaN, _ | _, NaN => False
  | NegInfinity, _ => True
  | _, Infinity => True
  | Num a, Num b => (a <= b)%Q
  | _, _ => False
  end.

(** The value of [Math.round((a / t) * 100)] when [t] is positive. *)
Definition percent (a t : Z) : Z :=
  Qfloor (round64 (round64 (inject_Z a / inject_Z t) * 100) + (1 # 2)).

Definition is_integer (x : number) : Prop :=
  match x with
  | Num q => exists z : Z, (q == inject_Z z)%Q
  | _ => False
  end.

End JsNumber.

(** ** JS [Map]: insertion-ordered, one entry per key *)

Module JsMap.
Section WithTypes.
Context {K V : Type} `{EqDecision K}.

Fixpoint get (k : K) (m : list (K * V)) : option V :=
  match m with
  | [] => None
  | (k', v) :: m' => if decide (k = k') then Some v else get k m'
  end.

Definition has (k : K) (m : list (K * V)) : bool :=
  match get k m with Some _ => true | None => false end.

(** [set] keeps the position of an existing key and appends a new one. *)
Fixpoint set (k : K) (v : V) (m : list (K * V)) : list (K * V) :=
  match m with
  | [] => [(k, v)]
  | (k', v') :: m' =>
      if decide (k = k') then (k, v) :: m' else (k', v') :: set k v m'
  end.

Definition delete (k : K) (m : list (K * V)) : list (K * V) :=
  filter (fun e => e.1 <> k) m.

Definition keys (m : list (K * V)) : list K := m.*1.
Definition values (m : list (K * V)) : list V := m.*2.

(** The representation invariant of a [Map]. *)
Definition wf (m : list (K * V)) : Prop := NoDup (keys m).
End WithTypes.
End JsMap.

(** ** discovery.js *)

Module Discovery.

Definition DISCOVERY_PORT : Z := 41234.
Definition BROADCAST_INTERVAL : Z := 3000.
Definition DEVICE_TIMEOUT : Z := 10000.

(** The presence document, as [JSON.parse] returns it: an object
    whose fields are those of the schema ([type] may hold any string);
    [timestamp] is carried and never read. *)
Record Message : Type := {
  type : string;
  msg_deviceId : string;
  msg_deviceName : string;
  msg_email : string;
  timestamp : Z
}.

Record DeviceInfo : Type := {
  deviceId : string;
  deviceName : string;
  email : string;
  ip : string;
  lastSeen : Z
}.

(** An entry of [os.networkInterfaces()].  Dotted quads are kept as the
    arrays [address.split('.').map(Number)] of their octets. *)
Record Iface : Type := {
  internal : bool;
  family : string;
  address : list Z;
  netmask : list Z
}.

Inductive Output : Type :=
| deviceFound (info : DeviceInfo)
| deviceLost (info : DeviceInfo)
| devicesUpdated (list_ : list DeviceInfo)
| send (message : Message) (port : Z) (addr : list Z).

Record DeviceDiscovery : Type := {
  socket : bool;
  broadcastInterval : bool;
  cleanupInterval : bool;
  devices : list (string * DeviceInfo);
  myDeviceId : option string;
  myDeviceName : option string;
  myEmail : option string;
  isRunning : bool
}.

Definition constructor : DeviceDiscovery :=
  {| socket := false; broadcastInterval := false; cleanupInterval := false;
     devices := []; myDeviceId := None; myDeviceName := None;
     myEmail := None; isRunning := false |}.

Definition set_devices (d : list (string * DeviceInfo)) (self : DeviceDiscovery) :=
  {| socket := socket self; broadcastInterval := broadcastInterval self;
     cleanupInterval := cleanupInterval self; devices := d;
     myDeviceId := myDeviceId self; myDeviceName := myDeviceName self;
     myEmail := myEmail self; isRunning := isRunning self |}.

(** JS truthiness of a string-or-null field. *)
Definition truthy (s : option string) : bool :=
  match s with
  | None => false
  | Some s => negb (String.eqb s EmptyString)
  end.

(** *** 32-bit integer operators *)

Definition ToInt32 (z : Z) : Z := (z + 2 ^ 31) mod 2 ^ 32 - 2 ^ 31.
Definition bitnot (a : Z) : Z := ToInt32 (Z.lnot (ToInt32 a)).
Definition bitand (a b : Z) : Z := ToInt32 (Z.land (ToInt32 a) (ToInt32 b)).
Definition bitor (a b : Z) : Z := ToInt32 (Z.lor (ToInt32 a) (ToInt32 b)).

(** [ip.map((octet, i) => (octet | (~mask[i] & 255)))]; a missing
    [mask[i]] is [undefined], which [~] converts to 0. *)
Fixpoint broadcast_octets (i : nat) (ip mask : list Z) : list Z :=
  match ip with
  | [] => []
  | octet :: rest =>
      bitor octet (bitand (bitnot (nth i mask 0)) 255)
        :: broadcast_octets (S i) rest mask
  end.

Definition usable (iface : Iface) : bool :=
  negb (internal iface) && String.eqb (family iface) "IPv4".

Definition getBroadcastAddresses (interfaces : list (string * list Iface))
  : list (list Z) :=
  let addresses :=
    flat_map (fun entry =>
      flat_map (fun iface =>
        if usable iface
        then [broadcast_octets 0 (address iface) (netmask iface)]
        else []) entry.2) interfaces in
  match addresses with
  | [] => [[255; 255; 255; 255]]
  | _ => addresses
  end.

(** The [broadcast] closure of [startBroadcasting], run on every tick.
    [start] sets the three identity fields before the first tick; a
    [null] that [updateDeviceName] leaves in one is sent as an empty
    string here. *)
Definition broadcast (self : DeviceDiscovery) (now : Z)
    (interfaces : list (string * list Iface)) : list Output :=
  if negb (socket self) || negb (truthy (myEmail self)) then []
  else
    let message :=
      {| type := "presence";
         msg_deviceId := default EmptyString (myDeviceId self);
         msg_deviceName := default EmptyString (myDeviceName self);
         msg_email := default EmptyString (myEmail self);
         timestamp := now |} in
    map (fun addr => send message DISCOVERY_PORT addr)
        (getBroadcastAddresses interfaces).

Definition getDeviceList (self : DeviceDiscovery) : list DeviceInfo :=
  JsMap.values (devices self).

Section Receive.
(** [JSON.parse(msg.toString())], [None] when it throws. *)
Variable JSON_parse : list byte -> option Message.

Definition handleMessage (self : DeviceDiscovery) (msg : list byte)
    (rinfo_address : string) (now : Z) : DeviceDiscovery * list Output :=
  match JSON_parse msg with
  | None => (self, [])
  | Some data =>
      if negb (String.eqb (type data) "presence") then (self, [])
      else if bool_decide (Some (msg_deviceId data) = myDeviceId self)
      then (self, [])
      else
        let deviceInfo :=
          {| deviceId := msg_deviceId data;
             deviceName := msg_deviceName data;
             email := msg_email data;
             ip := rinfo_address;
             lastSeen := now |} in
        let isNew := negb (JsMap.has (msg_deviceId data) (devices self)) in
        let self' :=
          set_devices (JsMap.set (msg_deviceId data) deviceInfo (devices self))
                      self in
        (self',
         (if isNew then [deviceFound deviceInfo] else [])
           ++ [devicesUpdated (getDeviceList self')])
  end.
End Receive.

(** The record that [handleMessage] builds from a presence document. *)
Definition deviceInfo_of (data : Message) (rinfo_address : string) (now : Z)
  : DeviceInfo :=
  {| deviceId := msg_deviceId data; deviceName := msg_deviceName data;
     email := msg_email data; ip := rinfo_address; lastSeen := now |}.

(** The body of the [for ... of this.devices] loop, over the entries in
    iteration order; deleting the entry being visited does not disturb
    the iteration. *)
Fixpoint cleanup_loop (now : Z) (entries : list (string * DeviceInfo))
    (acc : list (string * DeviceInfo) * list Output * bool)
  : list (string * DeviceInfo) * list Output * bool :=
  match entries with
  | [] => acc
  | (deviceId, info) :: rest =>
      let '(devs, out, changed) := acc in
      if Z.ltb DEVICE_TIMEOUT (now - lastSeen info)
      then cleanup_loop now rest
             (JsMap.delete deviceId devs, out ++ [deviceLost info], true)
      else cleanup_loop now rest acc
  end.

Definition cleanupStaleDevices (self : DeviceDiscovery) (now : Z)
  : DeviceDiscovery * list Output :=
  let '(devs, out, changed) :=
    cleanup_loop now (devices self) (devices self, [], false) in
  let self' := set_devices devs self in
  (self', if changed then out ++ [devicesUpdated (getDeviceList self')] else out).

(** A record is stale at [now] when the sweep's test holds for it. *)
Definition stale (now : Z) (info : DeviceInfo) : Prop :=
  DEVICE_TIMEOUT < now - lastSeen info.

#[global] Instance stale_dec now info : Decision (stale now info).
Proof. unfold stale. apply _. Defined.

(** The entries a sweep at [now] removes. *)
Definition stale_entries (now : Z) (entries : list (string * DeviceInfo)) :=
  filter (fun e => stale now e.2) entries.

Definition findDeviceByEmail (self : DeviceDiscovery) (e : string)
  : option DeviceInfo :=
  List.find (fun device => String.eqb (email device) e) (getDeviceList self).

Definition findDeviceById (self : DeviceDiscovery) (id : string)
  : option DeviceInfo :=
  JsMap.get id (devices self).

Definition start (self : DeviceDiscovery) (deviceId deviceName : string)
    (email : option string) : DeviceDiscovery :=
  if isRunning self then self
  else
    {| socket := true; broadcastInterval := broadcastInterval self;
       cleanupInterval := true; devices := devices self;
       myDeviceId := Some deviceId; myDeviceName := Some deviceName;
       myEmail := email; isRunning := true |}.

Definition stop (self : DeviceDiscovery) : DeviceDiscovery :=
  if negb (isRunning self) then self
  else
    {| socket := false; broadcastInterval := false; cleanupInterval := false;
       devices := []; myDeviceId := myDeviceId self;
       myDeviceName := myDeviceName self; myEmail := myEmail self;
       isRunning := false |}.

Definition updateEmail (self : DeviceDiscovery) (e : option string) :=
  {| socket := socket self; broadcastInterval := broadcastInterval self;
     cleanupInterval := cleanupInterval self; devices := devices self;
     myDeviceId := myDeviceId self; myDeviceName := myDeviceName self;
     myEmail := e; isRunning := isRunning self |}.

Definition updateDeviceName (self : DeviceDiscovery) (name : option string) :=
  {| socket := socket self; broadcastInterval := broadcastInterval self;
     cleanupInterval := cleanupInterval self; devices := devices self;
     myDeviceId := myDeviceId self; myDeviceName := name;
     myEmail := myEmail self; isRunning := isRunning self |}.

(** [startBroadcasting]: one broadcast at once, then the timer is armed. *)
Definition startBroadcasting (self : DeviceDiscovery) (now : Z)
    (interfaces : list (string * list Iface)) : DeviceDiscovery * list Output :=
  ({| socket := socket self; broadcastInterval := true;
      cleanupInterval := cleanupInterval self; devices := devices self;
      myDeviceId := myDeviceId self; myDeviceName := myDeviceName self;
      myEmail := myEmail self; isRunning := isRunning self |},
   broadcast self now interfaces).

(** What the host and the event loop can do to a service instance.  The
    socket callbacks and the timers exist only between [start] and
    [stop]: [socket.on] registers them in [start], [stop] closes the
    socket and clears both intervals.  The socket's ['error'] event,
    whose listener closes the socket and leaves the fields as they are,
    is not among the inputs: the runs are those of a socket that
    reports no error. *)
Inductive Input : Type :=
| CallStart (deviceId deviceName : string) (email : option string)
| CallStop
| CallUpdateEmail (e : option string)
| CallUpdateDeviceName (name : option string)
| OnListening (now : Z) (interfaces : list (string * list Iface))
| OnMessage (msg : list byte) (rinfo_address : string) (now : Z)
| BroadcastTick (now : Z) (interfaces : list (string * list Iface))
| CleanupTick (now : Z).

Section Run.
Variable JSON_parse : list byte -> option Message.

Definition step (self : DeviceDiscovery) (i : Input)
  : DeviceDiscovery * list Output :=
  match i with
  | CallStart d n e => (start self d n e, [])
  | CallStop => (stop self, [])
  | CallUpdateEmail e => (updateEmail self e, [])
  | CallUpdateDeviceName n => (updateDeviceName self n, [])
  | OnListening now ifs =>
      if socket self then startBroadcasting self now ifs else (self, [])
  | OnMessage msg a now =>
      if socket self then handleMessage JSON_parse self msg a now
      else (self, [])
  | BroadcastTick now ifs =>
      if broadcastInterval self then (self, broadcast self now ifs)
      else (self, [])
  | CleanupTick now =>
      if cleanupInterval self then cleanupStaleDevices self now
      else (self, [])
  end.

Fixpoint run (self : DeviceDiscovery) (inputs : list Input)
  : DeviceDiscovery * list Output :=
  match inputs with
  | [] => (self, [])
  | i :: rest =>
      let '(self1, out1) := step self i in
      let '(self2, out2) := run self1 rest in
      (self2, out1 ++ out2)
  end.

(** [handleMessage] on a sequence of datagrams [(msg, address, now)]. *)
Fixpoint receive_all (self : DeviceDiscovery)
    (datagrams : list (list byte * string * Z))
  : DeviceDiscovery * list Output :=
  match datagrams with
  | [] => (self, [])
  | (msg, a, now) :: rest =>
      let '(self1, out1) := handleMessage JSON_parse self msg a now in
      let '(self2, out2) := receive_all self1 rest in
      (self2, out1 ++ out2)
  end.
End Run.

(** A datagram [(msg, address, now)] that parses to the presence
    document [data] of device [d]. *)
Definition presence_from (JSON_parse : list byte -> option Message)
    (d : string) (dg : list byte * string * Z) (data : Message) : Prop :=
  JSON_parse dg.1.1 = Some data /\ type data = "presence"
  /\ msg_deviceId data = d.

(** Every entry is filed under the id it carries, no entry carries the
    instance's own id, the table is empty while the service is stopped,
    and the socket and the sweep timer exist only while it runs. *)
Definition self_excluded (self : DeviceDiscovery) : Prop :=
  (forall k info, (k, info) ∈ devices self ->
     deviceId info = k /\ Some k <> myDeviceId self)
  /\ (isRunning self = false -> devices self = [] /\ socket self = false
                                /\ cleanupInterval self = false).

Definition octet (z : Z) : Prop := 0 <= z <= 255.

(** The interfaces [getBroadcastAddresses] does not skip. *)
Definition usable_interfaces (interfaces : list (string * list Iface))
  : list Iface :=
  filter (fun iface => internal iface = false /\ family iface = "IPv4")
         (concat (interfaces.*2)).

(** Sample data for the concrete runs. *)
Definition sample_parse (msg : list byte) : option Message :=
  match msg with
  | [x41] => Some {| type := "presence"; msg_deviceId := "A1";
                     msg_deviceName := "alpha"; msg_email := "a@x";
                     timestamp := 1 |}
  | [x41; x32] => Some {| type := "presence"; msg_deviceId := "A1";
                          msg_deviceName := "alpha2"; msg_email := "a2@x";
                          timestamp := 2 |}
  | [x42] => Some {| type := "presence"; msg_deviceId := "B1";
                     msg_deviceName := "beta"; msg_email := "b@x";
                     timestamp := 3 |}
  | [x43] => Some {| type := "hello"; msg_deviceId := "C1";
                     msg_deviceName := "gamma"; msg_email := "c@x";
                     timestamp := 4 |}
  | _ => None
  end.

Definition sample_service : DeviceDiscovery :=
  start constructor "B1" "beta" (Some "b@x").

Definition sample_table : DeviceDiscovery :=
  (receive_all sample_parse sample_service [([x41], "10.0.0.5", 1000)]).1.

Definition sample_interfaces : list (string * list Iface) :=
  [("lo", [{| internal := true; family := "IPv4";
              address := [127; 0; 0; 1]; netmask := [255; 0; 0; 0] |}]);
   ("eth0", [{| internal := false; family := "IPv6";
                address := []; netmask := [] |};
             {| internal := false; family := "IPv4";
                address := [192; 168; 1; 23]; netmask := [255; 255; 255; 0] |}])].

End Discovery.

(** ** fileTransfer.js *)

Module Transfer.
Import JsNumber.

Definition TRANSFER_PORT : Z := 41235.
Definition CHUNK_SIZE : Z := 64 * 1024.

(** The offer header, as [JSON.parse] returns it: an object with the
    fields of the schema.  Of the documents of another shape the model
    has [null] (see [pendingNull]); the others are outside it. *)
Record TransferInfo : Type := {
  transferId : string;
  fileName : string;
  fileSize : Z;
  senderEmail : string
}.

Inductive Event : Type :=
| transferRequest (senderEmail fileName : string) (fileSize : Z) (transferId : string)
| transferProgress (transferId : string) (bytes total : Z) (progress : number)
                   (type : string)
| transferComplete (transferId filePath fileName : string)
| transferCancelled (transferId : string)
| sendComplete (transferId filePath : string).

(** A file of the receive directory.  [busy] stands for whatever makes
    the operating system refuse to unlink it (a sharing violation, a
    permission): [unlinkSync] then throws an error other than [ENOENT]. *)
Record File : Type := { content : list byte; busy : bool }.

(** An [fs.WriteStream]: the path it was opened on and whether it still
    takes writes ([end()] and [close()] both stop them). *)
Record WriteStream : Type := { ws_path : string; writable : bool }.

(** The value stored in [activeTransfers]. *)
Record ActiveTransfer : Type := {
  fileStream : nat;
  filePath : string;
  totalSize : Z;
  receivedBytes : Z
}.

(** The variables captured by the two socket listeners that
    [acceptTransfer] registers. *)
Record Receiver : Type := {
  r_transferId : string;
  r_transferInfo : TransferInfo;
  r_filePath : string;
  r_fileStream : nat;
  r_receivedBytes : Z
}.

(** A socket, with the variables captured by the listeners that
    [handleIncomingConnection] registers on it.  [written] is the
    concatenation of the arguments of [socket.write]. *)
Record Socket : Type := {
  paused : bool;
  ended : bool;
  closed : bool;
  written : list byte;
  buffer : list byte;
  transferInfo : option TransferInfo;
  headerReceived : bool;
  receiver : option Receiver
}.

(** The value stored in [pendingTransfer], when its [transferInfo] is
    an object. *)
Record Pending : Type := {
  p_socket : nat;
  p_transferInfo : TransferInfo;
  p_buffer : list byte
}.

(** [this.pendingTransfer] takes two fields.  [pendingTransfer] holds
    the object [{ socket, transferInfo, buffer }] whose [transferInfo]
    is an object of the schema.  [pendingNull] holds the socket and the
    buffer of the object whose [transferInfo] is [null], which the
    ['data'] listener stores for a header that is the JSON text [null].
    Both are [None] when [this.pendingTransfer] is [null]; an assignment
    sets one field and clears the other. *)
Record FileTransfer : Type := {
  pendingTransfer : option Pending;
  pendingNull : option (nat * list byte);
  activeTransfers : list (string * ActiveTransfer);
  receivePath : string;
  sockets : gmap nat Socket;
  streams : gmap nat WriteStream;
  next_stream : nat;
  files : gmap string File
}.

(** [this.pendingTransfer = null], or an offer with its header. *)
Definition set_pendingTransfer (p : option Pending) (self : FileTransfer) :=
  {| pendingTransfer := p; pendingNull := None;
     activeTransfers := activeTransfers self;
     receivePath := receivePath self; sockets := sockets self;
     streams := streams self; next_stream := next_stream self;
     files := files self |}.

(** [this.pendingTransfer = { socket, transferInfo: null, buffer }] *)
Definition set_pendingNull (socket : nat) (buffer : list byte)
    (self : FileTransfer) :=
  {| pendingTransfer := None; pendingNull := Some (socket, buffer);
     activeTransfers := activeTransfers self;
     receivePath := receivePath self; sockets := sockets self;
     streams := streams self; next_stream := next_stream self;
     files := files self |}.

Definition set_activeTransfers (a : list (string * ActiveTransfer))
    (self : FileTransfer) :=
  {| pendingTransfer := pendingTransfer self;
     pendingNull := pendingNull self; activeTransfers := a;
     receivePath := receivePath self; sockets := sockets self;
     streams := streams self; next_stream := next_stream self;
     files := files self |}.

Definition set_sockets (s : gmap nat Socket) (self : FileTransfer) :=
  {| pendingTransfer := pendingTransfer self;
     pendingNull := pendingNull self;
     activeTransfers := activeTransfers self;
     receivePath := receivePath self; sockets := s;
     streams := streams self; next_stream := next_stream self;
     files := files self |}.

Definition set_streams (s : gmap nat WriteStream) (n : nat)
    (self : FileTransfer) :=
  {| pendingTransfer := pendingTransfer self;
     pendingNull := pendingNull self;
     activeTransfers := activeTransfers self;
     receivePath := receivePath self; sockets := sockets self;
     streams := s; next_stream := n; files := files self |}.

Definition set_files (f : gmap string File) (self : FileTransfer) :=
  {| pendingTransfer := pendingTransfer self;
     pendingNull := pendingNull self;
     activeTransfers := activeTransfers self;
     receivePath := receivePath self; sockets := sockets self;
     streams := streams self; next_stream := next_stream self;
     files := f |}.

(** A fresh service, on a disk that holds the files [disk]. *)
Definition constructor (receivePath : string) (disk : gmap string File)
  : FileTransfer :=
  {| pendingTransfer := None; pendingNull := None; activeTransfers := [];
     receivePath := receivePath;
     sockets := ∅; streams := ∅; next_stream := 0%nat; files := disk |}.

Definition getReceivePath (self : FileTransfer) : string := receivePath self.

(** *** Sockets *)

Definition new_socket : Socket :=
  {| paused := false; ended := false; closed := false; written := [];
     buffer := []; transferInfo := None; headerReceived := false;
     receiver := None |}.

Definition socket_write (data : list byte) (c : Socket) : Socket :=
  {| paused := paused c; ended := ended c; closed := closed c;
     written := written c ++ data; buffer := buffer c;
     transferInfo := transferInfo c; headerReceived := headerReceived c;
     receiver := receiver c |}.

Definition socket_set_paused (b : bool) (c : Socket) : Socket :=
  {| paused := b; ended := ended c; closed := closed c;
     written := written c; buffer := buffer c;
     transferInfo := transferInfo c; headerReceived := headerReceived c;
     receiver := receiver c |}.

Definition socket_end (c : Socket) : Socket :=
  {| paused := paused c; ended := true; closed := closed c;
     written := written c; buffer := buffer c;
     transferInfo := transferInfo c; headerReceived := headerReceived c;
     receiver := receiver c |}.

Definition socket_close (c : Socket) : Socket :=
  {| paused := paused c; ended := ended c; closed := true;
     written := written c; buffer := buffer c;
     transferInfo := transferInfo c; headerReceived := headerReceived c;
     receiver := receiver c |}.

Definition set_buffer (b : list byte) (c : Socket) : Socket :=
  {| paused := paused c; ended := ended c; closed := closed c;
     written := written c; buffer := b;
     transferInfo := transferInfo c; headerReceived := headerReceived c;
     receiver := receiver c |}.

Definition set_header (info : TransferInfo) (c : Socket) : Socket :=
  {| paused := paused c; ended := ended c; closed := closed c;
     written := written c; buffer := buffer c;
     transferInfo := Some info; headerReceived := true;
     receiver := receiver c |}.

(** [headerReceived = true] after [JSON.parse] returned [null]: the
    variable [transferInfo] is [null] as before. *)
Definition set_headerReceived (c : Socket) : Socket :=
  {| paused := paused c; ended := ended c; closed := closed c;
     written := written c; buffer := buffer c;
     transferInfo := None; headerReceived := true;
     receiver := receiver c |}.

Definition set_receiver (r : option Receiver) (c : Socket) : Socket :=
  {| paused := paused c; ended := ended c; closed := closed c;
     written := written c; buffer := buffer c;
     transferInfo := transferInfo c; headerReceived := headerReceived c;
     receiver := r |}.

Definition on_socket (s : nat) (f : Socket -> Socket) (self : FileTransfer)
  : FileTransfer :=
  set_sockets (alter f s (sockets self)) self.

(** *** File streams *)

(** [fs.createWriteStream(path)]: the file is created or truncated.
    The stream opens its file and carries out its writes on later turns
    of the event loop, in the order of the calls; [files] holds each
    file as it is once the calls made so far have been carried out.
    That is what the disk holds on the runs on which a stream gets no
    [write] after its [end()] or [close()] and its file is not unlinked
    before it is open, and the statements about [files] are about those
    runs. *)
Definition createWriteStream (path : string) (self : FileTransfer)
  : FileTransfer * nat :=
  let h := next_stream self in
  let f := {| content := [];
              busy := match files self !! path with
                      | Some old => busy old
                      | None => false
                      end |} in
  (set_files (<[path := f]> (files self))
     (set_streams (<[h := {| ws_path := path; writable := true |}]> (streams self))
                  (S h) self),
   h).

Definition append (data : list byte) (f : File) : File :=
  {| content := content f ++ data; busy := busy f |}.

(** [fileStream.write(data)]: appended to the file while the stream
    takes writes and the file is still there.  A [write] after [end()]
    or [close()] adds nothing; in Node it also fails the stream, which
    can lose writes that were queued before it, and is not followed
    further here. *)
Definition fileStream_write (h : nat) (data : list byte) (self : FileTransfer)
  : FileTransfer :=
  match streams self !! h with
  | Some ws =>
      if writable ws
      then set_files (alter (append data) (ws_path ws) (files self)) self
      else self
  | None => self
  end.

(** [fileStream.end()] and [fileStream.close()], which calls [end()]:
    the stream takes no more writes. *)
Definition fileStream_end (h : nat) (self : FileTransfer) : FileTransfer :=
  set_streams
    (alter (fun ws => {| ws_path := ws_path ws; writable := false |}) h
           (streams self))
    (next_stream self) self.

Inductive Errno : Type := ENOENT | EBUSY.

(** [fs.unlinkSync(path)]: the remaining files, or the error thrown. *)
Definition unlinkSync (path : string) (fs : gmap string File)
  : Errno + gmap string File :=
  match fs !! path with
  | None => inl ENOENT
  | Some f => if busy f then inl EBUSY else inr (delete path fs)
  end.

(** What a call can throw: the error of a file-system call, or the
    [TypeError] of reading a property of [null]. *)
Inductive Exception : Type :=
| SystemError (code : Errno)
| TypeError.

(** How a call ends: with a value, or with an exception thrown to the
    caller. *)
Inductive Completion (A : Type) : Type :=
| Return (v : A)
| Throw (e : Exception).
Arguments Return {A} v.
Arguments Throw {A} e.

(** *** Wire format *)

(** [buffer.indexOf(0)] *)
Fixpoint indexOf0 (b : list byte) : option nat :=
  match b with
  | [] => None
  | x :: rest =>
      if Byte.eqb x x00 then Some 0%nat
      else option_map S (indexOf0 rest)
  end.

(** The whitespace of the JSON grammar: space, tab, line feed and
    carriage return. *)
Definition is_ws (b : byte) : bool :=
  match b with
  | x20 | x09 | x0a | x0d => true
  | _ => false
  end.

Fixpoint drop_ws (b : list byte) : list byte :=
  match b with
  | [] => []
  | x :: rest => if is_ws x then drop_ws rest else b
  end.

(** The texts on which [JSON.parse] returns [null]: the literal [null]
    between whitespace. *)
Definition is_json_null (text : list byte) : bool :=
  match rev (drop_ws (rev (drop_ws text))) with
  | [x6e; x75; x6c; x6c] => true
  | _ => false
  end.

(** [JSON.stringify({ accepted: b }) + '\0'] *)
Definition ack (accepted : bool) : list byte :=
  [x7b; x22] ++ Stdlib.Strings.String.list_byte_of_string "accepted" ++ [x22; x3a]
    ++ Stdlib.Strings.String.list_byte_of_string (if accepted then "true" else "false")
    ++ [x7d; x00].

(** *** Progress *)

(** [Math.round((bytes / total) * 100)] *)
Definition progress_of (bytes total : Z) : number :=
  Math_round (mul (div (inject_Z bytes) (inject_Z total)) 100).

Definition emitProgress (transferId : string) (bytes total : Z)
    (type : string) : Event :=
  transferProgress transferId bytes total (progress_of bytes total) type.

Definition Zlength_bytes (b : list byte) : Z := Z.of_nat (length b).

Section Service.
(** [JSON.parse] on a header, the value it returns read as the object
    of the header's four fields; [None] when it throws or, on the texts
    of [is_json_null], returns [null], which has no fields to read. *)
Variable JSON_parse : list byte -> option TransferInfo.
Variable path_join : string -> string -> string.

(** *** handleIncomingConnection *)

Definition handleIncomingConnection (self : FileTransfer) (socket : nat)
  : FileTransfer :=
  set_sockets (<[socket := new_socket]> (sockets self)) self.

(** The ['data'] listener registered by [handleIncomingConnection].
    After [JSON.parse] returned [null] the listener sets
    [headerReceived] and [this.pendingTransfer], and the argument of
    [emit] throws on [transferInfo.senderEmail]; the [catch] clause ends
    the socket, which was not paused. *)
Definition incoming_on_data (self : FileTransfer) (socket : nat)
    (chunk : list byte) : FileTransfer * list Event :=
  match sockets self !! socket with
  | None => (self, [])
  | Some c =>
      let buf := buffer c ++ chunk in
      let self := on_socket socket (set_buffer buf) self in
      if headerReceived c then (self, [])
      else
        match indexOf0 buf with
        | None => (self, [])
        | Some nullIndex =>
            let headerStr := take nullIndex buf in
            let buf := drop (S nullIndex) buf in
            let self := on_socket socket (set_buffer buf) self in
            match JSON_parse headerStr with
            | Some info =>
                let self := on_socket socket (set_header info) self in
                let self :=
                  set_pendingTransfer
                    (Some {| p_socket := socket; p_transferInfo := info;
                             p_buffer := buf |}) self in
                let ev := transferRequest (senderEmail info) (fileName info)
                            (fileSize info) (transferId info) in
                (on_socket socket (socket_set_paused true) self, [ev])
            | None =>
                if is_json_null headerStr
                then
                  let self := on_socket socket set_headerReceived self in
                  let self := set_pendingNull socket buf self in
                  (on_socket socket socket_end self, [])
                else (on_socket socket socket_end self, [])
            end
        end
  end.

(** *** acceptTransfer *)

(** [receivedBytes += chunk.length]; byte counts stay below 2^53,
    where the addition of doubles is exact. *)
Definition bump (n : Z) (r : Receiver) : Receiver :=
  {| r_transferId := r_transferId r; r_transferInfo := r_transferInfo r;
     r_filePath := r_filePath r; r_fileStream := r_fileStream r;
     r_receivedBytes := r_receivedBytes r + n |}.

(** The ['data'] listener registered by [acceptTransfer]. *)
Definition accept_on_data (self : FileTransfer) (socket : nat)
    (chunk : list byte) : FileTransfer * list Event :=
  match sockets self !! socket with
  | None => (self, [])
  | Some c =>
      match receiver c with
      | None => (self, [])
      | Some r =>
          let self := fileStream_write (r_fileStream r) chunk self in
          let r := bump (Zlength_bytes chunk) r in
          let self := on_socket socket (set_receiver (Some r)) self in
          let total := fileSize (r_transferInfo r) in
          let ev := emitProgress (r_transferId r) (r_receivedBytes r) total
                                 "receiving" in
          if Z.leb total (r_receivedBytes r)
          then
            let self := fileStream_end (r_fileStream r) self in
            let self :=
              set_activeTransfers
                (JsMap.delete (r_transferId r) (activeTransfers self)) self in
            (self,
             [ev; transferComplete (r_transferId r) (r_filePath r)
                    (fileName (r_transferInfo r))])
          else (self, [ev])
      end
  end.

(** The ['close'] listener registered by [acceptTransfer]. *)
Definition accept_on_close (self : FileTransfer) (socket : nat)
  : FileTransfer * list Event :=
  match sockets self !! socket with
  | None => (self, [])
  | Some c =>
      match receiver c with
      | None => (self, [])
      | Some r =>
          let self := fileStream_end (r_fileStream r) self in
          if Z.leb (fileSize (r_transferInfo r)) (r_receivedBytes r)
          then (self,
                [transferComplete (r_transferId r) (r_filePath r)
                   (fileName (r_transferInfo r))])
          else (self, [])
      end
  end.

(** With [transferInfo] being [null], [transferInfo.transferId]
    throws. *)
Definition acceptTransfer (self : FileTransfer) (transferId_ : string)
  : FileTransfer * list Event * Completion bool :=
  match pendingTransfer self with
  | None =>
      match pendingNull self with
      | None => (self, [], Return false)
      | Some _ => (self, [], Throw TypeError)
      end
  | Some p =>
      let socket := p_socket p in
      let info := p_transferInfo p in
      let buf := p_buffer p in
      if negb (String.eqb (transferId info) transferId_)
      then (self, [], Return false)
      else
        let self := on_socket socket (socket_write (ack true)) self in
        let path := path_join (receivePath self) (fileName info) in
        let '(self, fs) := createWriteStream path self in
        let self :=
          set_activeTransfers
            (JsMap.set transferId_
               {| fileStream := fs; filePath := path;
                  totalSize := fileSize info; receivedBytes := 0 |}
               (activeTransfers self)) self in
        let '(self, received, ev) :=
          if (0 <? Zlength_bytes buf)
          then (fileStream_write fs buf self, Zlength_bytes buf,
                [emitProgress transferId_ (Zlength_bytes buf)
                              (fileSize info) "receiving"])
          else (self, 0, []) in
        let r := {| r_transferId := transferId_; r_transferInfo := info;
                    r_filePath := path; r_fileStream := fs;
                    r_receivedBytes := received |} in
        let self := on_socket socket (set_receiver (Some r)) self in
        let self := on_socket socket (socket_set_paused false) self in
        (set_pendingTransfer None self, ev, Return true)
  end.

(** *** rejectTransfer *)

Definition rejectTransfer (self : FileTransfer) (transferId_ : string)
  : FileTransfer * Completion bool :=
  match pendingTransfer self with
  | None =>
      match pendingNull self with
      | None => (self, Return false)
      | Some _ => (self, Throw TypeError)
      end
  | Some p =>
      if negb (String.eqb (transferId (p_transferInfo p)) transferId_)
      then (self, Return false)
      else
        let self := on_socket (p_socket p) (socket_write (ack false)) self in
        let self := on_socket (p_socket p) socket_end self in
        (set_pendingTransfer None self, Return true)
  end.

(** *** cancelTransfer *)

Definition cancelTransfer (self : FileTransfer) (transferId_ : string)
  : FileTransfer * list Event * Completion bool :=
  match JsMap.get transferId_ (activeTransfers self) with
  | Some transfer =>
      let self := fileStream_end (fileStream transfer) self in
      let self :=
        match unlinkSync (filePath transfer) (files self) with
        | inr fs => set_files fs self
        | inl _ => self  (* catch (err) { } *)
        end in
      let self :=
        set_activeTransfers
          (JsMap.delete transferId_ (activeTransfers self)) self in
      (self, [transferCancelled transferId_], Return true)
  | None => (self, [], Return false)
  end.

(** *** streamFile *)

(** The ['data'] listener of the read stream, over the chunks it
    delivers, followed by the ['end'] listener.  The result is the
    event log and what was written to the socket. *)
Fixpoint streamFile_data (chunks : list (list byte)) (totalSize : Z)
    (transferId_ : string) (sentBytes : Z) : list Event * list byte :=
  match chunks with
  | [] => ([], [])
  | chunk :: rest =>
      let sentBytes := sentBytes + Zlength_bytes chunk in
      let '(ev, out) := streamFile_data rest totalSize transferId_ sentBytes in
      (emitProgress transferId_ sentBytes totalSize "sending" :: ev,
       chunk ++ out)
  end.

Definition streamFile (chunks : list (list byte)) (filePath_ : string)
    (totalSize : Z) (transferId_ : string) : list Event * list byte :=
  let '(ev, out) := streamFile_data chunks totalSize transferId_ 0 in
  (ev ++ [sendComplete transferId_ filePath_], out).

(** *** The event loop *)

(** What reaches the service: the host's calls and the socket events.
    A socket delivers ['data'] only while it is flowing and open
    ([socket.pause()] leaves what arrives in the stream's own buffer
    until [socket.resume()]), and ['close'] once.  An input that the
    runtime cannot deliver leaves the state as it is. *)
Inductive Input : Type :=
| OnConnection (socket : nat)
| OnData (socket : nat) (chunk : list byte)
| OnClose (socket : nat)
| CallAccept (transferId : string)
| CallReject (transferId : string)
| CallCancel (transferId : string).

Definition flowing (self : FileTransfer) (socket : nat) : bool :=
  match sockets self !! socket with
  | Some c => negb (paused c) && negb (closed c)
  | None => false
  end.

(** The ['data'] listeners of a socket, in the order of registration. *)
Definition socket_on_data (self : FileTransfer) (socket : nat)
    (chunk : list byte) : FileTransfer * list Event :=
  let '(self, ev1) := incoming_on_data self socket chunk in
  let '(self, ev2) := accept_on_data self socket chunk in
  (self, ev1 ++ ev2).

(** The ['close'] listeners.  The one registered by
    [handleIncomingConnection] tests its own [fileStream] variable,
    which is never assigned, and does nothing. *)
Definition socket_on_close (self : FileTransfer) (socket : nat)
  : FileTransfer * list Event :=
  let '(self, ev) := accept_on_close self socket in
  (on_socket socket socket_close self, ev).

Definition step (self : FileTransfer) (i : Input)
  : FileTransfer * list Event :=
  match i with
  | OnConnection s =>
      match sockets self !! s with
      | None => (handleIncomingConnection self s, [])
      | Some _ => (self, [])
      end
  | OnData s chunk =>
      if flowing self s then socket_on_data self s chunk else (self, [])
  | OnClose s =>
      match sockets self !! s with
      | Some c => if closed c then (self, []) else socket_on_close self s
      | None => (self, [])
      end
  | CallAccept id => let '(self, ev, _) := acceptTransfer self id in (self, ev)
  | CallReject id => let '(self, _) := rejectTransfer self id in (self, [])
  | CallCancel id => let '(self, ev, _) := cancelTransfer self id in (self, ev)
  end.

Fixpoint run (self : FileTransfer) (inputs : list Input)
  : FileTransfer * list Event :=
  match inputs with
  | [] => (self, [])
  | i :: rest =>
      let '(self1, ev1) := step self i in
      let '(self2, ev2) := run self1 rest in
      (self2, ev1 ++ ev2)
  end.
End Service.

(** *** Reading an event log *)

(** The byte count and the percentage of the progress events. *)
Definition progress_values (ev : list Event) : list (Z * number) :=
  flat_map (fun e => match e with
                     | transferProgress _ b _ p _ => [(b, p)]
                     | _ => []
                     end) ev.

Definition is_complete (id : string) (e : Event) : bool :=
  match e with
  | transferComplete i _ _ => String.eqb i id
  | _ => false
  end.

(** How many completion events a log holds for a transfer. *)
Definition completions (id : string) (ev : list Event) : nat :=
  length (List.filter (is_complete id) ev).

(** What the ['data'] listener of an accepted transfer emits over a
    sequence of chunks, [received] bytes having been counted before. *)
Fixpoint receive_events (id path name : string) (total received : Z)
    (chunks : list (list byte)) : list Event :=
  match chunks with
  | [] => []
  | c :: rest =>
      let received := received + Zlength_bytes c in
      emitProgress id received total "receiving"
        :: (if Z.leb total received then [transferComplete id path name]
            else [])
        ++ receive_events id path name total received rest
  end.

(** What it appends to the file: the stream takes the chunks up to the
    one that reaches the declared size. *)
Fixpoint written_chunks (w : bool) (total received : Z)
    (chunks : list (list byte)) : list byte :=
  match chunks with
  | [] => []
  | c :: rest =>
      let received := received + Zlength_bytes c in
      (if w then c else [])
        ++ written_chunks (w && negb (Z.leb total received)) total received rest
  end.

(** The running totals of a sequence of chunk lengths. *)
Fixpoint cumulative (start : Z) (chunks : list (list byte)) : list Z :=
  match chunks with
  | [] => []
  | c :: rest =>
      (start + Zlength_bytes c) :: cumulative (start + Zlength_bytes c) rest
  end.

(** What is required of the progress values of one transfer of declared size
    [total]: each is the rounded percentage of its byte count, an
    integer, not negative, and at most 100 until the byte count passes
    [total]; the sequence never decreases. *)
Definition progress_ok (total : Z) (vs : list (Z * number)) : Prop :=
  Forall (fun bp => bp.2 = progress_of bp.1 total
                    /\ is_integer bp.2
                    /\ JsNumber.le (Num 0) bp.2
                    /\ (bp.1 <= total -> JsNumber.le bp.2 (Num 100))) vs
  /\ StronglySorted JsNumber.le (vs.*2).

(** *** States of an offer *)

(** An offer with transferId [id] is awaiting a decision. *)
Definition awaiting (self : FileTransfer) (id : string) : Prop :=
  exists p, pendingTransfer self = Some p
            /\ transferId (p_transferInfo p) = id.

(** The state after the chunk that completes a header on [s]. *)
Definition offered (self : FileTransfer) (s : nat) (c : Socket)
    (chunk : list byte) (i : nat) (info : TransferInfo) : FileTransfer :=
  let rest := drop (S i) (buffer c ++ chunk) in
  on_socket s (socket_set_paused true)
    (set_pendingTransfer
       (Some {| p_socket := s; p_transferInfo := info; p_buffer := rest |})
       (on_socket s (set_header info)
          (on_socket s (set_buffer rest)
             (on_socket s (set_buffer (buffer c ++ chunk)) self)))).

(** The listener variables that [acceptTransfer] captures for [p]. *)
Definition receiver_of (path_join : string -> string -> string)
    (self : FileTransfer) (p : Pending) : Receiver :=
  {| r_transferId := transferId (p_transferInfo p);
     r_transferInfo := p_transferInfo p;
     r_filePath := path_join (receivePath self) (fileName (p_transferInfo p));
     r_fileStream := next_stream self;
     r_receivedBytes := Zlength_bytes (p_buffer p) |}.

(** The state after a successful [acceptTransfer] of the offer [p]. *)
Definition accepted (path_join : string -> string -> string)
    (self : FileTransfer) (p : Pending) : FileTransfer :=
  let socket := p_socket p in
  let info := p_transferInfo p in
  let id := transferId info in
  let path := path_join (receivePath self) (fileName info) in
  let self1 := on_socket socket (socket_write (ack true)) self in
  let fs := next_stream self in
  let self2 := (createWriteStream path self1).1 in
  let self3 :=
    set_activeTransfers
      (JsMap.set id {| fileStream := fs; filePath := path;
                       totalSize := fileSize info; receivedBytes := 0 |}
                 (activeTransfers self2)) self2 in
  let self4 :=
    if 0 <? Zlength_bytes (p_buffer p)
    then fileStream_write fs (p_buffer p) self3 else self3 in
  let r := {| r_transferId := id; r_transferInfo := info;
              r_filePath := path; r_fileStream := fs;
              r_receivedBytes := Zlength_bytes (p_buffer p) |} in
  set_pendingTransfer None
    (on_socket socket (socket_set_paused false)
       (on_socket socket (set_receiver (Some r)) self4)).

(** A socket in the data phase of an accepted transfer: flowing, its
    header read, the listeners of [acceptTransfer] installed with the
    captured variables [r], the stream of [r] open on [r_filePath r]
    with [writable] = [w], and the file there being [f]. *)
Definition receiving (self : FileTransfer) (s : nat) (r : Receiver)
    (w : bool) (f : File) : Prop :=
  exists c,
    sockets self !! s = Some c
    /\ paused c = false /\ closed c = false /\ headerReceived c = true
    /\ receiver c = Some r
    /\ streams self !! r_fileStream r
       = Some {| ws_path := r_filePath r; writable := w |}
    /\ files self !! r_filePath r = Some f.

(** A socket that waits paused, and is not the one of the pending
    offer, with [w] written to it so far. *)
Definition left_behind (self : FileTransfer) (s1 : nat) (w : list byte)
  : Prop :=
  (exists c, sockets self !! s1 = Some c /\ paused c = true /\ written c = w)
  /\ (forall p, pendingTransfer self = Some p -> p_socket p <> s1).

(** What holds of every state the service can reach: the socket of the
    pending offer is there, paused, its header read, nothing written to
    it yet; and a socket whose header is still awaited has nothing
    written to it and no transfer listeners. *)
Definition offer_wf (self : FileTransfer) : Prop :=
  (forall p, pendingTransfer self = Some p ->
     exists c, sockets self !! p_socket p = Some c
               /\ paused c = true /\ headerReceived c = true
               /\ written c = [])
  /\ (forall s c, sockets self !! s = Some c -> headerReceived c = false ->
        written c = [] /\ receiver c = None).

(** Sample data for the concrete runs. *)
Definition sample_info : TransferInfo :=
  {| transferId := "t1"; fileName := "f.bin"; fileSize := 4;
     senderEmail := "a@x" |}.

Definition sample_info2 : TransferInfo :=
  {| transferId := "t2"; fileName := "g.bin"; fileSize := 8;
     senderEmail := "b@x" |}.

Definition sample_parse (header : list byte) : option TransferInfo :=
  match header with
  | [x68] => Some sample_info
  | [x69] => Some sample_info2
  | _ => None
  end.

Definition sample_join (dir name : string) : string :=
  dir +:+ "/" +:+ name.

Definition sample_server : FileTransfer := constructor "recv" ∅.

Definition sample_connected : FileTransfer :=
  (run sample_parse sample_join sample_server [OnConnection 1%nat]).1.

(** An offer of [sample_info] whose header chunk carries one byte of
    the file behind the delimiter. *)
Definition sample_offered : FileTransfer :=
  (run sample_parse sample_join sample_connected
       [OnData 1%nat [x68; x00; x01]]).1.

Definition sample_pending : Pending :=
  {| p_socket := 1%nat; p_transferInfo := sample_info; p_buffer := [x01] |}.

(** The socket of that offer. *)
Definition sample_socket : Socket :=
  {| paused := true; ended := false; closed := false; written := [];
     buffer := [x01]; transferInfo := Some sample_info;
     headerReceived := true; receiver := None |}.

Definition sample_streaming : FileTransfer :=
  (acceptTransfer sample_join sample_offered "t1").1.1.

(** The partial file held by another process: the delete is refused. *)
Definition sample_locked : FileTransfer :=
  set_files
    (alter (fun f => {| content := content f; busy := true |}) "recv/f.bin"
           (files sample_streaming))
    sample_streaming.

(** An offer pending on socket 1 and a second connection, socket 2. *)
Definition sample_two : FileTransfer :=
  (run sample_parse sample_join sample_server
       [OnConnection 1%nat; OnData 1%nat [x68; x00]; OnConnection 2%nat]).1.

End Transfer.

(** ** fileTransfer.js: the sending side *)

Module Sender.
Import JsNumber Transfer.

(** The events of [sendFile] and [streamFile]; [emit] carries the
    progress and completion events that the receiving side shares. *)
Inductive Event : Type :=
| transferAccepted (transferId fileName : string)
| transferRejected (transferId fileName : string)
| emit (e : Transfer.Event).

(** How the promise of [sendFile] is settled: [resolve({ accepted,
    transferId })] or [reject(err)]. *)
Inductive Settled : Type :=
| resolved (accepted : bool) (transferId : string)
| rejected.

(** What [JSON.parse] returns for a response, as far as the ['data']
    listener reads it: [null], whose [accepted] member cannot be read,
    or another value, with an [accepted] member that is truthy or not
    (a member that is absent is [undefined]). *)
Inductive Response : Type :=
| JsonNull
| JsonValue (accepted : bool).

(** One call of [sendFile]: its constants, its socket, the variables
    that its listeners capture, the read stream of [streamFile] and the
    promise it returned.  [socket_written] is the concatenation of the
    arguments of [socket.write]; [responseBuffer] is a string, kept as
    the list of its UTF-16 code units. *)
Record Send : Type := {
  deviceIp : string;
  s_filePath : string;
  header : TransferInfo;
  connected : bool;
  socket_closed : bool;
  socket_ended : bool;
  socket_written : list byte;
  responseReceived : bool;
  responseBuffer : list N;
  reading : bool;
  sentBytes : Z;
  promise : option Settled
}.

Definition socket_write (data : list byte) (st : Send) : Send :=
  {| deviceIp := deviceIp st; s_filePath := s_filePath st; header := header st;
     connected := connected st; socket_closed := socket_closed st;
     socket_ended := socket_ended st;
     socket_written := socket_written st ++ data;
     responseReceived := responseReceived st;
     responseBuffer := responseBuffer st; reading := reading st;
     sentBytes := sentBytes st; promise := promise st |}.

Definition socket_end (st : Send) : Send :=
  {| deviceIp := deviceIp st; s_filePath := s_filePath st; header := header st;
     connected := connected st; socket_closed := socket_closed st;
     socket_ended := true; socket_written := socket_written st;
     responseReceived := responseReceived st;
     responseBuffer := responseBuffer st; reading := reading st;
     sentBytes := sentBytes st; promise := promise st |}.

Definition set_connected (st : Send) : Send :=
  {| deviceIp := deviceIp st; s_filePath := s_filePath st; header := header st;
     connected := true; socket_closed := socket_closed st;
     socket_ended := socket_ended st; socket_written := socket_written st;
     responseReceived := responseReceived st;
     responseBuffer := responseBuffer st; reading := reading st;
     sentBytes := sentBytes st; promise := promise st |}.

Definition set_closed (st : Send) : Send :=
  {| deviceIp := deviceIp st; s_filePath := s_filePath st; header := header st;
     connected := connected st; socket_closed := true;
     socket_ended := socket_ended st; socket_written := socket_written st;
     responseReceived := responseReceived st;
     responseBuffer := responseBuffer st; reading := reading st;
     sentBytes := sentBytes st; promise := promise st |}.

Definition set_responseBuffer (b : list N) (st : Send) : Send :=
  {| deviceIp := deviceIp st; s_filePath := s_filePath st; header := header st;
     connected := connected st; socket_closed := socket_closed st;
     socket_ended := socket_ended st; socket_written := socket_written st;
     responseReceived := responseReceived st;
     responseBuffer := b; reading := reading st;
     sentBytes := sentBytes st; promise := promise st |}.

Definition set_responseReceived (st : Send) : Send :=
  {| deviceIp := deviceIp st; s_filePath := s_filePath st; header := header st;
     connected := connected st; socket_closed := socket_closed st;
     socket_ended := socket_ended st; socket_written := socket_written st;
     responseReceived := true;
     responseBuffer := responseBuffer st; reading := reading st;
     sentBytes := sentBytes st; promise := promise st |}.

(** The read stream of [streamFile] and its [sentBytes] counter. *)
Definition set_reading (b : bool) (n : Z) (st : Send) : Send :=
  {| deviceIp := deviceIp st; s_filePath := s_filePath st; header := header st;
     connected := connected st; socket_closed := socket_closed st;
     socket_ended := socket_ended st; socket_written := socket_written st;
     responseReceived := responseReceived st;
     responseBuffer := responseBuffer st; reading := b;
     sentBytes := n; promise := promise st |}.

(** [resolve] and [reject]: the first call settles the promise, the
    later ones do nothing. *)
Definition settle (r : Settled) (st : Send) : Send :=
  match promise st with
  | Some _ => st
  | None =>
      {| deviceIp := deviceIp st; s_filePath := s_filePath st;
         header := header st;
         connected := connected st; socket_closed := socket_closed st;
         socket_ended := socket_ended st; socket_written := socket_written st;
         responseReceived := responseReceived st;
         responseBuffer := responseBuffer st; reading := reading st;
         sentBytes := sentBytes st; promise := Some r |}
  end.

(** [responseBuffer.indexOf('\0')] *)
Fixpoint indexOfNul (s : list N) : option nat :=
  match s with
  | [] => None
  | x :: rest =>
      if (x =? 0)%N then Some 0%nat
      else option_map S (indexOfNul rest)
  end.

Definition is_ascii (b : byte) : bool := (Byte.to_N b <? 128)%N.

Section Service.
(** [JSON.stringify] of the header object, as the bytes that
    [socket.write] sends for it. *)
Variable JSON_stringify : TransferInfo -> list byte.
(** [JSON.parse] of the response; [None] when it throws. *)
Variable JSON_parse : list N -> option Response.
(** The UTF-8 decoding of a buffer that has a byte outside ASCII. *)
Variable utf8_decode : list byte -> list N.
Variable path_basename : string -> string.

(** [data.toString()]: an ASCII byte is the code unit of its
    character. *)
Definition toString (data : list byte) : list N :=
  if forallb is_ascii data then Byte.to_N <$> data else utf8_decode data.

(** The executor of the promise.  [stat] is the size that
    [fs.statSync(filePath)] reports, [None] when it throws: the promise
    is then rejected and no socket is made.  [now] is [Date.now()]. *)
Definition sendFile (deviceIp_ filePath_ senderEmail_ : string)
    (stat : option Z) (now : Z) : option Send :=
  match stat with
  | None => None
  | Some size =>
      Some {| deviceIp := deviceIp_; s_filePath := filePath_;
              header := {| transferId := pretty now;
                           fileName := path_basename filePath_;
                           fileSize := size;
                           senderEmail := senderEmail_ |};
              connected := false; socket_closed := false;
              socket_ended := false; socket_written := [];
              responseReceived := false; responseBuffer := [];
              reading := false; sentBytes := 0; promise := None |}
  end.

(** The ['connect'] listener. *)
Definition on_connect (st : Send) : Send :=
  socket_write (JSON_stringify (header st) ++ [x00]) st.

(** The ['data'] listener, from the decoded segment on.  [JSON.parse]
    throws, or the listener sets [responseReceived] and reads
    [response.accepted], which throws for [null]; both end in the
    [catch] clause. *)
Definition on_text (st : Send) (text : list N) : Send * list Event :=
  if responseReceived st then (st, [])
  else
    let st := set_responseBuffer (responseBuffer st ++ text) st in
    match indexOfNul (responseBuffer st) with
    | None => (st, [])
    | Some nullIndex =>
        let responseStr := take nullIndex (responseBuffer st) in
        match JSON_parse responseStr with
        | None => (settle rejected st, [])
        | Some response =>
            let st := set_responseReceived st in
            let id := transferId (header st) in
            let name := fileName (header st) in
            match response with
            | JsonNull => (settle rejected st, [])
            | JsonValue true =>
                (set_reading true 0 st, [transferAccepted id name])
            | JsonValue false =>
                (settle (resolved false id) (socket_end st),
                 [transferRejected id name])
            end
        end
    end.

(** The ['data'] listener. *)
Definition on_data (st : Send) (data : list byte) : Send * list Event :=
  on_text st (toString data).

(** The ['error'] and ['close'] listeners. *)
Definition on_error (st : Send) : Send := settle rejected st.

Definition on_close (st : Send) : Send :=
  if responseReceived st
  then settle (resolved true (transferId (header st))) st
  else st.

(** The listeners of the read stream that [streamFile] opens. *)
Definition file_on_data (st : Send) (chunk : list byte) : Send * list Event :=
  let st := socket_write chunk st in
  let st := set_reading (reading st) (sentBytes st + Zlength_bytes chunk) st in
  (st, [emit (emitProgress (transferId (header st)) (sentBytes st)
                (fileSize (header st)) "sending")]).

Definition file_on_end (st : Send) : Send * list Event :=
  (socket_end (set_reading false (sentBytes st) st),
   [emit (sendComplete (transferId (header st)) (s_filePath st))]).

Definition file_on_error (st : Send) : Send :=
  socket_end (set_reading false (sentBytes st) st).

(** What the event loop delivers to one [sendFile]: the socket connects
    at most once, delivers data between ['connect'] and ['close'] and
    closes once; the read stream delivers its events between
    [streamFile] and its own end. *)
Inductive Input : Type :=
| OnConnect
| OnData (data : list byte)
| OnError
| OnClose
| FileData (chunk : list byte)
| FileEnd
| FileError.

Definition step (st : Send) (i : Input) : Send * list Event :=
  match i with
  | OnConnect =>
      if connected st || socket_closed st then (st, [])
      else (on_connect (set_connected st), [])
  | OnData data =>
      if connected st && negb (socket_closed st) then on_data st data
      else (st, [])
  | OnError => if socket_closed st then (st, []) else (on_error st, [])
  | OnClose =>
      if socket_closed st then (st, []) else (on_close (set_closed st), [])
  | FileData chunk => if reading st then file_on_data st chunk else (st, [])
  | FileEnd => if reading st then file_on_end st else (st, [])
  | FileError => if reading st then (file_on_error st, []) else (st, [])
  end.

Fixpoint run (st : Send) (inputs : list Input) : Send * list Event :=
  match inputs with
  | [] => (st, [])
  | i :: rest =>
      let '(st1, ev1) := step st i in
      let '(st2, ev2) := run st1 rest in
      (st2, ev1 ++ ev2)
  end.
End Service.

(** A call that waits for the response: connected, nothing of the
    response's delimiter seen yet. *)
Definition awaiting_response (st : Send) : Prop :=
  connected st = true /\ socket_closed st = false
  /\ responseReceived st = false /\ indexOfNul (responseBuffer st) = None.

(** What holds of a call until a response is read as an acceptance:
    no read stream, nothing written but the header, the promise not
    resolved with [accepted: true], and settled once a response was read. *)
Definition before_accept (JSON_stringify : TransferInfo -> list byte)
    (st : Send) : Prop :=
  reading st = false
  /\ socket_written st
     = (if connected st then JSON_stringify (header st) ++ [x00] else [])
  /\ (forall id, promise st <> Some (resolved true id))
  /\ (responseReceived st = true -> promise st <> None).

(** A call whose response could not be read: [JSON.parse] threw, or
    returned [null]. *)
Definition malformed (JSON_parse : list N -> option Response) (st : Send)
  : Prop :=
  connected st = true /\ reading st = false /\ promise st <> None
  /\ (responseReceived st = true
      \/ exists i, indexOfNul (responseBuffer st) = Some i
                   /\ JSON_parse (take i (responseBuffer st)) = None).

(** A state without the content of [responseBuffer], which depends on
    how the response was cut into segments. *)
Definition forget_buffer (st : Send) : Send := set_responseBuffer [] st.

(** The text of the response that the receiving side writes, without
    its delimiter. *)
Definition response_text (accepted : bool) : list N :=
  Byte.to_N <$> take (length (ack accepted) - 1) (ack accepted).

(** Sample data for the concrete runs. *)
Definition sample_stringify (info : TransferInfo) : list byte :=
  if String.eqb (fileName info) "f.bin" then [x68] else [x69].

Definition sample_parse_response (text : list N) : option Response :=
  if bool_decide (text = response_text true) then Some (JsonValue true)
  else if bool_decide (text = response_text false) then Some (JsonValue false)
  else if bool_decide (text = [110; 117; 108; 108]%N) then Some JsonNull
  else None.

(** A decoder for the sample runs, whose segments are ASCII. *)
Definition sample_decode (data : list byte) : list N := [].

Definition sample_basename (p : string) : string :=
  if String.eqb p "/home/a/f.bin" then "f.bin" else p.

(** [sendFile("10.0.0.5", "/home/a/f.bin", "a@x")] at time 7, of a file
    of four bytes. *)
Definition sample_started : Send :=
  {| deviceIp := "10.0.0.5"; s_filePath := "/home/a/f.bin";
     header := {| transferId := "7"; fileName := "f.bin"; fileSize := 4;
                  senderEmail := "a@x" |};
     connected := false; socket_closed := false; socket_ended := false;
     socket_written := []; responseReceived := false; responseBuffer := [];
     reading := false; sentBytes := 0; promise := None |}.

(** What the receiving side parses from the bytes of [sample_stringify]. *)
Definition sample_parse_header (text : list byte) : option TransferInfo :=
  match text with
  | [x68] => Some (header sample_started)
  | _ => None
  end.

Definition sample_waiting : Send :=
  (run sample_stringify sample_parse_response sample_decode sample_started
       [OnConnect]).1.

Definition sample_sending : Send :=
  (run sample_stringify sample_parse_response sample_decode sample_waiting
       [OnData (ack true)]).1.

End Sender.

(** ** States and inputs of the receiving side *)

Module TransferStates.
Import Transfer.

(** A socket that nothing was written to has no transfer listeners. *)
Definition unanswered (self : FileTransfer) : Prop :=
  forall s c, sockets self !! s = Some c -> written c = [] -> receiver c = None.

(** The events of the socket [s]. *)
Definition of_socket (s : nat) (i : Input) : Prop :=
  match i with
  | OnData s' _ | OnClose s' => s' = s
  | _ => False
  end.

(** Any input but a call of [acceptTransfer]. *)
Definition not_accept (i : Input) : Prop :=
  match i with
  | CallAccept _ => False
  | _ => True
  end.

(** The running totals that reach the declared size. *)
Definition reached (total received : Z) (chunks : list (list byte)) : bool :=
  existsb (fun b => total <=? b) (cumulative received chunks).

End TransferStates.

(** ** States and inputs of the discovery service *)

Module DiscoveryStates.
Import Discovery.

(** Any input but a call of [stop]. *)
Definition not_stop (i : Input) : Prop :=
  match i with
  | CallStop => False
  | _ => True
  end.

(** The [deviceFound] and the [deviceLost] events of a device. *)
Definition is_found (d : string) (o : Output) : bool :=
  match o with
  | deviceFound info => String.eqb (deviceId info) d
  | _ => false
  end.

Definition is_lost (d : string) (o : Output) : bool :=
  match o with
  | deviceLost info => String.eqb (deviceId info) d
  | _ => false
  end.

Definition count (f : Output -> bool) (out : list Output) : nat :=
  length (List.filter f out).

End DiscoveryStates.

(** ** store.js *)

Module Store.

(** A value of the settings object. *)
Inductive Setting : Type :=
| SBool (b : bool)
| SString (s : string).

(** The content of the store, one field per key; [None] is [null].
    [loggedIn] is the key [isLoggedIn]. *)
Record Data : Type := {
  deviceId : option string;
  email : option string;
  firstName : option string;
  lastName : option string;
  deviceName : option string;
  loggedIn : bool;
  receivePath : option string;
  settings : option (gmap string Setting)
}.

(** The settings that the store starts with and that [getSettings]
    falls back to; [downloads] is
    [path.join(os.homedir(), 'Downloads')]. *)
Definition default_settings (downloads : string) : gmap string Setting :=
  <["soundEffects" := SBool true]>
    (<["notifications" := SBool true]>
       (<["autoAccept" := SString "my-devices"]>
          (<["downloadLocation" := SString downloads]>
             (<["speedDiagnostics" := SBool false]>
                (<["searchableByName" := SBool true]> ∅))))).

Definition defaults (downloads : string) : Data :=
  {| deviceId := None; email := None; firstName := None; lastName := None;
     deviceName := None; loggedIn := false; receivePath := None;
     settings := Some (default_settings downloads) |}.

Definition set_deviceId (v : option string) (s : Data) : Data :=
  {| deviceId := v; email := email s; firstName := firstName s;
     lastName := lastName s; deviceName := deviceName s;
     loggedIn := loggedIn s; receivePath := receivePath s;
     settings := settings s |}.

Definition set_email (v : option string) (s : Data) : Data :=
  {| deviceId := deviceId s; email := v; firstName := firstName s;
     lastName := lastName s; deviceName := deviceName s;
     loggedIn := loggedIn s; receivePath := receivePath s;
     settings := settings s |}.

Definition set_firstName (v : option string) (s : Data) : Data :=
  {| deviceId := deviceId s; email := email s; firstName := v;
     lastName := lastName s; deviceName := deviceName s;
     loggedIn := loggedIn s; receivePath := receivePath s;
     settings := settings s |}.

Definition set_lastName (v : option string) (s : Data) : Data :=
  {| deviceId := deviceId s; email := email s; firstName := firstName s;
     lastName := v; deviceName := deviceName s;
     loggedIn := loggedIn s; receivePath := receivePath s;
     settings := settings s |}.

Definition set_deviceName (v : option string) (s : Data) : Data :=
  {| deviceId := deviceId s; email := email s; firstName := firstName s;
     lastName := lastName s; deviceName := v;
     loggedIn := loggedIn s; receivePath := receivePath s;
     settings := settings s |}.

Definition set_loggedIn (v : bool) (s : Data) : Data :=
  {| deviceId := deviceId s; email := email s; firstName := firstName s;
     lastName := lastName s; deviceName := deviceName s;
     loggedIn := v; receivePath := receivePath s;
     settings := settings s |}.

Definition set_settings (v : option (gmap string Setting)) (s : Data) : Data :=
  {| deviceId := deviceId s; email := email s; firstName := firstName s;
     lastName := lastName s; deviceName := deviceName s;
     loggedIn := loggedIn s; receivePath := receivePath s;
     settings := v |}.

(** JS truthiness of a string-or-null value. *)
Definition truthy (v : option string) : bool :=
  match v with
  | None => false
  | Some s => negb (String.eqb s EmptyString)
  end.

(** [uuid] is what [uuidv4()] returns and [hostname] what
    [os.hostname()] returns, if they are called. *)
Definition initializeDevice (uuid hostname : string) (s : Data)
  : Data * option string :=
  let s := if truthy (deviceId s) then s else set_deviceId (Some uuid) s in
  let s := if truthy (deviceName s) then s
           else set_deviceName (Some hostname) s in
  (s, deviceId s).

Definition saveProfile (email_ firstName_ lastName_ : option string)
    (s : Data) : Data :=
  set_loggedIn true
    (set_lastName lastName_ (set_firstName firstName_ (set_email email_ s))).

Record Profile : Type := {
  p_deviceId : option string;
  p_deviceName : option string;
  p_email : option string;
  p_firstName : option string;
  p_lastName : option string;
  p_isLoggedIn : bool
}.

Definition getProfile (s : Data) : Profile :=
  {| p_deviceId := deviceId s; p_deviceName := deviceName s;
     p_email := email s; p_firstName := firstName s;
     p_lastName := lastName s; p_isLoggedIn := loggedIn s |}.

Definition setEmail (email_ : option string) (s : Data) : Data :=
  set_email email_ s.

Definition setName (firstName_ lastName_ : option string) (s : Data) : Data :=
  set_loggedIn true (set_lastName lastName_ (set_firstName firstName_ s)).

Definition isLoggedIn (s : Data) : bool := loggedIn s.

Definition hasName (s : Data) : bool :=
  match firstName s with
  | None => false
  | Some name => negb (String.eqb name EmptyString)
  end.

Definition logout (s : Data) : Data :=
  set_loggedIn false
    (set_lastName None (set_firstName None (set_email None s))).

Definition getDeviceId (s : Data) : option string := deviceId s.
Definition getDeviceName (s : Data) : option string := deviceName s.
Definition setDeviceName (name : option string) (s : Data) : Data :=
  set_deviceName name s.
Definition getEmail (s : Data) : option string := email s.

Definition hasNameForEmail (email_ : option string) (s : Data) : bool :=
  bool_decide (email s = email_) && truthy (firstName s).

(** [o[key] = value] for a boolean or a string [value]: [key] becomes
    an own property of [o] or, if it is one, takes the value.  Only
    [__proto__], where it is no own property, names the accessor of
    [Object.prototype], whose setter ignores such a value. *)
Definition assign (key : string) (value : Setting)
    (o : gmap string Setting) : gmap string Setting :=
  match o !! key with
  | Some _ => <[key := value]> o
  | None => if String.eqb key "__proto__" then o else <[key := value]> o
  end.

Section Settings.
Variable downloads : string.

Definition getSettings (s : Data) : gmap string Setting :=
  match settings s with
  | Some o => o
  | None => default_settings downloads
  end.

Definition setSetting (key : string) (value : Setting) (s : Data) : Data :=
  set_settings (Some (assign key value (getSettings s))) s.
End Settings.

End Store.

(** ** main.js: the start page and the handler of [transfer:send-file] *)

Module Main.
Import Discovery Transfer.

(** How the handler ends before it awaits [sendFile]: with one of its
    two error results, or with the address it passes to [sendFile]. *)
Inductive SendFileResult : Type :=
| services_not_running
| device_not_found
| connect_to (ip : string).

(** [discovery] and [fileTransfer] are the two module variables,
    [None] when [null]. *)
Definition transfer_send_file (discovery : option DeviceDiscovery)
    (fileTransfer : option FileTransfer) (deviceId : string)
  : SendFileResult :=
  match discovery, fileTransfer with
  | Some d, Some _ =>
      match findDeviceById d deviceId with
      | None => device_not_found
      | Some device => connect_to (ip device)
      end
  | _, _ => services_not_running
  end.

(** [createWindow]: the page the window opens on. *)
Definition startPage (profile : Store.Profile) : string :=
  if Store.p_isLoggedIn profile && Store.truthy (Store.p_firstName profile)
  then "home.html" else "login.html".

End Main.

(** * Properties *)

(** ** Rounding and the percentage *)

Module JsNumberFacts.
Import JsNumber.
Local Open Scope Q_scope.

Lemma two_pow_pos (e : Z) : 0 < 2 ^ e.
Proof. apply Qpower_0_lt. reflexivity. Qed.

Lemma two_pow_add (a b : Z) : 2 ^ (a + b) == 2 ^ a * 2 ^ b.
Proof. apply Qpower_plus. discriminate. Qed.

Lemma two_pow_le (a b : Z) : (a <= b)%Z -> 2 ^ a <= 2 ^ b.
Proof. intros H. apply Qpower_le_compat_l; [exact H | discriminate]. Qed.

Lemma two_pow_lt_inv (a b : Z) : 2 ^ a < 2 ^ b -> (a < b)%Z.
Proof. intros H. apply (Qpower_lt_compat_l_inv 2); [exact H | reflexivity]. Qed.

Lemma two_pow_inject (n : Z) : (0 <= n)%Z -> inject_Z (2 ^ n) == 2 ^ n.
Proof. intros H. apply (Zpower_Qpower 2 n H). Qed.

(** *** Rounding to an integer *)

Lemma rne_floor (s : Q) : (Qfloor s <= rne s <= Qfloor s + 1)%Z.
Proof.
  unfold rne. destruct (Qcompare _ _); [destruct (Z.even _) | |]; lia.
Qed.

Lemma rne_inject (n : Z) : rne (inject_Z n) = n.
Proof.
  unfold rne. rewrite Qfloor_Z.
  assert (E : inject_Z n - inject_Z n == 0) by ring.
  rewrite E. reflexivity.
Qed.

Lemma rne_mono (x y : Q) : x <= y -> (rne x <= rne y)%Z.
Proof.
  intros Hxy.
  pose proof (Qfloor_resp_le _ _ Hxy) as Hf.
  pose proof (rne_floor x) as Hx. pose proof (rne_floor y) as Hy.
  destruct (Z.eq_dec (Qfloor x) (Qfloor y)) as [E | NE]; [| lia].
  unfold rne in *. rewrite E in *.
  set (f := Qfloor y) in *.
  assert (Hd : x - inject_Z f <= y - inject_Z f).
  { apply Qplus_le_l with (z := inject_Z f). ring_simplify. exact Hxy. }
  destruct (Qcompare (x - inject_Z f) (1 # 2)) eqn:Cx;
    destruct (Qcompare (y - inject_Z f) (1 # 2)) eqn:Cy;
    [ destruct (Z.even f); lia | | destruct (Z.even f); lia
    | lia | lia | lia | | | lia ]; exfalso.
  - apply Qeq_alt in Cx. apply Qlt_alt in Cy.
    rewrite Cx in Hd. exact (Qlt_not_le _ _ Cy Hd).
  - apply Qgt_alt in Cx. apply Qeq_alt in Cy.
    rewrite Cy in Hd. exact (Qlt_not_le _ _ Cx Hd).
  - apply Qgt_alt in Cx. apply Qlt_alt in Cy.
    apply (Qlt_irrefl (1 # 2)).
    eapply Qlt_trans; [exact Cx |]. eapply Qle_lt_trans; [exact Hd | exact Cy].
Qed.

(** *** The binade of a positive rational *)

Lemma Q_as_quotient (q : Q) : q * inject_Z (Zpos (Qden q)) == inject_Z (Qnum q).
Proof.
  destruct q as [n d]. unfold Qeq, Qmult, inject_Z. simpl. lia.
Qed.

Lemma Qnum_pos (q : Q) : 0 < q -> (0 < Qnum q)%Z.
Proof. destruct q as [n d]. unfold Qlt. simpl. lia. Qed.

Lemma binade_coarse (q : Q) :
  0 < q ->
  let e0 := (Z.log2 (Qnum q) - Z.log2 (Zpos (Qden q)))%Z in
  2 ^ (e0 - 1) <= q /\ q < 2 ^ (e0 + 1).
Proof.
  intros Hq e0.
  pose proof (Qnum_pos q Hq) as Hn.
  pose proof (Z.log2_spec (Qnum q) Hn) as [Hn1 Hn2].
  pose proof (Z.log2_spec (Zpos (Qden q)) (Pos2Z.is_pos _)) as [Hd1 Hd2].
  pose proof (Z.log2_nonneg (Qnum q)) as Lnn.
  pose proof (Z.log2_nonneg (Zpos (Qden q))) as Ldn.
  set (ln := Z.log2 (Qnum q)) in *. set (ld := Z.log2 (Zpos (Qden q))) in *.
  pose proof (Q_as_quotient q) as Hquot.
  split.
  - apply (Qmult_le_r _ _ (2 ^ (ld + 1))); [apply two_pow_pos |].
    rewrite <- two_pow_add.
    replace (e0 - 1 + (ld + 1))%Z with ln by (unfold e0; lia).
    rewrite <- (two_pow_inject ln Lnn).
    apply Qle_trans with (inject_Z (Qnum q)).
    + rewrite <- Zle_Qle. exact Hn1.
    + rewrite <- Hquot. apply Qmult_le_l; [exact Hq |].
      rewrite <- (two_pow_inject (ld + 1)) by lia.
      rewrite <- Zle_Qle. unfold Z.succ in Hd2. lia.
  - apply (Qmult_lt_r _ _ (2 ^ ld)); [apply two_pow_pos |].
    rewrite <- two_pow_add.
    replace (e0 + 1 + ld)%Z with (ln + 1)%Z by (unfold e0; lia).
    rewrite <- (two_pow_inject (ln + 1)) by lia.
    apply Qle_lt_trans with (inject_Z (Qnum q)).
    + rewrite <- Hquot. apply Qmult_le_l; [exact Hq |].
      rewrite <- (two_pow_inject ld Ldn).
      rewrite <- Zle_Qle. exact Hd1.
    + rewrite <- Zlt_Qlt. exact Hn2.
Qed.

Lemma ilog2_spec (q : Q) :
  0 < q -> 2 ^ ilog2 q <= q /\ q < 2 ^ (ilog2 q + 1).
Proof.
  intros Hq. destruct (binade_coarse q Hq) as [Hlo Hhi].
  unfold ilog2.
  set (e0 := (Z.log2 (Qnum q) - Z.log2 (Zpos (Qden q)))%Z) in *.
  destruct (Qle_bool (2 ^ e0) q) eqn:T.
  - split; [apply Qle_bool_iff; exact T | exact Hhi].
  - split; [exact Hlo |].
    replace (e0 - 1 + 1)%Z with e0 by lia.
    apply Qnot_le_lt. intros C. apply Qle_bool_iff in C. congruence.
Qed.

Lemma ilog2_mono (x y : Q) : 0 < x -> x <= y -> (ilog2 x <= ilog2 y)%Z.
Proof.
  intros Hx Hxy.
  assert (Hy : 0 < y) by (eapply Qlt_le_trans; eassumption).
  destruct (ilog2_spec x Hx) as [Lx _]. destruct (ilog2_spec y Hy) as [_ Uy].
  assert (H : 2 ^ ilog2 x < 2 ^ (ilog2 y + 1)).
  { eapply Qle_lt_trans; [exact Lx |]. eapply Qle_lt_trans; eassumption. }
  apply two_pow_lt_inv in H. lia.
Qed.

(** *** Rounding to binary64 is monotone *)

Lemma round_pos_lower (q : Q) : 0 < q -> 2 ^ ilog2 q <= round_pos q.
Proof.
  intros Hq. destruct (ilog2_spec q Hq) as [Lo _].
  unfold round_pos. set (e := ilog2 q) in *.
  assert (E : 2 ^ e == inject_Z (2 ^ 52) * 2 ^ (e - 52)).
  { rewrite (two_pow_inject 52) by lia. rewrite <- two_pow_add.
    replace (52 + (e - 52))%Z with e by lia. reflexivity. }
  rewrite E. apply Qmult_le_r; [apply two_pow_pos |].
  rewrite <- Zle_Qle. rewrite <- (rne_inject (2 ^ 52)) at 1.
  apply rne_mono. rewrite (two_pow_inject 52) by lia.
  apply (Qmult_le_r _ _ (2 ^ (e - 52))); [apply two_pow_pos |].
  rewrite <- Qmult_assoc, <- !two_pow_add.
  replace (52 + (e - 52))%Z with e by lia.
  replace (52 - e + (e - 52))%Z with 0%Z by lia.
  simpl (2 ^ 0). rewrite Qmult_1_r. exact Lo.
Qed.

Lemma round_pos_upper (q : Q) : 0 < q -> round_pos q <= 2 ^ (ilog2 q + 1).
Proof.
  intros Hq. destruct (ilog2_spec q Hq) as [_ Hi].
  unfold round_pos. set (e := ilog2 q) in *.
  assert (E : 2 ^ (e + 1) == inject_Z (2 ^ 53) * 2 ^ (e - 52)).
  { rewrite (two_pow_inject 53) by lia. rewrite <- two_pow_add.
    replace (53 + (e - 52))%Z with (e + 1)%Z by lia. reflexivity. }
  rewrite E. apply Qmult_le_r; [apply two_pow_pos |].
  rewrite <- Zle_Qle. rewrite <- (rne_inject (2 ^ 53)).
  apply rne_mono. rewrite (two_pow_inject 53) by lia.
  apply (Qmult_le_r _ _ (2 ^ (e - 52))); [apply two_pow_pos |].
  rewrite <- Qmult_assoc, <- !two_pow_add.
  replace (53 + (e - 52))%Z with (e + 1)%Z by lia.
  replace (52 - e + (e - 52))%Z with 0%Z by lia.
  simpl (2 ^ 0). rewrite Qmult_1_r. apply Qlt_le_weak. exact Hi.
Qed.

Lemma round_pos_mono (x y : Q) : 0 < x -> x <= y -> round_pos x <= round_pos y.
Proof.
  intros Hx Hxy.
  assert (Hy : 0 < y) by (eapply Qlt_le_trans; eassumption).
  pose proof (ilog2_mono x y Hx Hxy) as He.
  destruct (Z.eq_dec (ilog2 x) (ilog2 y)) as [E | NE].
  - unfold round_pos. rewrite E.
    apply Qmult_le_r; [apply two_pow_pos |].
    rewrite <- Zle_Qle. apply rne_mono.
    apply Qmult_le_r; [apply two_pow_pos | exact Hxy].
  - apply Qle_trans with (2 ^ (ilog2 x + 1)); [apply round_pos_upper; exact Hx |].
    apply Qle_trans with (2 ^ ilog2 y); [| apply round_pos_lower; exact Hy].
    apply two_pow_le. lia.
Qed.

Lemma round_pos_pos (q : Q) : 0 < q -> 0 < round_pos q.
Proof.
  intros Hq. eapply Qlt_le_trans; [apply (two_pow_pos (ilog2 q)) |].
  apply round_pos_lower. exact Hq.
Qed.

Lemma round64_nonneg (q : Q) : 0 <= q -> 0 <= round64 q.
Proof.
  intros Hq. unfold round64. destruct (Qcompare q 0) eqn:C.
  - apply Qle_refl.
  - apply Qlt_alt in C. exfalso. exact (Qlt_not_le _ _ C Hq).
  - apply Qgt_alt in C. apply Qlt_le_weak, round_pos_pos. exact C.
Qed.

Lemma round64_mono (x y : Q) : 0 <= x -> x <= y -> round64 x <= round64 y.
Proof.
  intros Hx Hxy.
  assert (Hy : 0 <= y) by (eapply Qle_trans; eassumption).
  unfold round64 at 1. destruct (Qcompare x 0) eqn:Cx.
  - apply round64_nonneg. exact Hy.
  - apply Qlt_alt in Cx. exfalso. exact (Qlt_not_le _ _ Cx Hx).
  - apply Qgt_alt in Cx.
    assert (Hy' : 0 < y) by (eapply Qlt_le_trans; eassumption).
    unfold round64. apply Qgt_alt in Hy'. rewrite Hy'.
    apply round_pos_mono; assumption.
Qed.

Lemma round64_one : round64 1 == 1.
Proof. vm_compute. reflexivity. Qed.

Lemma round64_hundred : round64 100 == 100.
Proof. vm_compute. reflexivity. Qed.

(** The model on values whose binary64 results are known: 0.07 * 100 is
    7.000000000000001, 0.57 * 100 is 56.99999999999999, and
    29 / 200 * 100 falls below 14.5, so that its rounding is 14 where
    exact arithmetic gives 15. *)
Example binary64_7_percent :
  mul (div 7 100) 100 = Num (7881299347898369 # 1125899906842624).
Proof. vm_compute. reflexivity. Qed.

Example binary64_57_percent :
  mul (div 57 100) 100 = Num (8022036836253695 # 140737488355328).
Proof. vm_compute. reflexivity. Qed.

Example binary64_ties_to_even :
  round64 (inject_Z (2 ^ 53 + 1)) == inject_Z (2 ^ 53)
  /\ round64 (inject_Z (2 ^ 53 + 3)) == inject_Z (2 ^ 53 + 4).
Proof. split; vm_compute; reflexivity. Qed.

Example Math_round_29_of_200 : Math_round (mul (div 29 200) 100) = Num 14.
Proof. vm_compute. reflexivity. Qed.

(** *** The percentage of [emitProgress] *)

Lemma inject_Z_pos (z : Z) : (0 < z)%Z -> 0 < inject_Z z.
Proof. intros H. rewrite (Zlt_Qlt 0 z) in H. exact H. Qed.

Lemma ratio_mono (a b t : Z) :
  (0 < t)%Z -> (a <= b)%Z -> inject_Z a / inject_Z t <= inject_Z b / inject_Z t.
Proof.
  intros Ht Hab. unfold Qdiv. apply Qmult_le_compat_r.
  - rewrite <- Zle_Qle. exact Hab.
  - apply Qinv_le_0_compat, Qlt_le_weak, inject_Z_pos, Ht.
Qed.

Lemma ratio_nonneg (a t : Z) :
  (0 < t)%Z -> (0 <= a)%Z -> 0 <= inject_Z a / inject_Z t.
Proof.
  intros Ht Ha. unfold Qdiv. apply Qmult_le_0_compat.
  - rewrite (Zle_Qle 0 a) in Ha. exact Ha.
  - apply Qinv_le_0_compat, Qlt_le_weak, inject_Z_pos, Ht.
Qed.

Lemma ratio_le_1 (a t : Z) :
  (0 < t)%Z -> (a <= t)%Z -> inject_Z a / inject_Z t <= 1.
Proof.
  intros Ht Ha. apply Qle_shift_div_r; [apply inject_Z_pos, Ht |].
  rewrite Qmult_1_l, <- Zle_Qle. exact Ha.
Qed.

(** On a positive size the quotient is finite. *)
Lemma div_pos_total (a t : Z) :
  (0 < t)%Z -> div (inject_Z a) (inject_Z t) = Num (round64 (inject_Z a / inject_Z t)).
Proof.
  intros Ht. unfold div.
  pose proof (inject_Z_pos t Ht) as H. apply Qgt_alt in H. rewrite H.
  reflexivity.
Qed.

Lemma Math_round_percent (a t : Z) :
  (0 < t)%Z ->
  Math_round (mul (div (inject_Z a) (inject_Z t)) 100) = Num (inject_Z (percent a t)).
Proof. intros Ht. rewrite div_pos_total by exact Ht. reflexivity. Qed.

Lemma percent_mono (a b t : Z) :
  (0 < t)%Z -> (0 <= a)%Z -> (a <= b)%Z -> (percent a t <= percent b t)%Z.
Proof.
  intros Ht Ha Hab. unfold percent.
  apply Qfloor_resp_le, Qplus_le_l.
  apply round64_mono.
  - apply Qmult_le_0_compat; [| discriminate].
    apply round64_nonneg, ratio_nonneg; assumption.
  - apply Qmult_le_compat_r; [| discriminate].
    apply round64_mono; [apply ratio_nonneg; assumption |].
    apply ratio_mono; assumption.
Qed.

Lemma percent_nonneg (a t : Z) : (0 < t)%Z -> (0 <= a)%Z -> (0 <= percent a t)%Z.
Proof.
  intros Ht Ha. unfold percent.
  change 0%Z with (Qfloor 0). apply Qfloor_resp_le.
  apply Qle_trans with (0 + (1 # 2)); [discriminate |].
  apply Qplus_le_l, round64_nonneg.
  apply Qmult_le_0_compat; [| discriminate].
  apply round64_nonneg, ratio_nonneg; assumption.
Qed.

Lemma percent_le_100 (a t : Z) :
  (0 < t)%Z -> (0 <= a)%Z -> (a <= t)%Z -> (percent a t <= 100)%Z.
Proof.
  intros Ht Ha Hat. unfold percent.
  change 100%Z with (Qfloor (100 + (1 # 2))). apply Qfloor_resp_le.
  apply Qplus_le_l.
  apply Qle_trans with (round64 100);
    [| apply Qle_lteq; right; exact round64_hundred].
  apply round64_mono.
  - apply Qmult_le_0_compat; [| discriminate].
    apply round64_nonneg, ratio_nonneg; assumption.
  - apply Qle_trans with (1 * 100); [| discriminate].
    apply Qmult_le_compat_r; [| discriminate].
    apply Qle_trans with (round64 1);
      [| apply Qle_lteq; right; exact round64_one].
    apply round64_mono; [apply ratio_nonneg; assumption |].
    apply ratio_le_1; assumption.
Qed.

End JsNumberFacts.

(** ** The device table *)

Module JsMapFacts.
Section WithTypes.
Context {K V : Type} `{EqDecision K}.
Implicit Types (m : list (K * V)) (k : K) (v : V).

Lemma get_None k m : JsMap.get k m = None <-> k ∉ JsMap.keys m.
Proof.
  unfold JsMap.keys. induction m as [| [k' v'] m IH]; simpl.
  - split; [intros _; apply not_elem_of_nil | reflexivity].
  - rewrite not_elem_of_cons.
    destruct (decide (k = k')) as [-> | NE]; [split; [discriminate | tauto] |].
    rewrite IH. tauto.
Qed.

Lemma has_true k m : JsMap.has k m = true <-> k ∈ JsMap.keys m.
Proof.
  unfold JsMap.has. pose proof (get_None k m) as H.
  destruct (JsMap.get k m).
  - split; [intros _ | reflexivity].
    destruct (decide (k ∈ JsMap.keys m)) as [I | NI]; [exact I |].
    apply H in NI. discriminate.
  - split; [discriminate |]. intros I. exfalso. apply H; [reflexivity | exact I].
Qed.

Lemma get_set_eq k v m : JsMap.get k (JsMap.set k v m) = Some v.
Proof.
  induction m as [| [k' v'] m IH]; simpl.
  - rewrite decide_True; reflexivity.
  - destruct (decide (k = k')) as [-> | NE]; simpl.
    + rewrite decide_True; reflexivity.
    + rewrite decide_False by exact NE. exact IH.
Qed.

Lemma get_set_ne k k' v m :
  k <> k' -> JsMap.get k' (JsMap.set k v m) = JsMap.get k' m.
Proof.
  intros NE. induction m as [| [k0 v0] m IH]; simpl.
  - rewrite decide_False by congruence. reflexivity.
  - destruct (decide (k = k0)) as [-> | NE0]; simpl.
    + rewrite !decide_False by congruence. reflexivity.
    + destruct (decide (k' = k0)); [reflexivity | exact IH].
Qed.

Lemma keys_set k v m :
  JsMap.keys (JsMap.set k v m)
  = if JsMap.has k m then JsMap.keys m else JsMap.keys m ++ [k].
Proof.
  unfold JsMap.has, JsMap.keys.
  induction m as [| [k' v'] m IH]; csimpl; [reflexivity |].
  destruct (decide (k = k')) as [-> | NE]; csimpl; [reflexivity |].
  rewrite IH. destruct (JsMap.get k m); reflexivity.
Qed.

Lemma wf_set k v m : JsMap.wf m -> JsMap.wf (JsMap.set k v m).
Proof.
  unfold JsMap.wf. intros Hm. rewrite keys_set.
  destruct (JsMap.has k m) eqn:E; [exact Hm |].
  apply NoDup_app. split; [exact Hm |]. split; [| apply NoDup_singleton].
  intros x Hx Hk. apply list_elem_of_singleton in Hk. subst x.
  apply has_true in Hx. congruence.
Qed.

(** Writing a key twice leaves the later value at the place of the key. *)
Lemma set_set k v v' m : JsMap.set k v' (JsMap.set k v m) = JsMap.set k v' m.
Proof.
  induction m as [| [k0 v0] m IH]; simpl.
  - rewrite decide_True; reflexivity.
  - destruct (decide (k = k0)) as [-> | NE]; simpl.
    + rewrite decide_True; reflexivity.
    + rewrite decide_False by exact NE. rewrite IH. reflexivity.
Qed.

Lemma has_set k v m : JsMap.has k (JsMap.set k v m) = true.
Proof. unfold JsMap.has. rewrite get_set_eq. reflexivity. Qed.

(** In a well-formed map the entries of a key are counted by [get]. *)
Lemma entries_of_key k m :
  JsMap.wf m ->
  filter (fun e => e.1 = k) m
  = match JsMap.get k m with Some v => [(k, v)] | None => [] end.
Proof.
  unfold JsMap.wf, JsMap.keys. induction m as [| [k' v'] m IH]; intros Hm.
  - reflexivity.
  - rewrite fmap_cons in Hm. apply NoDup_cons in Hm as [Hk Hm]. simpl in Hk.
    rewrite filter_cons. simpl.
    destruct (decide (k = k')) as [-> | NE].
    + rewrite decide_True by reflexivity. f_equal.
      rewrite IH by exact Hm.
      apply (proj2 (get_None k' m)) in Hk. rewrite Hk. reflexivity.
    + rewrite decide_False by congruence. apply IH, Hm.
Qed.

Lemma get_elem k v m : JsMap.wf m -> (k, v) ∈ m -> JsMap.get k m = Some v.
Proof.
  unfold JsMap.wf, JsMap.keys. induction m as [| [k' v'] m IH]; intros Hm I.
  - apply elem_of_nil in I. destruct I.
  - rewrite fmap_cons in Hm. apply NoDup_cons in Hm as [Hk Hm]. simpl in *.
    apply elem_of_cons in I as [E | I].
    + injection E as -> ->. rewrite decide_True; reflexivity.
    + destruct (decide (k = k')) as [-> | NE]; [| apply IH; assumption].
      exfalso. apply Hk. apply list_elem_of_fmap. exists (k', v).
      split; [reflexivity | exact I].
Qed.

Lemma wf_delete k m : JsMap.wf m -> JsMap.wf (JsMap.delete k m).
Proof.
  unfold JsMap.wf, JsMap.keys, JsMap.delete.
  induction m as [| [k' v'] m IH]; intros Hm; [exact Hm |].
  rewrite fmap_cons in Hm. apply NoDup_cons in Hm as [Hk Hm].
  rewrite filter_cons. simpl. destruct (decide (k' <> k)).
  - rewrite fmap_cons. apply NoDup_cons. split; [| apply IH, Hm].
    simpl in *. intros I. apply Hk.
    apply list_elem_of_fmap in I as [e [-> I]].
    apply list_elem_of_filter in I as [_ I].
    apply list_elem_of_fmap. exists e. split; [reflexivity | exact I].
  - apply IH, Hm.
Qed.

Lemma get_delete_eq k m : JsMap.get k (JsMap.delete k m) = None.
Proof.
  apply get_None. unfold JsMap.keys, JsMap.delete. intros I.
  apply list_elem_of_fmap in I as [e [-> I]].
  apply list_elem_of_filter in I as [NE _]. apply NE. reflexivity.
Qed.

Lemma values_elem v m :
  v ∈ JsMap.values m <-> exists k, (k, v) ∈ m.
Proof.
  unfold JsMap.values. rewrite list_elem_of_fmap. split.
  - intros [[k v'] [-> I]]. exists k. exact I.
  - intros [k I]. exists (k, v). split; [reflexivity | exact I].
Qed.
End WithTypes.
End JsMapFacts.

Module DiscoveryFacts.
Import Discovery.

(** *** The sweep *)

Lemma filter_ext_elem {A} (P Q : A -> Prop)
    `{forall x, Decision (P x)} `{forall x, Decision (Q x)} (l : list A) :
  (forall x, x ∈ l -> (P x <-> Q x)) -> filter P l = filter Q l.
Proof.
  induction l as [| a l IH]; intros E; [reflexivity |].
  rewrite !filter_cons.
  rewrite IH by (intros x Hx; apply E; right; exact Hx).
  destruct (decide (P a)) as [p | np], (decide (Q a)) as [q | nq];
    try reflexivity; exfalso.
  - apply nq, E; [left | exact p].
  - apply np, E; [left | exact q].
Qed.

Lemma filter_all {A} (P : A -> Prop) `{forall x, Decision (P x)} (l : list A) :
  (forall x, x ∈ l -> P x) -> filter P l = l.
Proof.
  induction l as [| a l IH]; intros E; [reflexivity |].
  rewrite filter_cons_True by (apply E; left).
  rewrite IH by (intros x Hx; apply E; right; exact Hx). reflexivity.
Qed.

Lemma wf_filter {V} (P : string * V -> Prop) `{forall x, Decision (P x)}
    (m : list (string * V)) :
  JsMap.wf m -> JsMap.wf (filter P m).
Proof.
  unfold JsMap.wf, JsMap.keys. intros Hm.
  apply (sublist_NoDup _ (m.*1) Hm). apply fmap_sublist, sublist_filter.
Qed.

Lemma cleanup_loop_spec (now : Z) (entries devs : list (string * DeviceInfo))
    (out : list Output) (changed : bool) :
  cleanup_loop now entries (devs, out, changed)
  = (filter (fun e => e.1 ∉ JsMap.keys (stale_entries now entries)) devs,
     out ++ map deviceLost (JsMap.values (stale_entries now entries)),
     changed || bool_decide (stale_entries now entries <> [])).
Proof.
  revert devs out changed.
  induction entries as [| [k info] entries IH]; intros devs out changed.
  - simpl. rewrite app_nil_r, orb_false_r. f_equal. f_equal.
    symmetry. apply filter_all. intros e _. apply not_elem_of_nil.
  - simpl. unfold stale_entries. rewrite filter_cons. simpl.
    destruct (Z.ltb_spec DEVICE_TIMEOUT (now - lastSeen info)) as [S | NS].
    + rewrite decide_True by exact S.
      rewrite IH. unfold JsMap.delete, stale_entries.
      rewrite list_filter_filter. csimpl.
      rewrite <- app_assoc. simpl. rewrite orb_true_r.
      do 2 f_equal.
      apply list_filter_iff. intros e. rewrite not_elem_of_cons. tauto.
    + rewrite decide_False by (unfold stale; lia).
      rewrite IH. reflexivity.
Qed.

Lemma stale_key_iff (now : Z) (m : list (string * DeviceInfo)) e :
  JsMap.wf m -> e ∈ m ->
  (e.1 ∈ JsMap.keys (stale_entries now m) <-> stale now e.2).
Proof.
  intros Hwf He. unfold JsMap.keys, stale_entries. split.
  - intros I. apply list_elem_of_fmap in I as [e' [E I]].
    apply list_elem_of_filter in I as [S I].
    destruct e as [k v], e' as [k' v']. simpl in *. subst k'.
    pose proof (JsMapFacts.get_elem k v m Hwf He) as G.
    rewrite (JsMapFacts.get_elem k v' m Hwf I) in G.
    injection G as <-. exact S.
  - intros S. apply list_elem_of_fmap. exists e. split; [reflexivity |].
    apply list_elem_of_filter. split; assumption.
Qed.

Lemma values_filter (P : DeviceInfo -> Prop)
    (HP : forall x, Decision (P x))
    (HQ : forall e : string * DeviceInfo, Decision (P e.2))
    (m : list (string * DeviceInfo)) :
  JsMap.values (filter (fun e => P e.2) m) = filter P (JsMap.values m).
Proof.
  unfold JsMap.values. induction m as [| [k v] m IH]; [reflexivity |].
  rewrite filter_cons. csimpl. rewrite filter_cons. unfold decide.
  destruct (HQ (k, v)) as [q | nq], (HP v) as [p | np]; csimpl;
    try (rewrite IH; reflexivity); exfalso; [apply np, q | apply nq, p].
Qed.

Lemma cleanupStaleDevices_spec (self : DeviceDiscovery) (now : Z) :
  cleanupStaleDevices self now
  = let lost := stale_entries now (devices self) in
    let self' :=
      set_devices
        (filter (fun e => e.1 ∉ JsMap.keys lost) (devices self)) self in
    (self',
     map deviceLost (JsMap.values lost)
       ++ (if bool_decide (lost <> []) then [devicesUpdated (getDeviceList self')]
           else [])).
Proof.
  unfold cleanupStaleDevices. rewrite cleanup_loop_spec. cbn [orb app].
  destruct (bool_decide _); [reflexivity |]. rewrite app_nil_r. reflexivity.
Qed.

Lemma cleanup_devices (self : DeviceDiscovery) (now : Z) :
  JsMap.wf (devices self) ->
  devices (cleanupStaleDevices self now).1
  = filter (fun e => ~ stale now e.2) (devices self).
Proof.
  intros Hwf. rewrite cleanupStaleDevices_spec. simpl.
  apply filter_ext_elem. intros e He.
  rewrite (stale_key_iff now _ e Hwf He). reflexivity.
Qed.

(** C4. A sweep at time [now] removes from the table exactly the records
    whose [lastSeen] is more than [DEVICE_TIMEOUT] = 10000 ms old and
    keeps the others in place, so every record left satisfies
    [now - lastSeen <= 10000]; it emits one [deviceLost] per removed
    record, in table order, followed by one [devicesUpdated] snapshot of
    the remaining table if and only if some record was removed. *)
Theorem C4_sweep_removes_stale (self : DeviceDiscovery) (now : Z) :
  JsMap.wf (devices self) ->
  let self' := (cleanupStaleDevices self now).1 in
  let out := (cleanupStaleDevices self now).2 in
  let removed := filter (stale now) (getDeviceList self) in
  DEVICE_TIMEOUT = 10000
  /\ getDeviceList self'
     = filter (fun info => ~ stale now info) (getDeviceList self)
  /\ (forall info, info ∈ getDeviceList self' ->
        now - lastSeen info <= DEVICE_TIMEOUT)
  /\ JsMap.wf (devices self')
  /\ out = map deviceLost removed
           ++ (if decide (removed = []) then []
               else [devicesUpdated (getDeviceList self')]).
Proof.
  intros Hwf self' out removed.
  assert (Hdev : devices self'
                 = filter (fun e => ~ stale now e.2) (devices self))
    by (apply cleanup_devices; exact Hwf).
  assert (Hlist : getDeviceList self'
                  = filter (fun info => ~ stale now info) (getDeviceList self)).
  { unfold getDeviceList. rewrite Hdev.
    apply (values_filter (fun info => ~ stale now info)). }
  split; [reflexivity |]. split; [exact Hlist |]. split; [| split].
  - intros info I. rewrite Hlist in I.
    apply list_elem_of_filter in I as [NS _]. unfold stale in NS. lia.
  - rewrite Hdev. apply wf_filter, Hwf.
  - assert (Hrem : JsMap.values (stale_entries now (devices self)) = removed)
      by apply (values_filter (stale now)).
    subst out self'. rewrite cleanupStaleDevices_spec. cbn [fst snd].
    rewrite Hrem. f_equal.
    destruct (decide (removed = [])) as [E | NE].
    + rewrite bool_decide_false; [reflexivity |].
      intros C. apply C. rewrite <- Hrem in E.
      apply fmap_nil_inv in E. exact E.
    + rewrite bool_decide_true; [reflexivity |].
      intros C. apply NE. rewrite <- Hrem, C. reflexivity.
Qed.

(** *** The receive path *)

Section Receive.
Variable JSON_parse : list byte -> option Message.

Lemma handleMessage_discard (self : DeviceDiscovery) (msg : list byte)
    (a : string) (now : Z) :
  (JSON_parse msg = None
   \/ exists data, JSON_parse msg = Some data
        /\ (type data <> "presence"
            \/ Some (msg_deviceId data) = myDeviceId self)) ->
  handleMessage JSON_parse self msg a now = (self, []).
Proof.
  unfold handleMessage. intros [-> | [data [-> [NT | Self]]]]; [reflexivity | |].
  - destruct (String.eqb_spec (type data) "presence"); [contradiction |].
    reflexivity.
  - destruct (String.eqb (type data) "presence"); [| reflexivity]. simpl.
    rewrite bool_decide_true by exact Self. reflexivity.
Qed.

Lemma handleMessage_upsert (self : DeviceDiscovery) (msg : list byte)
    (data : Message) (a : string) (now : Z) :
  JSON_parse msg = Some data ->
  type data = "presence" ->
  Some (msg_deviceId data) <> myDeviceId self ->
  let d := msg_deviceId data in
  let info := deviceInfo_of data a now in
  handleMessage JSON_parse self msg a now
  = (set_devices (JsMap.set d info (devices self)) self,
     (if JsMap.has d (devices self) then [] else [deviceFound info])
       ++ [devicesUpdated (JsMap.values (JsMap.set d info (devices self)))]).
Proof.
  intros P T NS d info. unfold handleMessage. rewrite P, T.
  rewrite String.eqb_refl. simpl.
  rewrite bool_decide_false by exact NS.
  fold d. destruct (JsMap.has d (devices self)); reflexivity.
Qed.

Lemma receive_all_upserts (d : string) dgs datas :
  Forall2 (presence_from JSON_parse d) dgs datas ->
  forall self, Some d <> myDeviceId self ->
  let infos := zip_with (fun dg data => deviceInfo_of data dg.1.2 dg.2)
                        dgs datas in
  receive_all JSON_parse self dgs
  = (set_devices
       (match last infos with
        | Some info => JsMap.set d info (devices self)
        | None => devices self
        end) self,
     (if JsMap.has d (devices self) then []
      else deviceFound <$> take 1 infos)
       ++ ((fun info =>
              devicesUpdated (JsMap.values (JsMap.set d info (devices self))))
             <$> infos)).
Proof.
  induction 1 as [| [[msg a] now] data dgs datas [P [T D]] _ IH];
    intros self NS; cbn zeta.
  - simpl. destruct self; simpl.
    destruct (JsMap.has d _); reflexivity.
  - simpl in P. cbn [receive_all].
    assert (NS0 : Some (msg_deviceId data) <> myDeviceId self)
      by (rewrite D; exact NS).
    rewrite (handleMessage_upsert self msg data a now P T NS0). rewrite D.
    set (info := deviceInfo_of data a now).
    set (self1 := set_devices (JsMap.set d info (devices self)) self).
    rewrite (IH self1 NS). cbn [devices self1 set_devices].
    rewrite JsMapFacts.has_set. cbn [app zip_with fst snd].
    fold info. f_equal.
    + set (rest := zip_with _ dgs datas).
      destruct (last rest) as [l |] eqn:L.
      * rewrite last_cons, L. rewrite JsMapFacts.set_set. reflexivity.
      * rewrite last_cons, L. reflexivity.
    + rewrite <- app_assoc. rewrite fmap_cons. cbn [app].
      f_equal. f_equal. apply list_fmap_ext. intros _ x _.
      rewrite JsMapFacts.set_set. reflexivity.
Qed.
End Receive.

(** C5 (amended). For every sequence of N >= 1 presence messages that
    carry the same deviceId, different from the instance's own, the
    table afterwards holds exactly one entry for that deviceId, with the
    name, email, source address and receive time of the most recent
    message; [deviceFound] is emitted once, for the first message, and
    only if the id was absent from the table before it, and a
    [devicesUpdated] snapshot follows every upsert. *)
Theorem C5_upsert_by_deviceId (JSON_parse : list byte -> option Message)
    (self : DeviceDiscovery) (d : string)
    (dgs : list (list byte * string * Z)) (datas : list Message) :
  JsMap.wf (devices self) ->
  Some d <> myDeviceId self ->
  (0 < length dgs)%nat ->
  Forall2 (presence_from JSON_parse d) dgs datas ->
  let infos := zip_with (fun dg data => deviceInfo_of data dg.1.2 dg.2)
                        dgs datas in
  let r := receive_all JSON_parse self dgs in
  (exists info,
      last infos = Some info
      /\ filter (fun e => e.1 = d) (devices r.1) = [(d, info)])
  /\ r.2 = (if JsMap.has d (devices self) then []
            else deviceFound <$> take 1 infos)
           ++ ((fun info =>
                  devicesUpdated
                    (JsMap.values (JsMap.set d info (devices self))))
                 <$> infos).
Proof.
  intros Hwf NS Hlen HF infos r. subst r.
  rewrite (receive_all_upserts JSON_parse d dgs datas HF self NS).
  fold infos. cbn [fst snd]. split; [| reflexivity].
  assert (Hinf : length infos = length dgs).
  { subst infos. rewrite length_zip_with.
    apply Forall2_length in HF. lia. }
  destruct (last infos) as [info |] eqn:L.
  - exists info. split; [reflexivity |]. cbn [devices set_devices].
    rewrite JsMapFacts.entries_of_key by (apply JsMapFacts.wf_set, Hwf).
    rewrite JsMapFacts.get_set_eq. reflexivity.
  - apply last_None in L. rewrite L in Hinf. simpl in Hinf. lia.
Qed.

(** *** Self-exclusion *)

Lemma elem_of_set (k : string) (v : DeviceInfo) m e :
  e ∈ JsMap.set k v m -> e = (k, v) \/ e ∈ m.
Proof.
  induction m as [| [k' v'] m IH]; simpl.
  - intros I. apply list_elem_of_singleton in I. left. exact I.
  - rewrite elem_of_cons.
    destruct (decide (k = k')) as [-> | NE]; rewrite elem_of_cons; [tauto |].
    intros [E | I]; [tauto |]. destruct (IH I); tauto.
Qed.

Section Invariant.
Variable JSON_parse : list byte -> option Message.

Lemma handleMessage_self_excluded self msg a now :
  self_excluded self ->
  isRunning self = true ->
  self_excluded (handleMessage JSON_parse self msg a now).1.
Proof.
  intros [Hent Hstop] Hrun. unfold handleMessage.
  destruct (JSON_parse msg) as [data |]; [| split; assumption].
  destruct (negb (String.eqb (type data) "presence")); [split; assumption |].
  destruct (bool_decide (Some (msg_deviceId data) = myDeviceId self)) eqn:B;
    [split; assumption |].
  apply bool_decide_eq_false in B. cbn [fst]. split.
  - cbn [devices set_devices myDeviceId]. intros k info I.
    apply elem_of_set in I as [E | I]; [| apply Hent, I].
    injection E as -> ->. split; [reflexivity | exact B].
  - cbn [isRunning set_devices]. congruence.
Qed.

Lemma cleanup_self_excluded self now :
  self_excluded self ->
  isRunning self = true ->
  self_excluded (cleanupStaleDevices self now).1.
Proof.
  intros [Hent Hstop] Hrun. rewrite cleanupStaleDevices_spec. cbn [fst].
  split.
  - cbn [devices set_devices myDeviceId]. intros k info I.
    apply list_elem_of_filter in I as [_ I]. apply Hent, I.
  - cbn [isRunning set_devices]. congruence.
Qed.

Lemma step_self_excluded self i :
  self_excluded self -> self_excluded (step JSON_parse self i).1.
Proof.
  intros Inv. pose proof Inv as [Hent Hstop].
  destruct i; cbn [step fst].
  - unfold start. destruct (isRunning self) eqn:R; [exact Inv |].
    destruct (Hstop eq_refl) as [E _]. split.
    + cbn [devices]. rewrite E. intros k info I.
      apply elem_of_nil in I. destruct I.
    + cbn [isRunning]. discriminate.
  - unfold stop. destruct (isRunning self) eqn:R; cbn [negb]; [| exact Inv].
    split.
    + cbn [devices]. intros k info I. apply elem_of_nil in I. destruct I.
    + cbn [devices socket cleanupInterval]. intros _. repeat split.
  - split; [exact Hent | exact Hstop].
  - split; [exact Hent | exact Hstop].
  - clear Hent Hstop. destruct (socket self); [| exact Inv].
    destruct Inv as [Hent Hstop].
    unfold startBroadcasting. cbn [fst]. split; [exact Hent | exact Hstop].
  - clear Hent Hstop. destruct (socket self) eqn:So; [| exact Inv].
    apply handleMessage_self_excluded; [exact Inv |].
    destruct (isRunning self) eqn:R; [reflexivity |].
    destruct Inv as [_ Hstop].
    destruct (Hstop R) as [_ [C _]]. congruence.
  - destruct (broadcastInterval self); exact Inv.
  - clear Hent Hstop. destruct (cleanupInterval self) eqn:C; [| exact Inv].
    apply cleanup_self_excluded; [exact Inv |].
    destruct (isRunning self) eqn:R; [reflexivity |].
    destruct Inv as [_ Hstop].
    destruct (Hstop R) as [_ [_ C']]. congruence.
Qed.

Lemma run_self_excluded inputs :
  forall self, self_excluded self ->
  self_excluded (run JSON_parse self inputs).1.
Proof.
  induction inputs as [| i inputs IH]; intros self Inv; [exact Inv |].
  cbn [run]. pose proof (step_self_excluded self i Inv) as Inv1.
  destruct (step JSON_parse self i) as [self1 out1]. cbn [fst] in Inv1.
  specialize (IH self1 Inv1).
  destruct (run JSON_parse self1 inputs) as [self2 out2]. exact IH.
Qed.
End Invariant.

Lemma constructor_self_excluded : self_excluded constructor.
Proof.
  split.
  - intros k info I. apply elem_of_nil in I. destruct I.
  - intros _. repeat split.
Qed.

(** C6. A datagram that [JSON.parse] rejects, whose [type] is not
    "presence", or whose deviceId is the instance's own is discarded: the
    state is unchanged and nothing is emitted.  Consequently, whatever
    the host and the network do to an instance, [getDeviceList] never
    holds a record with the instance's own deviceId. *)
Theorem C6_discard_and_self_exclusion
    (JSON_parse : list byte -> option Message) :
  (forall self msg a now,
      (JSON_parse msg = None
       \/ exists data, JSON_parse msg = Some data
            /\ (type data <> "presence"
                \/ Some (msg_deviceId data) = myDeviceId self)) ->
      handleMessage JSON_parse self msg a now = (self, []))
  /\ (forall inputs info,
        let self := (run JSON_parse constructor inputs).1 in
        info ∈ getDeviceList self -> Some (deviceId info) <> myDeviceId self).
Proof.
  split.
  - apply handleMessage_discard.
  - intros inputs info self I.
    destruct (run_self_excluded JSON_parse inputs constructor
                constructor_self_excluded) as [Hent _].
    fold self in Hent. apply JsMapFacts.values_elem in I as [k I].
    destruct (Hent k info I) as [-> NS]. exact NS.
Qed.

(** *** Broadcast *)

Lemma ToInt32_small (z : Z) : - 2 ^ 31 <= z < 2 ^ 31 -> ToInt32 z = z.
Proof.
  intros H. unfold ToInt32. rewrite Z.mod_small by lia. lia.
Qed.

Lemma land_255 (z : Z) : 0 <= Z.land z 255 <= 255.
Proof.
  replace (Z.land z 255) with (z mod 256)
    by (symmetry; apply (Z.land_ones z 8); lia).
  pose proof (Z.mod_pos_bound z 256 ltac:(lia)). lia.
Qed.

Lemma lor_octet (a b : Z) : octet a -> octet b -> octet (Z.lor a b).
Proof.
  unfold octet. intros Ha Hb.
  assert (N : 0 <= Z.lor a b) by (apply Z.lor_nonneg; lia).
  split; [exact N |].
  destruct (Z.eq_dec (Z.lor a b) 0) as [-> | NZ]; [lia |].
  assert (L : Z.log2 (Z.lor a b) < 8).
  { rewrite Z.log2_lor by lia.
    assert (Z.log2 a < 8).
    { destruct (Z.eq_dec a 0) as [-> | ?]; [simpl; lia |].
      apply Z.log2_lt_pow2; lia. }
    assert (Z.log2 b < 8).
    { destruct (Z.eq_dec b 0) as [-> | ?]; [simpl; lia |].
      apply Z.log2_lt_pow2; lia. }
    lia. }
  apply Z.log2_lt_pow2 in L; lia.
Qed.

(** On octets the 32-bit conversions of [|], [&] and [~] are the
    identity. *)
Lemma broadcast_octet (o m : Z) :
  octet o -> octet m ->
  bitor o (bitand (bitnot m) 255) = Z.lor o (Z.land (Z.lnot m) 255)
  /\ octet (Z.lor o (Z.land (Z.lnot m) 255)).
Proof.
  intros Ho Hm. pose proof (land_255 (Z.lnot m)) as Hl.
  pose proof (lor_octet o _ Ho Hl) as Hr.
  split; [| exact Hr]. unfold octet in *.
  assert (Hn : - 2 ^ 31 <= Z.lnot m < 2 ^ 31).
  { pose proof (Z.add_lnot_diag m). clear Hl Hr. lia. }
  unfold bitor, bitand, bitnot.
  rewrite (ToInt32_small m) by lia.
  rewrite (ToInt32_small (Z.lnot m)) by exact Hn.
  rewrite (ToInt32_small (Z.lnot m)) by exact Hn.
  rewrite (ToInt32_small 255) by lia.
  set (a := Z.land (Z.lnot m) 255) in *.
  rewrite (ToInt32_small a) by lia.
  rewrite (ToInt32_small a) by lia.
  rewrite (ToInt32_small o) by lia.
  set (r := Z.lor o a) in *.
  apply ToInt32_small. lia.
Qed.

Lemma broadcast_octets_spec (ip mask : list Z) :
  Forall octet ip -> Forall octet mask ->
  forall i : nat,
  broadcast_octets i ip mask
  = imap (fun j o => Z.lor o (Z.land (Z.lnot (nth (i + j) mask 0)) 255)) ip
  /\ Forall octet (broadcast_octets i ip mask).
Proof.
  intros Hip Hmask. induction Hip as [| o ip Ho Hip IH]; intros i.
  - split; [reflexivity | constructor].
  - assert (Hm : octet (nth i mask 0)).
    { destruct (nth_in_or_default i mask 0) as [I | ->].
      - rewrite Forall_forall in Hmask. apply Hmask, list_elem_of_In, I.
      - unfold octet. lia. }
    destruct (broadcast_octet o _ Ho Hm) as [E R].
    destruct (IH (S i)) as [E' R'].
    cbn [broadcast_octets imap]. rewrite E, E'. split.
    + rewrite Nat.add_0_r. f_equal.
      apply imap_ext. intros j x _. simpl.
      replace (i + S j)%nat with (S (i + j)) by lia. reflexivity.
    + constructor; [exact R |]. rewrite <- E'. exact R'.
Qed.

Lemma getBroadcastAddresses_spec (interfaces : list (string * list Iface)) :
  getBroadcastAddresses interfaces
  = match usable_interfaces interfaces with
    | [] => [[255; 255; 255; 255]]
    | us => map (fun iface => broadcast_octets 0 (address iface) (netmask iface))
                us
    end.
Proof.
  unfold getBroadcastAddresses.
  assert (E : flat_map (fun entry : string * list Iface =>
                flat_map (fun iface =>
                  if usable iface
                  then [broadcast_octets 0 (address iface) (netmask iface)]
                  else []) entry.2) interfaces
              = map (fun iface =>
                       broadcast_octets 0 (address iface) (netmask iface))
                    (usable_interfaces interfaces)).
  { unfold usable_interfaces.
    induction interfaces as [| [name ifs] interfaces IH]; [reflexivity |].
    cbn [flat_map]. rewrite IH. csimpl. rewrite filter_app, map_app.
    f_equal. clear IH. induction ifs as [| iface ifs IH]; [reflexivity |].
    cbn [flat_map]. rewrite IH, filter_cons. unfold usable.
    destruct (internal iface); cbn [negb andb].
    - rewrite decide_False by (intros [? _]; discriminate). reflexivity.
    - destruct (String.eqb_spec (family iface) "IPv4") as [F | NF].
      + rewrite decide_True by (split; [reflexivity | exact F]). reflexivity.
      + rewrite decide_False by (intros [_ ?]; contradiction). reflexivity. }
  rewrite E. destruct (usable_interfaces interfaces); reflexivity.
Qed.

(** C9. A broadcast tick of a service with a socket and a non-empty
    email sends one presence message, to the discovery port, per
    non-internal IPv4 interface, addressed to that interface's broadcast
    address; the address is computed per octet as
    [ip | (~netmask & 255)], which on octets is the bitwise
    [ip | ~netmask] cut to eight bits; with no such interface the single
    destination is 255.255.255.255.  A tick with no email sends
    nothing. *)
Theorem C9_broadcast_tick (self : DeviceDiscovery) (now : Z)
    (interfaces : list (string * list Iface)) :
  Forall (fun iface => Forall octet (address iface)
                       /\ Forall octet (netmask iface))
         (usable_interfaces interfaces) ->
  (truthy (myEmail self) = false -> broadcast self now interfaces = [])
  /\ (forall id name e,
        socket self = true ->
        myDeviceId self = Some id -> myDeviceName self = Some name ->
        myEmail self = Some e -> e <> EmptyString ->
        broadcast self now interfaces
        = map (send {| type := "presence"; msg_deviceId := id;
                       msg_deviceName := name; msg_email := e;
                       timestamp := now |} DISCOVERY_PORT)
            (match usable_interfaces interfaces with
             | [] => [[255; 255; 255; 255]]
             | us =>
                 map (fun iface =>
                        imap (fun j o =>
                                Z.lor o (Z.land (Z.lnot (nth j (netmask iface) 0))
                                                255))
                             (address iface)) us
             end)).
Proof.
  intros Hoct. split.
  - intros E. unfold broadcast. rewrite E, orb_true_r. reflexivity.
  - intros id name e So Hid Hname He Ne. unfold broadcast.
    rewrite So, Hid, Hname, He. cbn [negb orb truthy default].
    destruct (String.eqb_spec e EmptyString) as [-> | _]; [contradiction |].
    cbn [negb]. f_equal. rewrite getBroadcastAddresses_spec.
    destruct (usable_interfaces interfaces) as [| u us]; [reflexivity |].
    apply map_ext_in. intros iface I.
    rewrite Forall_forall in Hoct.
    destruct (Hoct iface (proj2 (list_elem_of_In _ _) I)) as [Ha Hm].
    destruct (broadcast_octets_spec _ _ Ha Hm 0%nat) as [E _]. exact E.
Qed.

(** *** Concrete runs *)

Lemma sample_table_devices :
  devices sample_table
  = [("A1", {| deviceId := "A1"; deviceName := "alpha"; email := "a@x";
               ip := "10.0.0.5"; lastSeen := 1000 |})].
Proof. reflexivity. Qed.

Lemma C4_sweep_witness :
  JsMap.wf (devices sample_table)
  /\ (cleanupStaleDevices sample_table 11001).2
     = [deviceLost {| deviceId := "A1"; deviceName := "alpha"; email := "a@x";
                      ip := "10.0.0.5"; lastSeen := 1000 |};
        devicesUpdated []].
Proof.
  assert (W : JsMap.wf (devices sample_table)).
  { apply NoDup_singleton. }
  split; [exact W |].
  exact (proj2 (proj2 (proj2 (proj2
           (C4_sweep_removes_stale sample_table 11001 W))))).
Defined.

(** C5, as stated, fails for the instance's own deviceId: two presence
    messages that carry the id of the receiving instance leave no entry
    for that id in the table. *)
Lemma C5_own_id_counterexample :
  let dgs := [([x42], "10.0.0.7", 1000); ([x42], "10.0.0.7", 4000)] in
  Forall (fun dg => exists data, sample_parse dg.1.1 = Some data
                      /\ type data = "presence" /\ msg_deviceId data = "B1")
         dgs
  /\ filter (fun e => e.1 = "B1")
            (devices (receive_all sample_parse sample_service dgs).1) = [].
Proof.
  split; [| reflexivity].
  repeat constructor; eexists; repeat split; reflexivity.
Qed.

Lemma C5_upsert_witness :
  let dgs := [([x41], "10.0.0.5", 1000); ([x41; x32], "10.0.0.6", 4000)] in
  filter (fun e => e.1 = "A1")
         (devices (receive_all sample_parse sample_service dgs).1)
  = [("A1", {| deviceId := "A1"; deviceName := "alpha2"; email := "a2@x";
               ip := "10.0.0.6"; lastSeen := 4000 |})].
Proof.
  intros dgs.
  assert (W : JsMap.wf (devices sample_service)) by apply NoDup_nil_2.
  assert (NS : Some "A1" <> myDeviceId sample_service) by discriminate.
  assert (L : (0 < length dgs)%nat) by (simpl; lia).
  assert (F : Forall2 (presence_from sample_parse "A1") dgs
                [{| type := "presence"; msg_deviceId := "A1";
                    msg_deviceName := "alpha"; msg_email := "a@x";
                    timestamp := 1 |};
                 {| type := "presence"; msg_deviceId := "A1";
                    msg_deviceName := "alpha2"; msg_email := "a2@x";
                    timestamp := 2 |}]).
  { repeat constructor. }
  destruct (C5_upsert_by_deviceId sample_parse sample_service "A1" dgs _
              W NS L F) as [[info [Hlast Hent]] _].
  simpl in Hlast. injection Hlast as <-. exact Hent.
Defined.

Lemma C6_discard_witness :
  handleMessage sample_parse sample_service [x43] "10.0.0.9" 5
  = (sample_service, [])
  /\ handleMessage sample_parse sample_service [x42] "10.0.0.7" 5
     = (sample_service, [])
  /\ handleMessage sample_parse sample_service [x00] "10.0.0.7" 5
     = (sample_service, []).
Proof.
  destruct (C6_discard_and_self_exclusion sample_parse) as [D _].
  split; [| split]; apply D.
  - right. eexists. split; [reflexivity |]. left. discriminate.
  - right. eexists. split; [reflexivity |]. right. reflexivity.
  - left. reflexivity.
Defined.

Lemma C9_broadcast_witness :
  broadcast sample_service 77 sample_interfaces
  = [send {| type := "presence"; msg_deviceId := "B1";
             msg_deviceName := "beta"; msg_email := "b@x"; timestamp := 77 |}
          41234 [192; 168; 1; 255]].
Proof.
  assert (H : Forall (fun iface => Forall octet (address iface)
                                   /\ Forall octet (netmask iface))
                     (usable_interfaces sample_interfaces)).
  { repeat constructor; unfold octet; lia. }
  destruct (C9_broadcast_tick sample_service 77 sample_interfaces H) as [_ B].
  apply (B "B1" "beta" "b@x"); [reflexivity .. | discriminate].
Defined.

End DiscoveryFacts.

(** ** The transfer service *)

Module TransferFacts.
Import JsNumber Transfer.

(** *** Sockets, streams and files under the state updates *)

Lemma sockets_on_socket (s : nat) (f : Socket -> Socket) (self : FileTransfer) :
  sockets (on_socket s f self) = alter f s (sockets self).
Proof. reflexivity. Qed.

Lemma lookup_on_socket_eq s f self :
  sockets (on_socket s f self) !! s = f <$> sockets self !! s.
Proof. unfold on_socket. cbn [sockets set_sockets]. apply lookup_alter_eq. Qed.

Lemma lookup_on_socket_ne s s' f self :
  s <> s' -> sockets (on_socket s f self) !! s' = sockets self !! s'.
Proof.
  intros NE. unfold on_socket. cbn [sockets set_sockets].
  apply lookup_alter_ne. exact NE.
Qed.

Lemma fileStream_write_frame h data self :
  sockets (fileStream_write h data self) = sockets self
  /\ streams (fileStream_write h data self) = streams self
  /\ pendingTransfer (fileStream_write h data self) = pendingTransfer self
  /\ activeTransfers (fileStream_write h data self) = activeTransfers self
  /\ receivePath (fileStream_write h data self) = receivePath self.
Proof.
  unfold fileStream_write. destruct (streams self !! h) as [ws |]; [| tauto].
  destruct (writable ws); tauto.
Qed.

Lemma fileStream_write_files h data self ws :
  streams self !! h = Some ws ->
  files (fileStream_write h data self)
  = if writable ws then alter (append data) (ws_path ws) (files self)
    else files self.
Proof.
  intros E. unfold fileStream_write. rewrite E.
  destruct (writable ws); reflexivity.
Qed.

(** *** acceptTransfer and rejectTransfer *)

Section Decision.
Variable path_join : string -> string -> string.

Lemma acceptTransfer_true_iff self id :
  (acceptTransfer path_join self id).2 = Return true <-> awaiting self id.
Proof.
  unfold acceptTransfer, awaiting.
  destruct (pendingTransfer self) as [p |]; cycle 1.
  { split; [destruct (pendingNull self); discriminate
           | intros [p [C _]]; discriminate]. }
  destruct (String.eqb_spec (transferId (p_transferInfo p)) id) as [E | NE];
    cbn [negb].
  - destruct (createWriteStream _ _) as [self1 fs].
    destruct (0 <? Zlength_bytes (p_buffer p)); cbn [snd];
      (split; [intros _; exists p; split; [reflexivity | exact E]
              | reflexivity]).
  - split; [discriminate |]. intros [p' [[= <-] C]]. contradiction.
Qed.

Lemma acceptTransfer_false self id :
  (acceptTransfer path_join self id).2 = Return false ->
  acceptTransfer path_join self id = (self, [], Return false).
Proof.
  unfold acceptTransfer.
  destruct (pendingTransfer self) as [p |];
    [| destruct (pendingNull self); [discriminate | reflexivity]].
  destruct (negb _); [reflexivity |].
  destruct (createWriteStream _ _) as [self1 fs].
  destruct (0 <? Zlength_bytes (p_buffer p)); cbn [snd]; discriminate.
Qed.

Lemma rejectTransfer_true_iff self id :
  (rejectTransfer self id).2 = Return true <-> awaiting self id.
Proof.
  unfold rejectTransfer, awaiting.
  destruct (pendingTransfer self) as [p |]; cycle 1.
  { split; [destruct (pendingNull self); discriminate
           | intros [p [C _]]; discriminate]. }
  destruct (String.eqb_spec (transferId (p_transferInfo p)) id) as [E | NE];
    cbn [negb snd].
  - split; [intros _; exists p; split; [reflexivity | exact E] | reflexivity].
  - split; [discriminate |]. intros [p' [[= <-] C]]. contradiction.
Qed.

Lemma rejectTransfer_false self id :
  (rejectTransfer self id).2 = Return false -> rejectTransfer self id = (self, Return false).
Proof.
  unfold rejectTransfer.
  destruct (pendingTransfer self) as [p |];
    [| destruct (pendingNull self); [discriminate | reflexivity]].
  destruct (negb _); [reflexivity | discriminate].
Qed.

Lemma acceptTransfer_throws self id e :
  (acceptTransfer path_join self id).2 = Throw e ->
  acceptTransfer path_join self id = (self, [], Throw e).
Proof.
  unfold acceptTransfer.
  destruct (pendingTransfer self) as [p |];
    [| destruct (pendingNull self); [intros [= <-]; reflexivity | discriminate]].
  destruct (negb _); [discriminate |].
  destruct (createWriteStream _ _) as [self1 fs].
  destruct (0 <? Zlength_bytes (p_buffer p)); cbn [snd]; discriminate.
Qed.

Lemma rejectTransfer_throws self id e :
  (rejectTransfer self id).2 = Throw e ->
  rejectTransfer self id = (self, Throw e).
Proof.
  unfold rejectTransfer.
  destruct (pendingTransfer self) as [p |];
    [| destruct (pendingNull self); [intros [= <-]; reflexivity | discriminate]].
  destruct (negb _); discriminate.
Qed.

Lemma acceptTransfer_throws_iff self id e :
  (acceptTransfer path_join self id).2 = Throw e
  <-> e = TypeError /\ pendingTransfer self = None /\ pendingNull self <> None.
Proof.
  unfold acceptTransfer.
  destruct (pendingTransfer self) as [p |].
  - split; [| intros (_ & H & _); discriminate].
    destruct (negb _); [discriminate |].
    destruct (createWriteStream _ _) as [self1 fs].
    destruct (0 <? Zlength_bytes (p_buffer p)); cbn [snd]; discriminate.
  - destruct (pendingNull self); cbn [snd].
    + split; [intros [= <-]; repeat split; discriminate
             | intros (-> & _); reflexivity].
    + split; [discriminate | intros (_ & _ & H); contradiction].
Qed.

Lemma rejectTransfer_throws_iff self id e :
  (rejectTransfer self id).2 = Throw e
  <-> e = TypeError /\ pendingTransfer self = None /\ pendingNull self <> None.
Proof.
  unfold rejectTransfer.
  destruct (pendingTransfer self) as [p |].
  - split; [| intros (_ & H & _); discriminate].
    destruct (negb _); discriminate.
  - destruct (pendingNull self); cbn [snd].
    + split; [intros [= <-]; repeat split; discriminate
             | intros (-> & _); reflexivity].
    + split; [discriminate | intros (_ & _ & H); contradiction].
Qed.

Lemma Zlength_bytes_nonneg (b : list byte) : 0 <= Zlength_bytes b.
Proof. unfold Zlength_bytes. lia. Qed.

Lemma acceptTransfer_pending self p :
  pendingTransfer self = Some p ->
  acceptTransfer path_join self (transferId (p_transferInfo p))
  = (accepted path_join self p,
     if 0 <? Zlength_bytes (p_buffer p)
     then [emitProgress (transferId (p_transferInfo p))
             (Zlength_bytes (p_buffer p)) (fileSize (p_transferInfo p))
             "receiving"]
     else [],
     Return true).
Proof.
  intros P. unfold acceptTransfer, accepted. rewrite P.
  rewrite String.eqb_refl. cbn [negb].
  unfold createWriteStream. cbn [fst snd].
  destruct (Z.ltb_spec 0 (Zlength_bytes (p_buffer p))) as [L | L].
  - reflexivity.
  - pose proof (Zlength_bytes_nonneg (p_buffer p)).
    replace (Zlength_bytes (p_buffer p)) with 0 by lia. reflexivity.
Qed.

Lemma rejectTransfer_pending self p :
  pendingTransfer self = Some p ->
  rejectTransfer self (transferId (p_transferInfo p))
  = (set_pendingTransfer None
       (on_socket (p_socket p) socket_end
          (on_socket (p_socket p) (socket_write (ack false)) self)),
     Return true).
Proof.
  intros P. unfold rejectTransfer. rewrite P.
  rewrite String.eqb_refl. reflexivity.
Qed.

Lemma sockets_accepted self p :
  sockets (accepted path_join self p)
  = alter (socket_set_paused false) (p_socket p)
      (alter (set_receiver
                (Some {| r_transferId := transferId (p_transferInfo p);
                         r_transferInfo := p_transferInfo p;
                         r_filePath := path_join (receivePath self)
                                         (fileName (p_transferInfo p));
                         r_fileStream := next_stream self;
                         r_receivedBytes := Zlength_bytes (p_buffer p) |}))
             (p_socket p)
             (alter (socket_write (ack true)) (p_socket p) (sockets self))).
Proof.
  unfold accepted. cbn [sockets set_pendingTransfer on_socket set_sockets].
  destruct (0 <? Zlength_bytes (p_buffer p)).
  - destruct (fileStream_write_frame (next_stream self) (p_buffer p)
      (set_activeTransfers
         (JsMap.set (transferId (p_transferInfo p))
            {| fileStream := next_stream self;
               filePath := path_join (receivePath self)
                             (fileName (p_transferInfo p));
               totalSize := fileSize (p_transferInfo p);
               receivedBytes := 0 |}
            (activeTransfers
               (createWriteStream
                  (path_join (receivePath self) (fileName (p_transferInfo p)))
                  (on_socket (p_socket p) (socket_write (ack true)) self)).1))
         (createWriteStream
            (path_join (receivePath self) (fileName (p_transferInfo p)))
            (on_socket (p_socket p) (socket_write (ack true)) self)).1))
      as [E _].
    rewrite E. reflexivity.
  - reflexivity.
Qed.
End Decision.

(** *** The listeners *)

Section Listeners.
Variable JSON_parse : list byte -> option TransferInfo.
Variable path_join : string -> string -> string.

Lemma incoming_on_data_after_header self s c chunk :
  sockets self !! s = Some c ->
  headerReceived c = true ->
  incoming_on_data JSON_parse self s chunk
  = (on_socket s (set_buffer (buffer c ++ chunk)) self, []).
Proof.
  intros Hc Hh. unfold incoming_on_data. rewrite Hc, Hh. reflexivity.
Qed.

Lemma incoming_on_data_header self s c chunk i info :
  sockets self !! s = Some c ->
  headerReceived c = false ->
  indexOf0 (buffer c ++ chunk) = Some i ->
  JSON_parse (take i (buffer c ++ chunk)) = Some info ->
  let rest := drop (S i) (buffer c ++ chunk) in
  incoming_on_data JSON_parse self s chunk
  = (on_socket s (socket_set_paused true)
       (set_pendingTransfer
          (Some {| p_socket := s; p_transferInfo := info; p_buffer := rest |})
          (on_socket s (set_header info)
             (on_socket s (set_buffer rest)
                (on_socket s (set_buffer (buffer c ++ chunk)) self)))),
     [transferRequest (senderEmail info) (fileName info) (fileSize info)
        (transferId info)]).
Proof.
  intros Hc Hh Hi Hp rest. unfold incoming_on_data.
  rewrite Hc, Hh, Hi, Hp. reflexivity.
Qed.

Lemma step_data_receiving self s r w f chunk :
  receiving self s r w f ->
  let res := step JSON_parse path_join self (OnData s chunk) in
  let received := r_receivedBytes r + Zlength_bytes chunk in
  let total := fileSize (r_transferInfo r) in
  res.2 = emitProgress (r_transferId r) received total "receiving"
            :: (if total <=? received
                then [transferComplete (r_transferId r) (r_filePath r)
                        (fileName (r_transferInfo r))]
                else [])
  /\ receiving res.1 s (bump (Zlength_bytes chunk) r)
       (w && negb (total <=? received))
       (if w then append chunk f else f).
Proof.
  intros [c [Hc [Hp [Hcl [Hh [Hr [Hs Hf]]]]]]] res received total.
  subst res. cbn [step]. unfold flowing. rewrite Hc, Hp, Hcl. cbn [negb andb].
  unfold socket_on_data.
  rewrite (incoming_on_data_after_header self s c chunk Hc Hh).
  set (self1 := on_socket s (set_buffer (buffer c ++ chunk)) self).
  assert (Hc1 : sockets self1 !! s = Some (set_buffer (buffer c ++ chunk) c)).
  { subst self1. rewrite lookup_on_socket_eq, Hc. reflexivity. }
  unfold accept_on_data. rewrite Hc1. cbn [receiver set_buffer]. rewrite Hr.
  cbn [r_fileStream r_transferInfo r_transferId r_filePath r_receivedBytes bump].
  fold received total.
  set (self2 := fileStream_write (r_fileStream r) chunk self1).
  assert (Hs1 : streams self1 !! r_fileStream r
                = Some {| ws_path := r_filePath r; writable := w |})
    by exact Hs.
  destruct (fileStream_write_frame (r_fileStream r) chunk self1)
    as [Fso [Fst _]]. fold self2 in Fso, Fst.
  pose proof (fileStream_write_files (r_fileStream r) chunk self1 _ Hs1)
    as Ffi. fold self2 in Ffi. cbn [writable ws_path] in Ffi.
  set (self3 := on_socket s (set_receiver
                  (Some (bump (Zlength_bytes chunk) r))) self2).
  assert (Hc3 : sockets self3 !! s
                = Some (set_receiver (Some (bump (Zlength_bytes chunk) r))
                          (set_buffer (buffer c ++ chunk) c))).
  { subst self3. rewrite lookup_on_socket_eq, Fso, Hc1. reflexivity. }
  assert (Hf3 : files self3 !! r_filePath r
                = Some (if w then append chunk f else f)).
  { subst self3. cbn [files on_socket set_sockets]. rewrite Ffi.
    destruct w; [| exact Hf].
    rewrite lookup_alter_eq. change (files self1) with (files self).
    rewrite Hf. reflexivity. }
  assert (Hs3 : streams self3 !! r_fileStream r
                = Some {| ws_path := r_filePath r; writable := w |}).
  { subst self3. cbn [streams on_socket set_sockets]. rewrite Fst.
    exact Hs1. }
  destruct (total <=? received) eqn:T; cbn [fst snd negb].
  - split; [reflexivity |]. rewrite andb_false_r.
    eexists. split; [exact Hc3 |].
    cbn [paused closed headerReceived receiver set_receiver set_buffer].
    split; [exact Hp |]. split; [exact Hcl |]. split; [exact Hh |].
    split; [reflexivity |]. split; [| exact Hf3].
    cbn [streams set_activeTransfers fileStream_end set_streams bump
           r_fileStream r_filePath].
    rewrite lookup_alter_eq, Hs3. reflexivity.
  - split; [reflexivity |]. rewrite andb_true_r.
    eexists. split; [exact Hc3 |].
    cbn [paused closed headerReceived receiver set_receiver set_buffer].
    split; [exact Hp |]. split; [exact Hcl |]. split; [exact Hh |].
    split; [reflexivity |]. split; [exact Hs3 | exact Hf3].
Qed.

Lemma run_app self i1 i2 :
  run JSON_parse path_join self (i1 ++ i2)
  = let r1 := run JSON_parse path_join self i1 in
    let r2 := run JSON_parse path_join r1.1 i2 in
    (r2.1, r1.2 ++ r2.2).
Proof.
  revert self. induction i1 as [| i i1 IH]; intros self.
  - simpl. destruct (run _ _ self i2). reflexivity.
  - cbn [app run]. destruct (step _ _ self i) as [self1 ev1].
    rewrite IH. cbn zeta.
    destruct (run _ _ self1 i1) as [self2 ev2]. cbn [fst snd].
    destruct (run _ _ self2 i2) as [self3 ev3]. cbn [fst snd].
    rewrite app_assoc. reflexivity.
Qed.

(** The data phase over a sequence of chunks. *)
Lemma run_data_receiving chunks :
  forall self s r w f,
  receiving self s r w f ->
  let res := run JSON_parse path_join self (map (OnData s) chunks) in
  let total := fileSize (r_transferInfo r) in
  res.2 = receive_events (r_transferId r) (r_filePath r)
            (fileName (r_transferInfo r)) total (r_receivedBytes r) chunks
  /\ exists r' w' f',
       receiving res.1 s r' w' f'
       /\ r_receivedBytes r'
          = r_receivedBytes r + Zlength_bytes (concat chunks)
       /\ r_transferInfo r' = r_transferInfo r
       /\ r_transferId r' = r_transferId r
       /\ r_filePath r' = r_filePath r
       /\ content f'
          = content f ++ written_chunks w total (r_receivedBytes r) chunks.
Proof.
  induction chunks as [| chunk chunks IH]; intros self s r w f Hrec res total.
  - subst res. cbn. split; [reflexivity |].
    exists r, w, f. rewrite app_nil_r. unfold Zlength_bytes. cbn.
    repeat split; [exact Hrec | lia].
  - subst res. cbn [map run].
    destruct (step_data_receiving self s r w f chunk Hrec) as [Ev Hrec1].
    destruct (step JSON_parse path_join self (OnData s chunk))
      as [self1 ev1]. cbn [fst snd] in Ev, Hrec1.
    destruct (IH self1 s _ _ _ Hrec1) as [Ev2 [r' [w' [f' H]]]].
    destruct H as [Hrec2 [Hb [Hi [Hid [Hpa Hco]]]]].
    destruct (run JSON_parse path_join self1 (map (OnData s) chunks))
      as [self2 ev2]. cbn [fst snd] in *.
    split.
    + rewrite Ev, Ev2. cbn [receive_events bump r_transferId r_filePath
                              r_transferInfo r_receivedBytes].
      fold total. destruct (total <=? _); reflexivity.
    + exists r', w', f'. split; [exact Hrec2 |].
      cbn [bump r_receivedBytes r_transferInfo r_transferId r_filePath] in *.
      repeat split; try assumption.
      * rewrite Hb. unfold Zlength_bytes. cbn [concat].
        rewrite length_app. lia.
      * rewrite Hco. cbn [written_chunks]. fold total.
        destruct w; cbn [content append andb]; rewrite <- ?app_assoc;
          reflexivity.
Qed.

Lemma streams_accepted self p :
  streams (accepted path_join self p) !! next_stream self
  = Some {| ws_path := r_filePath (receiver_of path_join self p); writable := true |}.
Proof.
  unfold accepted.
  cbn [streams set_pendingTransfer on_socket set_sockets].
  set (self3 := set_activeTransfers _ _).
  assert (E : streams self3 !! next_stream self
              = Some {| ws_path := r_filePath (receiver_of path_join self p);
                        writable := true |}).
  { subst self3. cbn. apply lookup_insert_eq. }
  destruct (0 <? Zlength_bytes (p_buffer p)); [| exact E].
  destruct (fileStream_write_frame (next_stream self) (p_buffer p) self3)
    as [_ [-> _]]. exact E.
Qed.

Lemma files_accepted self p :
  exists f,
    files (accepted path_join self p) !! r_filePath (receiver_of path_join self p)
    = Some f
    /\ content f = p_buffer p.
Proof.
  unfold accepted.
  cbn [files set_pendingTransfer on_socket set_sockets].
  set (self3 := set_activeTransfers _ _).
  set (path := r_filePath (receiver_of path_join self p)).
  assert (E : exists f0, files self3 !! path = Some f0 /\ content f0 = []).
  { subst self3. cbn. eexists. split; [apply lookup_insert_eq | reflexivity]. }
  assert (S3 : streams self3 !! next_stream self
               = Some {| ws_path := path; writable := true |}).
  { subst self3. cbn. apply lookup_insert_eq. }
  destruct E as [f0 [E0 C0]].
  destruct (Z.ltb_spec 0 (Zlength_bytes (p_buffer p))) as [L | L].
  - rewrite (fileStream_write_files _ _ self3 _ S3). cbn [writable ws_path].
    rewrite lookup_alter_eq, E0. cbn.
    eexists. split; [reflexivity |]. cbn. rewrite C0. reflexivity.
  - exists f0. split; [exact E0 |]. rewrite C0.
    unfold Zlength_bytes in L. destruct (p_buffer p); [reflexivity |].
    cbn in L. lia.
Qed.

Lemma accepted_receiving self p c :
  sockets self !! p_socket p = Some c ->
  closed c = false -> headerReceived c = true ->
  exists f,
    receiving (accepted path_join self p) (p_socket p) (receiver_of path_join self p)
              true f
    /\ content f = p_buffer p.
Proof.
  intros Hc Hcl Hh. destruct (files_accepted self p) as [f [Hf Cf]].
  exists f. split; [| exact Cf].
  eexists. split.
  { rewrite sockets_accepted, !lookup_alter_eq, Hc. reflexivity. }
  cbn [paused closed headerReceived receiver socket_set_paused set_receiver
         socket_write].
  split; [reflexivity |]. split; [exact Hcl |]. split; [exact Hh |].
  split; [reflexivity |]. split; [apply streams_accepted | exact Hf].
Qed.
End Listeners.

(** *** Progress values *)

Lemma progress_of_percent (b total : Z) :
  0 < total -> progress_of b total = Num (inject_Z (percent b total)).
Proof. intros Ht. apply JsNumberFacts.Math_round_percent, Ht. Qed.

Lemma cumulative_sorted (chunks : list (list byte)) :
  forall start,
  StronglySorted Z.le (cumulative start chunks)
  /\ Forall (Z.le start) (cumulative start chunks).
Proof.
  induction chunks as [| c chunks IH]; intros start; cbn [cumulative].
  - split; constructor.
  - destruct (IH (start + Zlength_bytes c)) as [S F].
    pose proof (Zlength_bytes_nonneg c) as N.
    split; constructor; try assumption; try lia.
    eapply Forall_impl; [exact F |]. intros x Hx. cbn in Hx. lia.
Qed.

Lemma progress_ok_sorted (total : Z) (l : list Z) :
  0 < total ->
  StronglySorted Z.le l -> Forall (Z.le 0) l ->
  progress_ok total (map (fun b => (b, progress_of b total)) l).
Proof.
  intros Ht HS HF. split.
  - apply Forall_forall. intros [b q] I.
    apply list_elem_of_In, in_map_iff in I as [b' [[= <- <-] I]].
    rewrite Forall_forall in HF.
    pose proof (HF b' (proj2 (list_elem_of_In _ _) I)) as Hb. cbn [fst snd].
    split; [reflexivity |]. rewrite (progress_of_percent b' total Ht).
    split; [exists (percent b' total); reflexivity |]. split.
    + cbn. change 0%Q with (inject_Z 0). rewrite <- Zle_Qle.
      apply JsNumberFacts.percent_nonneg; assumption.
    + intros Hle. cbn. change 100%Q with (inject_Z 100). rewrite <- Zle_Qle.
      apply JsNumberFacts.percent_le_100; assumption.
  - induction HS as [| b l HS IH Hb]; [constructor |].
    apply Forall_cons in HF as [Hb0 HF]. cbn.
    constructor; [apply IH, HF |].
    apply Forall_forall. intros q I.
    apply list_elem_of_In in I. rewrite map_map in I. cbn in I.
    apply in_map_iff in I as [b' [<- I]].
    rewrite Forall_forall in Hb.
    pose proof (Hb b' (proj2 (list_elem_of_In _ _) I)) as Hbb'.
    rewrite !(progress_of_percent _ total Ht). cbn.
    rewrite <- Zle_Qle. apply JsNumberFacts.percent_mono; assumption.
Qed.

Lemma progress_values_app ev1 ev2 :
  progress_values (ev1 ++ ev2) = progress_values ev1 ++ progress_values ev2.
Proof. unfold progress_values. apply flat_map_app. Qed.

Lemma progress_values_receive id path name total chunks :
  forall start,
  progress_values (receive_events id path name total start chunks)
  = map (fun b => (b, progress_of b total)) (cumulative start chunks).
Proof.
  induction chunks as [| c chunks IH]; intros start; [reflexivity |].
  cbn [receive_events cumulative map]. cbn [progress_values flat_map emitProgress].
  cbn [app]. f_equal. fold (progress_values
    ((if total <=? start + Zlength_bytes c
      then [transferComplete id path name] else [])
     ++ receive_events id path name total (start + Zlength_bytes c) chunks)).
  rewrite progress_values_app, IH.
  destruct (total <=? start + Zlength_bytes c); reflexivity.
Qed.

Lemma progress_values_streamFile chunks total id :
  forall sent,
  progress_values (streamFile_data chunks total id sent).1
  = map (fun b => (b, progress_of b total)) (cumulative sent chunks).
Proof.
  induction chunks as [| c chunks IH]; intros sent; [reflexivity |].
  cbn [streamFile_data cumulative map].
  specialize (IH (sent + Zlength_bytes c)).
  destruct (streamFile_data chunks total id (sent + Zlength_bytes c))
    as [ev out]. cbn [fst] in *.
  cbn [progress_values flat_map emitProgress app]. f_equal. exact IH.
Qed.

Section Progress.
Variable JSON_parse : list byte -> option TransferInfo.
Variable path_join : string -> string -> string.

Lemma run_data_closed chunks self s c :
  sockets self !! s = Some c -> closed c = true ->
  run JSON_parse path_join self (map (OnData s) chunks) = (self, []).
Proof.
  intros Hc Hcl. induction chunks as [| chunk chunks IH]; [reflexivity |].
  cbn [map run step]. unfold flowing. rewrite Hc, Hcl, andb_false_r.
  rewrite IH. reflexivity.
Qed.

Lemma receive_progress_ok self p c chunks :
  pendingTransfer self = Some p ->
  sockets self !! p_socket p = Some c ->
  headerReceived c = true ->
  0 < fileSize (p_transferInfo p) ->
  let a := acceptTransfer path_join self (transferId (p_transferInfo p)) in
  let r := run JSON_parse path_join a.1.1 (map (OnData (p_socket p)) chunks) in
  progress_ok (fileSize (p_transferInfo p)) (progress_values (a.1.2 ++ r.2)).
Proof.
  intros P Hc Hh Ht a r. subst a r.
  rewrite (acceptTransfer_pending path_join self p P). cbn [fst snd].
  set (total := fileSize (p_transferInfo p)) in *.
  set (n := Zlength_bytes (p_buffer p)).
  pose proof (Zlength_bytes_nonneg (p_buffer p)) as Hn. fold n in Hn.
  assert (Hacc : progress_ok total
            (map (fun b => (b, progress_of b total))
                 ((if 0 <? n then [n] else []) ++ cumulative n chunks))).
  { destruct (cumulative_sorted chunks n) as [S F].
    apply progress_ok_sorted; [exact Ht | |].
    - destruct (0 <? n); cbn [app]; [| exact S].
      constructor; assumption.
    - apply Forall_app. split.
      + destruct (0 <? n); constructor; [exact Hn | constructor].
      + eapply Forall_impl; [exact F |]. intros x Hx. cbn in Hx. lia. }
  rewrite progress_values_app.
  destruct (closed c) eqn:Hcl.
  - assert (Hc' : exists c', sockets (accepted path_join self p) !! p_socket p
                             = Some c' /\ closed c' = true).
    { rewrite sockets_accepted, !lookup_alter_eq, Hc. cbn.
      eexists. split; [reflexivity | exact Hcl]. }
    destruct Hc' as [c' [Hc' Hcl']].
    rewrite (run_data_closed chunks _ _ c' Hc' Hcl'). cbn [snd].
    rewrite app_nil_r.
    assert (Hpre : progress_ok total
              (map (fun b => (b, progress_of b total))
                   (if 0 <? n then [n] else []))).
    { apply progress_ok_sorted; [exact Ht | |]; destruct (0 <? n);
        repeat constructor; exact Hn. }
    destruct (0 <? n); exact Hpre.
  - destruct (accepted_receiving path_join self p c Hc Hcl Hh)
      as [f [Hrec _]].
    destruct (run_data_receiving JSON_parse path_join chunks _ _ _ _ _ Hrec)
      as [Ev _].
    rewrite Ev. cbn [receiver_of r_transferId r_filePath r_transferInfo
                       r_receivedBytes].
    rewrite progress_values_receive. fold total n.
    rewrite map_app in Hacc.
    destruct (0 <? n); exact Hacc.
Qed.

(** The byte counts of these events are the running totals: the bytes
    kept with the header, if any, then the total after each chunk. *)
Lemma receive_progress_values self p c chunks :
  pendingTransfer self = Some p ->
  sockets self !! p_socket p = Some c ->
  headerReceived c = true -> closed c = false ->
  let total := fileSize (p_transferInfo p) in
  let n := Zlength_bytes (p_buffer p) in
  let a := acceptTransfer path_join self (transferId (p_transferInfo p)) in
  let r := run JSON_parse path_join a.1.1 (map (OnData (p_socket p)) chunks) in
  progress_values (a.1.2 ++ r.2)
  = map (fun b => (b, progress_of b total))
        ((if 0 <? n then [n] else []) ++ cumulative n chunks).
Proof.
  intros P Hc Hh Hcl total n a r. subst a r.
  rewrite (acceptTransfer_pending path_join self p P). cbn [fst snd].
  rewrite progress_values_app.
  destruct (accepted_receiving path_join self p c Hc Hcl Hh)
    as [f [Hrec _]].
  destruct (run_data_receiving JSON_parse path_join chunks _ _ _ _ _ Hrec)
    as [Ev _].
  rewrite Ev. cbn [receiver_of r_transferId r_filePath r_transferInfo
                     r_receivedBytes].
  rewrite progress_values_receive. fold total n. rewrite map_app.
  destruct (0 <? n); reflexivity.
Qed.
End Progress.

(** *** The offer window *)

Section Offer.
Variable JSON_parse : list byte -> option TransferInfo.
Variable path_join : string -> string -> string.

Lemma accept_on_data_no_receiver self s c chunk :
  sockets self !! s = Some c -> receiver c = None ->
  accept_on_data self s chunk = (self, []).
Proof. intros Hc Hr. unfold accept_on_data. rewrite Hc, Hr. reflexivity. Qed.

Lemma step_data_header self s c chunk i info :
  sockets self !! s = Some c ->
  paused c = false -> closed c = false ->
  headerReceived c = false -> receiver c = None ->
  indexOf0 (buffer c ++ chunk) = Some i ->
  JSON_parse (take i (buffer c ++ chunk)) = Some info ->
  step JSON_parse path_join self (OnData s chunk)
  = (offered self s c chunk i info,
     [transferRequest (senderEmail info) (fileName info) (fileSize info)
        (transferId info)]).
Proof.
  intros Hc Hp Hcl Hh Hr Hi Hj. cbn [step]. unfold flowing.
  rewrite Hc, Hp, Hcl. cbn [negb andb]. unfold socket_on_data.
  rewrite (incoming_on_data_header JSON_parse self s c chunk i info
             Hc Hh Hi Hj). fold (offered self s c chunk i info).
  assert (Hc1 : exists c1, sockets (offered self s c chunk i info) !! s
                           = Some c1 /\ receiver c1 = None).
  { unfold offered. rewrite lookup_on_socket_eq.
    cbn [sockets set_pendingTransfer].
    rewrite !lookup_on_socket_eq, Hc. cbn.
    eexists. split; [reflexivity | exact Hr]. }
  destruct Hc1 as [c1 [Hc1 Hr1]].
  rewrite (accept_on_data_no_receiver _ s c1 chunk Hc1 Hr1). reflexivity.
Qed.

Lemma offered_socket self s c chunk i info :
  sockets self !! s = Some c ->
  exists c1,
    sockets (offered self s c chunk i info) !! s = Some c1
    /\ paused c1 = true /\ closed c1 = closed c /\ headerReceived c1 = true
    /\ written c1 = written c /\ receiver c1 = receiver c.
Proof.
  intros Hc. unfold offered. rewrite lookup_on_socket_eq.
  cbn [sockets set_pendingTransfer].
  rewrite !lookup_on_socket_eq, Hc. cbn.
  eexists. split; [reflexivity |]. repeat split.
Qed.
End Offer.


(** *** What a step leaves alone *)

Section Frame.
Variable JSON_parse : list byte -> option TransferInfo.
Variable path_join : string -> string -> string.

Lemma incoming_on_data_frame self s chunk :
  let self' := (incoming_on_data JSON_parse self s chunk).1 in
  (forall s', s <> s' -> sockets self' !! s' = sockets self !! s')
  /\ (forall p, pendingTransfer self' = Some p ->
        pendingTransfer self = Some p \/ p_socket p = s).
Proof.
  unfold incoming_on_data.
  destruct (sockets self !! s) as [c |]; [| cbn; split; [reflexivity | tauto]].
  destruct (headerReceived c).
  { cbn [fst]. split; [intros s' NE; apply lookup_on_socket_ne, NE |].
    cbn. tauto. }
  destruct (indexOf0 (buffer c ++ chunk)) as [i |].
  2: { cbn [fst]. split; [intros s' NE; apply lookup_on_socket_ne, NE |].
       cbn. tauto. }
  destruct (JSON_parse _) as [info |]; [| destruct (is_json_null _)];
    cbn [fst].
  - split.
    + intros s' NE. rewrite lookup_on_socket_ne by exact NE.
      cbn [sockets set_pendingTransfer].
      rewrite !lookup_on_socket_ne by exact NE. reflexivity.
    + cbn. intros p [= <-]. right. reflexivity.
  - split.
    + intros s' NE. rewrite lookup_on_socket_ne by exact NE.
      cbn [sockets set_pendingNull].
      rewrite !lookup_on_socket_ne by exact NE. reflexivity.
    + cbn. discriminate.
  - split.
    + intros s' NE. rewrite !lookup_on_socket_ne by exact NE. reflexivity.
    + cbn. tauto.
Qed.

Lemma accept_on_data_frame self s chunk :
  let self' := (accept_on_data self s chunk).1 in
  (forall s', s <> s' -> sockets self' !! s' = sockets self !! s')
  /\ pendingTransfer self' = pendingTransfer self.
Proof.
  unfold accept_on_data.
  destruct (sockets self !! s) as [c |]; [| cbn; split; reflexivity].
  destruct (receiver c) as [r |]; [| cbn; split; reflexivity].
  destruct (fileStream_write_frame (r_fileStream r) chunk self)
    as [Fso [_ [Fpe _]]].
  destruct (_ <=? _); cbn [fst]; split;
    try (intros s' NE; cbn [sockets set_activeTransfers fileStream_end
                              set_streams];
         rewrite lookup_on_socket_ne by exact NE; rewrite Fso; reflexivity);
    cbn; exact Fpe.
Qed.

Lemma accept_on_close_frame self s :
  let self' := (accept_on_close self s).1 in
  sockets self' = sockets self
  /\ pendingTransfer self' = pendingTransfer self.
Proof.
  unfold accept_on_close.
  destruct (sockets self !! s) as [c |]; [| cbn; split; reflexivity].
  destruct (receiver c) as [r |]; [| cbn; split; reflexivity].
  destruct (_ <=? _); cbn; split; reflexivity.
Qed.

Lemma cancelTransfer_frame self id :
  let self' := (cancelTransfer self id).1.1 in
  sockets self' = sockets self
  /\ pendingTransfer self' = pendingTransfer self.
Proof.
  unfold cancelTransfer.
  destruct (JsMap.get id (activeTransfers self)) as [t |];
    [| cbn; split; reflexivity].
  cbn [fst]. destruct (unlinkSync _ _); cbn; split; reflexivity.
Qed.

Lemma step_left_behind self i s1 w :
  left_behind self s1 w ->
  left_behind (step JSON_parse path_join self i).1 s1 w.
Proof.
  intros [[c [Hc [Hp Hw]]] Hpend].
  destruct i as [s | s chunk | s | id | id | id]; cbn [step].
  - destruct (sockets self !! s) as [c' |] eqn:E;
      [split; [exists c; auto | exact Hpend] |].
    cbn [fst]. split; [| exact Hpend]. exists c. split; [| auto].
    unfold handleIncomingConnection. cbn [sockets set_sockets].
    rewrite lookup_insert_ne by congruence. exact Hc.
  - destruct (flowing self s) eqn:F;
      [| split; [exists c; auto | exact Hpend]].
    assert (NE : s <> s1).
    { intros ->. unfold flowing in F. rewrite Hc, Hp in F. discriminate. }
    unfold socket_on_data.
    destruct (incoming_on_data_frame self s chunk) as [I1 I2].
    destruct (incoming_on_data JSON_parse self s chunk) as [self1 ev1].
    cbn [fst] in I1, I2.
    destruct (accept_on_data_frame self1 s chunk) as [A1 A2].
    destruct (accept_on_data self1 s chunk) as [self2 ev2].
    cbn [fst] in *. split.
    + exists c. rewrite A1, I1 by exact NE. auto.
    + intros p P. rewrite A2 in P. destruct (I2 p P) as [P0 | ->].
      * apply Hpend, P0.
      * exact NE.
  - destruct (sockets self !! s) as [c' |] eqn:E;
      [| split; [exists c; auto | exact Hpend]].
    destruct (closed c'); [split; [exists c; auto | exact Hpend] |].
    unfold socket_on_close.
    destruct (accept_on_close_frame self s) as [C1 C2].
    destruct (accept_on_close self s) as [self1 ev1]. cbn [fst] in *.
    split.
    + destruct (decide (s = s1)) as [-> | NE].
      * exists (socket_close c). rewrite lookup_on_socket_eq, C1, Hc.
        cbn. auto.
      * exists c. rewrite lookup_on_socket_ne, C1 by exact NE. auto.
    + cbn. rewrite C2. exact Hpend.
  - destruct (acceptTransfer path_join self id) as [[self1 ev1] b] eqn:A.
    cbn [fst]. destruct b as [[|] | e].
    + assert (Ht : (acceptTransfer path_join self id).2 = Return true)
        by (rewrite A; reflexivity).
      apply acceptTransfer_true_iff in Ht as [p [P <-]].
      rewrite (acceptTransfer_pending path_join self p P) in A.
      injection A as <- _. split.
      * exists c. rewrite sockets_accepted.
        rewrite !lookup_alter_ne by (apply Hpend, P). auto.
      * cbn. discriminate.
    + assert (Hf : (acceptTransfer path_join self id).2 = Return false)
        by (rewrite A; reflexivity).
      rewrite (acceptTransfer_false path_join self id Hf) in A.
      injection A as <- _. split; [exists c; auto | exact Hpend].
    + assert (Hf : (acceptTransfer path_join self id).2 = Throw e)
        by (rewrite A; reflexivity).
      rewrite (acceptTransfer_throws path_join self id e Hf) in A.
      injection A as <- _. split; [exists c; auto | exact Hpend].
  - destruct (rejectTransfer self id) as [self1 b] eqn:R.
    cbn [fst]. destruct b as [[|] | e].
    + assert (Ht : (rejectTransfer self id).2 = Return true)
        by (rewrite R; reflexivity).
      apply rejectTransfer_true_iff in Ht as [p [P <-]].
      rewrite (rejectTransfer_pending self p P) in R.
      injection R as <-. split.
      * exists c. cbn [sockets set_pendingTransfer].
        rewrite !lookup_on_socket_ne by (apply Hpend, P). auto.
      * cbn. discriminate.
    + assert (Hf : (rejectTransfer self id).2 = Return false)
        by (rewrite R; reflexivity).
      rewrite (rejectTransfer_false self id Hf) in R.
      injection R as <-. split; [exists c; auto | exact Hpend].
    + assert (Hf : (rejectTransfer self id).2 = Throw e)
        by (rewrite R; reflexivity).
      rewrite (rejectTransfer_throws self id e Hf) in R.
      injection R as <-. split; [exists c; auto | exact Hpend].
  - destruct (cancelTransfer_frame self id) as [C1 C2].
    destruct (cancelTransfer self id) as [[self1 ev1] b]. cbn [fst] in *.
    split; [exists c; rewrite C1; auto | rewrite C2; exact Hpend].
Qed.

Lemma run_left_behind inputs :
  forall self s1 w,
  left_behind self s1 w ->
  left_behind (run JSON_parse path_join self inputs).1 s1 w.
Proof.
  induction inputs as [| i inputs IH]; intros self s1 w H; [exact H |].
  cbn [run]. pose proof (step_left_behind self i s1 w H) as H1.
  destruct (step JSON_parse path_join self i) as [self1 ev1].
  cbn [fst] in H1. specialize (IH self1 s1 w H1).
  destruct (run JSON_parse path_join self1 inputs) as [self2 ev2]. exact IH.
Qed.
End Frame.

(** *** Reachable states *)

Section Reachable.
Variable JSON_parse : list byte -> option TransferInfo.
Variable path_join : string -> string -> string.

Lemma incoming_on_data_at self s c chunk :
  sockets self !! s = Some c ->
  let self' := (incoming_on_data JSON_parse self s chunk).1 in
  exists c',
    sockets self' !! s = Some c'
    /\ written c' = written c /\ receiver c' = receiver c
    /\ (headerReceived c' = false -> headerReceived c = false)
    /\ (forall p, pendingTransfer self' = Some p ->
          pendingTransfer self = Some p
          \/ (p_socket p = s /\ headerReceived c = false
              /\ paused c' = true /\ headerReceived c' = true)).
Proof.
  intros Hc. unfold incoming_on_data. rewrite Hc.
  destruct (headerReceived c) eqn:Hh.
  { cbn [fst]. rewrite lookup_on_socket_eq, Hc. cbn.
    eexists. split; [reflexivity |]. cbn. rewrite Hh.
    repeat split; try discriminate. intros p P. left. exact P. }
  destruct (indexOf0 (buffer c ++ chunk)) as [i |].
  2: { cbn [fst]. rewrite lookup_on_socket_eq, Hc. cbn.
       eexists. split; [reflexivity |]. cbn.
       repeat split; try assumption. intros p P. left. exact P. }
  destruct (JSON_parse _) as [info |]; [| destruct (is_json_null _)];
    cbn [fst].
  - rewrite lookup_on_socket_eq. cbn [sockets set_pendingTransfer].
    rewrite !lookup_on_socket_eq, Hc. cbn.
    eexists. split; [reflexivity |]. cbn.
    repeat split; try discriminate.
    intros p [= <-]. right. repeat split.
  - rewrite lookup_on_socket_eq. cbn [sockets set_pendingNull].
    rewrite !lookup_on_socket_eq, Hc. cbn.
    eexists. split; [reflexivity |]. cbn.
    repeat split; discriminate.
  - rewrite !lookup_on_socket_eq, Hc. cbn.
    eexists. split; [reflexivity |]. cbn.
    repeat split; try assumption. intros p P. left. exact P.
Qed.

Lemma accept_on_data_at self s c chunk :
  sockets self !! s = Some c ->
  let self' := (accept_on_data self s chunk).1 in
  exists c',
    sockets self' !! s = Some c'
    /\ written c' = written c /\ paused c' = paused c
    /\ headerReceived c' = headerReceived c
    /\ (receiver c = None -> receiver c' = None).
Proof.
  intros Hc. unfold accept_on_data. rewrite Hc.
  destruct (receiver c) as [r |] eqn:Hr;
    [| cbn; exists c; repeat split; auto].
  destruct (fileStream_write_frame (r_fileStream r) chunk self)
    as [Fso _].
  destruct (_ <=? _); cbn [fst];
    cbn [sockets set_activeTransfers fileStream_end set_streams];
    rewrite lookup_on_socket_eq, Fso, Hc; cbn;
    (eexists; split; [reflexivity |]); cbn;
    repeat split; discriminate.
Qed.

Lemma step_offer_wf self i :
  offer_wf self -> offer_wf (step JSON_parse path_join self i).1.
Proof.
  intros [W1 W2].
  destruct i as [s | s chunk | s | id | id | id]; cbn [step].
  - destruct (sockets self !! s) as [c' |] eqn:E; [split; assumption |].
    cbn [fst]. unfold handleIncomingConnection. split.
    + cbn [pendingTransfer sockets set_sockets]. intros p P.
      destruct (W1 p P) as [c [Hc H]]. exists c. split; [| exact H].
      rewrite lookup_insert_ne by congruence. exact Hc.
    + cbn [sockets set_sockets]. intros s' c.
      destruct (decide (s = s')) as [<- | NE].
      * rewrite lookup_insert_eq. intros [= <-] _. split; reflexivity.
      * rewrite lookup_insert_ne by exact NE. apply W2.
  - destruct (flowing self s) eqn:F; [| split; assumption].
    unfold flowing in F.
    destruct (sockets self !! s) as [c |] eqn:Hc; [| discriminate].
    apply andb_true_iff in F as [Fp _]. apply negb_true_iff in Fp.
    unfold socket_on_data.
    destruct (incoming_on_data_frame JSON_parse self s chunk) as [I1 _].
    destruct (incoming_on_data_at self s c chunk Hc)
      as [c1 [Hc1 [Hw1 [Hr1 [Hh1 I2]]]]].
    destruct (incoming_on_data JSON_parse self s chunk) as [self1 ev1].
    cbn [fst] in I1, Hc1, I2.
    destruct (accept_on_data_frame self1 s chunk) as [A1 A2].
    destruct (accept_on_data_at self1 s c1 chunk Hc1)
      as [c2 [Hc2 [Hw2 [Hp2 [Hh2 Hr2]]]]].
    destruct (accept_on_data self1 s chunk) as [self2 ev2].
    cbn [fst] in *. split.
    + intros p P. rewrite A2 in P. destruct (I2 p P) as [P0 | [-> [Hh [Hp Hh']]]].
      * destruct (W1 p P0) as [c0 [Hc0 H0]].
        assert (NE : s <> p_socket p).
        { intros ->. rewrite Hc in Hc0. injection Hc0 as <-.
          destruct H0 as [H0 _]. congruence. }
        exists c0. rewrite A1, I1 by exact NE. split; assumption.
      * exists c2. split; [exact Hc2 |].
        destruct (W2 s c Hc Hh) as [Hw _].
        repeat split; congruence.
    + intros s' c' Hc' Hh'.
      destruct (decide (s = s')) as [<- | NE].
      * rewrite Hc2 in Hc'. injection Hc' as <-.
        assert (Hh : headerReceived c = false)
          by (apply Hh1; congruence).
        destruct (W2 s c Hc Hh) as [Hw Hr].
        split; [congruence | apply Hr2; congruence].
      * rewrite A1, I1 in Hc' by exact NE. apply (W2 s' c' Hc' Hh').
  - destruct (sockets self !! s) as [c |] eqn:Hc; [| split; assumption].
    destruct (closed c); [split; assumption |].
    unfold socket_on_close.
    destruct (accept_on_close_frame self s) as [C1 C2].
    destruct (accept_on_close self s) as [self1 ev1]. cbn [fst] in *.
    split.
    + cbn [pendingTransfer on_socket set_sockets]. rewrite C2. intros p P.
      destruct (W1 p P) as [c0 [Hc0 H0]].
      destruct (decide (s = p_socket p)) as [-> | NE].
      * exists (socket_close c0).
        rewrite lookup_on_socket_eq, C1, Hc0. split; [reflexivity | exact H0].
      * exists c0. rewrite lookup_on_socket_ne, C1 by exact NE.
        split; assumption.
    + intros s' c' Hc' Hh'.
      destruct (decide (s = s')) as [<- | NE].
      * rewrite lookup_on_socket_eq, C1, Hc in Hc'. injection Hc' as <-.
        apply (W2 s c Hc Hh').
      * rewrite lookup_on_socket_ne, C1 in Hc' by exact NE.
        apply (W2 s' c' Hc' Hh').
  - destruct (acceptTransfer path_join self id) as [[self1 ev1] b] eqn:A.
    cbn [fst]. destruct b as [[|] | e].
    + assert (Ht : (acceptTransfer path_join self id).2 = Return true)
        by (rewrite A; reflexivity).
      apply acceptTransfer_true_iff in Ht as [p [P <-]].
      rewrite (acceptTransfer_pending path_join self p P) in A.
      injection A as <- _. split; [cbn; discriminate |].
      intros s' c'. rewrite sockets_accepted.
      destruct (W1 p P) as [c0 [Hc0 [_ [Hh0 _]]]].
      destruct (decide (p_socket p = s')) as [<- | NE].
      * rewrite !lookup_alter_eq, Hc0. cbn. intros [= <-]. cbn. congruence.
      * rewrite !lookup_alter_ne by exact NE. apply W2.
    + assert (Hf : (acceptTransfer path_join self id).2 = Return false)
        by (rewrite A; reflexivity).
      rewrite (acceptTransfer_false path_join self id Hf) in A.
      injection A as <- _. split; assumption.
    + assert (Hf : (acceptTransfer path_join self id).2 = Throw e)
        by (rewrite A; reflexivity).
      rewrite (acceptTransfer_throws path_join self id e Hf) in A.
      injection A as <- _. split; assumption.
  - destruct (rejectTransfer self id) as [self1 b] eqn:R.
    cbn [fst]. destruct b as [[|] | e].
    + assert (Ht : (rejectTransfer self id).2 = Return true)
        by (rewrite R; reflexivity).
      apply rejectTransfer_true_iff in Ht as [p [P <-]].
      rewrite (rejectTransfer_pending self p P) in R.
      injection R as <-. split; [cbn; discriminate |].
      intros s' c'. cbn [sockets set_pendingTransfer].
      destruct (W1 p P) as [c0 [Hc0 [_ [Hh0 _]]]].
      destruct (decide (p_socket p = s')) as [<- | NE].
      * rewrite !lookup_on_socket_eq, Hc0. cbn. intros [= <-]. cbn. congruence.
      * rewrite !lookup_on_socket_ne by exact NE. apply W2.
    + assert (Hf : (rejectTransfer self id).2 = Return false)
        by (rewrite R; reflexivity).
      rewrite (rejectTransfer_false self id Hf) in R.
      injection R as <-. split; assumption.
    + assert (Hf : (rejectTransfer self id).2 = Throw e)
        by (rewrite R; reflexivity).
      rewrite (rejectTransfer_throws self id e Hf) in R.
      injection R as <-. split; assumption.
  - destruct (cancelTransfer_frame self id) as [C1 C2].
    destruct (cancelTransfer self id) as [[self1 ev1] b]. cbn [fst] in *.
    rewrite <- C1 in W1, W2. rewrite <- C2 in W1. split; assumption.
Qed.

Lemma run_offer_wf inputs :
  forall self, offer_wf self ->
  offer_wf (run JSON_parse path_join self inputs).1.
Proof.
  induction inputs as [| i inputs IH]; intros self H; [exact H |].
  cbn [run]. pose proof (step_offer_wf self i H) as H1.
  destruct (step JSON_parse path_join self i) as [self1 ev1].
  cbn [fst] in H1. specialize (IH self1 H1).
  destruct (run JSON_parse path_join self1 inputs) as [self2 ev2]. exact IH.
Qed.

Lemma step_receivePath self i :
receivePath (step JSON_parse path_join self i).1 = receivePath self.
Proof.
destruct i as [s | s chunk | s | id | id | id]; cbn [step].
- destruct (sockets self !! s); reflexivity.
- destruct (flowing self s); [| reflexivity].
  unfold socket_on_data.
  assert (I : receivePath (incoming_on_data JSON_parse self s chunk).1
              = receivePath self).
  { unfold incoming_on_data. destruct (sockets self !! s) as [c |];
      [| reflexivity].
    destruct (headerReceived c); [reflexivity |].
    destruct (indexOf0 _); [| reflexivity].
    destruct (JSON_parse _); [| destruct (is_json_null _)]; reflexivity. }
  destruct (incoming_on_data JSON_parse self s chunk) as [self1 ev1].
  cbn [fst] in I. rewrite <- I.
  unfold accept_on_data. destruct (sockets self1 !! s) as [c |];
    [| reflexivity].
  destruct (receiver c) as [r |]; [| reflexivity].
  destruct (fileStream_write_frame (r_fileStream r) chunk self1)
    as [_ [_ [_ [_ F]]]].
  destruct (_ <=? _); cbn; exact F.
- destruct (sockets self !! s) as [c |]; [| reflexivity].
  destruct (closed c); [reflexivity |].
  unfold socket_on_close, accept_on_close.
  destruct (sockets self !! s) as [c' |]; [| reflexivity].
  destruct (receiver c') as [r |]; [| reflexivity].
  destruct (_ <=? _); reflexivity.
- destruct (acceptTransfer path_join self id) as [[self1 ev1] b] eqn:A.
  cbn [fst]. destruct b as [[|] | e].
  + assert (Ht : (acceptTransfer path_join self id).2 = Return true)
      by (rewrite A; reflexivity).
    apply acceptTransfer_true_iff in Ht as [p [P <-]].
    rewrite (acceptTransfer_pending path_join self p P) in A.
    injection A as <- _. unfold accepted.
    cbn [receivePath set_pendingTransfer on_socket set_sockets].
    destruct (0 <? Zlength_bytes (p_buffer p)); [| reflexivity].
    match goal with
    | |- receivePath (fileStream_write ?h ?d ?x) = _ =>
        destruct (fileStream_write_frame h d x) as [_ [_ [_ [_ F]]]];
        rewrite F
    end.
    reflexivity.
  + assert (Hf : (acceptTransfer path_join self id).2 = Return false)
      by (rewrite A; reflexivity).
    rewrite (acceptTransfer_false path_join self id Hf) in A.
    injection A as <- _. reflexivity.
  + assert (Hf : (acceptTransfer path_join self id).2 = Throw e)
      by (rewrite A; reflexivity).
    rewrite (acceptTransfer_throws path_join self id e Hf) in A.
    injection A as <- _. reflexivity.
- unfold rejectTransfer. destruct (pendingTransfer self) as [p |];
    [| destruct (pendingNull self); reflexivity].
  destruct (negb _); reflexivity.
- unfold cancelTransfer.
  destruct (JsMap.get id (activeTransfers self)) as [t |]; [| reflexivity].
  cbn [fst]. destruct (unlinkSync _ _); reflexivity.
Qed.

Lemma run_receivePath inputs :
forall self,
receivePath (run JSON_parse path_join self inputs).1 = receivePath self.
Proof.
induction inputs as [| i inputs IH]; intros self; [reflexivity |].
cbn [run]. pose proof (step_receivePath self i) as St.
destruct (step JSON_parse path_join self i) as [self1 ev1].
specialize (IH self1).
destruct (run JSON_parse path_join self1 inputs) as [self2 ev2].
cbn [fst] in *. congruence.
Qed.

Lemma constructor_offer_wf receivePath disk :
offer_wf (constructor receivePath disk).
Proof.
  split.
  - cbn. discriminate.
  - intros s c. cbn. rewrite lookup_empty. discriminate.
Qed.
End Reachable.

Lemma second_offer_overwrites
    (JSON_parse : list byte -> option TransferInfo)
    (path_join : string -> string -> string)
    (self : FileTransfer) (p1 : Pending) (c1 : Socket)
    (s2 : nat) (c2 : Socket) (chunk : list byte) (i : nat)
    (info2 : TransferInfo) :
  pendingTransfer self = Some p1 ->
  sockets self !! p_socket p1 = Some c1 -> paused c1 = true ->
  sockets self !! s2 = Some c2 ->
  paused c2 = false -> closed c2 = false ->
  headerReceived c2 = false -> receiver c2 = None ->
  indexOf0 (buffer c2 ++ chunk) = Some i ->
  JSON_parse (take i (buffer c2 ++ chunk)) = Some info2 ->
  let self1 := (step JSON_parse path_join self (OnData s2 chunk)).1 in
  let id1 := transferId (p_transferInfo p1) in
  pendingTransfer self1
  = Some {| p_socket := s2; p_transferInfo := info2;
            p_buffer := drop (S i) (buffer c2 ++ chunk) |}
  /\ (transferId info2 <> id1 ->
      acceptTransfer path_join self1 id1 = (self1, [], Return false)
      /\ rejectTransfer self1 id1 = (self1, Return false))
  /\ (transferId info2 = id1 ->
      (acceptTransfer path_join self1 id1).2 = Return true
      /\ (rejectTransfer self1 id1).2 = Return true
      /\ exists c,
           sockets (acceptTransfer path_join self1 id1).1.1 !! s2 = Some c
           /\ written c = written c2 ++ ack true)
  /\ (forall inputs,
        exists c,
          sockets (run JSON_parse path_join self1 inputs).1 !! p_socket p1
          = Some c
          /\ paused c = true /\ written c = written c1).
Proof.
  intros P1 Hc1 Hp1 Hc2 Hp2 Hcl2 Hh2 Hr2 Hi Hj self1 id1.
  subst self1.
  rewrite (step_data_header JSON_parse path_join self s2 c2 chunk i info2
             Hc2 Hp2 Hcl2 Hh2 Hr2 Hi Hj). cbn [fst].
  set (self1 := offered self s2 c2 chunk i info2).
  assert (NE : s2 <> p_socket p1) by (intros E; congruence).
  assert (P : pendingTransfer self1
              = Some {| p_socket := s2; p_transferInfo := info2;
                        p_buffer := drop (S i) (buffer c2 ++ chunk) |})
    by reflexivity.
  split; [exact P |]. split; [| split].
  - intros Hid. split.
    + unfold acceptTransfer. rewrite P. cbn [p_transferInfo].
      destruct (String.eqb_spec (transferId info2) id1) as [E | _];
        [contradiction | reflexivity].
    + unfold rejectTransfer. rewrite P. cbn [p_transferInfo].
      destruct (String.eqb_spec (transferId info2) id1) as [E | _];
        [contradiction | reflexivity].
  - intros Hid. rewrite <- Hid.
    pose proof (acceptTransfer_pending path_join self1 _ P) as Ha.
    pose proof (rejectTransfer_pending self1 _ P) as Hr.
    cbn [p_transferInfo p_socket p_buffer] in Ha, Hr.
    rewrite Ha, Hr. cbn [fst snd].
    split; [reflexivity |]. split; [reflexivity |].
    destruct (offered_socket self s2 c2 chunk i info2 Hc2)
      as [c' [Hc' [_ [_ [_ [Hw' _]]]]]]. fold self1 in Hc'.
    rewrite sockets_accepted. cbn [p_socket].
    rewrite !lookup_alter_eq, Hc'. cbn.
    eexists. split; [reflexivity |]. cbn. rewrite Hw'. reflexivity.
  - intros inputs.
    assert (L : left_behind self1 (p_socket p1) (written c1)).
    { split.
      - exists c1. split; [| auto]. subst self1. unfold offered.
        rewrite lookup_on_socket_ne by exact NE.
        cbn [sockets set_pendingTransfer].
        rewrite !lookup_on_socket_ne by exact NE. exact Hc1.
      - intros p Pp. rewrite P in Pp. injection Pp as <-. exact NE. }
    destruct (run_left_behind JSON_parse path_join inputs self1 _ _ L)
      as [[c [Hc [Hp Hw]]] _].
    exists c. auto.
Qed.

(** The decision, in every state.  [acceptTransfer(id)] and
    [rejectTransfer(id)] return [true] exactly when an offer is awaiting
    a decision and carries the transferId [id].  They throw exactly when
    the slot holds the object of a [null] header, and return [false]
    otherwise; in both cases they change nothing.  On success
    [acceptTransfer] writes [{"accepted":true}] and a 0x00 byte to the
    offer's socket, resumes it and empties the slot; [rejectTransfer]
    writes [{"accepted":false}] and a 0x00 byte, ends the socket and
    empties the slot, leaving the active transfers and the files as
    they were. *)
Lemma accept_reject_decision (path_join : string -> string -> string)
    (self : FileTransfer) (id : string) :
  let a := acceptTransfer path_join self id in
  let r := rejectTransfer self id in
  (a.2 = Return true <-> awaiting self id)
  /\ (r.2 = Return true <-> awaiting self id)
  /\ (a.2 = Return false -> a = (self, [], Return false))
  /\ (r.2 = Return false -> r = (self, Return false))
  /\ (forall e, a.2 = Throw e <->
                e = TypeError /\ pendingTransfer self = None
                /\ pendingNull self <> None)
  /\ (forall e, r.2 = Throw e <->
                e = TypeError /\ pendingTransfer self = None
                /\ pendingNull self <> None)
  /\ (forall e, a.2 = Throw e -> a = (self, [], Throw e))
  /\ (forall e, r.2 = Throw e -> r = (self, Throw e))
  /\ (forall p c,
        pendingTransfer self = Some p ->
        transferId (p_transferInfo p) = id ->
        sockets self !! p_socket p = Some c ->
        (exists c', sockets a.1.1 !! p_socket p = Some c'
                    /\ written c' = written c ++ ack true
                    /\ paused c' = false)
        /\ pendingTransfer a.1.1 = None
        /\ (exists c', sockets r.1 !! p_socket p = Some c'
                       /\ written c' = written c ++ ack false
                       /\ ended c' = true)
        /\ pendingTransfer r.1 = None
        /\ activeTransfers r.1 = activeTransfers self
        /\ files r.1 = files self)
  /\ ack true = [x7b; x22; x61; x63; x63; x65; x70; x74; x65; x64; x22; x3a;
                 x74; x72; x75; x65; x7d] ++ [x00]
  /\ ack false = [x7b; x22; x61; x63; x63; x65; x70; x74; x65; x64; x22; x3a;
                  x66; x61; x6c; x73; x65; x7d] ++ [x00].
Proof.
  intros a r. subst a r.
  split; [apply acceptTransfer_true_iff |].
  split; [apply rejectTransfer_true_iff |].
  split; [apply acceptTransfer_false |].
  split; [apply rejectTransfer_false |].
  split; [apply acceptTransfer_throws_iff |].
  split; [apply rejectTransfer_throws_iff |].
  split; [intros e; apply acceptTransfer_throws |].
  split; [intros e; apply rejectTransfer_throws |].
  split; [| split; reflexivity].
  intros p c P <- Hc.
  rewrite (acceptTransfer_pending path_join self p P).
  rewrite (rejectTransfer_pending self p P). cbn [fst snd].
  split; [| split; [reflexivity |]]; [| split; [| repeat split]].
  - rewrite sockets_accepted. rewrite !lookup_alter_eq, Hc. cbn.
    eexists. split; [reflexivity |]. split; reflexivity.
  - cbn [sockets set_pendingTransfer].
    rewrite lookup_on_socket_eq, lookup_on_socket_eq, Hc. cbn.
    eexists. split; [reflexivity |]. split; reflexivity.
Qed.

(** C10 (amended). When a second connection completes its header
    while an offer is awaiting a decision, the pending slot is
    overwritten by the new offer.  From then on [acceptTransfer] and
    [rejectTransfer] of the earlier transferId return [false] and change
    nothing, unless the new offer carries the same transferId: then
    they return [true] and decide the new offer, the ack going to the
    second socket.  Either way, whatever the host and the network do
    afterwards, the earlier socket stays paused and no ack, indeed no
    byte, is ever written to it. *)
Theorem C10_second_offer_overwrites
    (JSON_parse : list byte -> option TransferInfo)
    (path_join : string -> string -> string)
    (receivePath : string) (disk : gmap string File)
    (inputs0 : list Input)
    (p1 : Pending) (s2 : nat) (c2 : Socket) (chunk : list byte) (i : nat)
    (info2 : TransferInfo) :
  let self := (run JSON_parse path_join (constructor receivePath disk) inputs0).1 in
  pendingTransfer self = Some p1 ->
  sockets self !! s2 = Some c2 ->
  paused c2 = false -> closed c2 = false -> headerReceived c2 = false ->
  indexOf0 (buffer c2 ++ chunk) = Some i ->
  JSON_parse (take i (buffer c2 ++ chunk)) = Some info2 ->
  let self1 := (step JSON_parse path_join self (OnData s2 chunk)).1 in
  let id1 := transferId (p_transferInfo p1) in
  pendingTransfer self1
  = Some {| p_socket := s2; p_transferInfo := info2;
            p_buffer := drop (S i) (buffer c2 ++ chunk) |}
  /\ (transferId info2 <> id1 ->
      acceptTransfer path_join self1 id1 = (self1, [], Return false)
      /\ rejectTransfer self1 id1 = (self1, Return false))
  /\ (transferId info2 = id1 ->
      (acceptTransfer path_join self1 id1).2 = Return true
      /\ (rejectTransfer self1 id1).2 = Return true
      /\ exists c,
           sockets (acceptTransfer path_join self1 id1).1.1 !! s2 = Some c
           /\ written c = ack true)
  /\ (forall inputs,
        exists c,
          sockets (run JSON_parse path_join self1 inputs).1 !! p_socket p1
          = Some c
          /\ paused c = true /\ written c = []).
Proof.
  intros self P1 Hc2 Hp2 Hcl2 Hh2 Hi Hj.
  destruct (run_offer_wf JSON_parse path_join inputs0 _
              (constructor_offer_wf receivePath disk)) as [W1 W2].
  fold self in W1, W2.
  destruct (W1 p1 P1) as [c1 [Hc1 [Hp1 [_ Hw1]]]].
  destruct (W2 s2 c2 Hc2 Hh2) as [Hw2 Hr2].
  rewrite <- Hw1. change (ack true) with ([] ++ ack true). rewrite <- Hw2.
  exact (second_offer_overwrites JSON_parse path_join self p1 c1 s2 c2 chunk i
           info2 P1 Hc1 Hp1 Hc2 Hp2 Hcl2 Hh2 Hr2 Hi Hj).
Qed.

(** C2 (amended). On both sides every progress value is the integer
    [Math.round((bytes / declaredSize) * 100)] of the running byte
    count, for a positive declared size: the events of an accepted
    inbound transfer carry the bytes kept with the header, if any, and
    then the total after each chunk, and those of an outbound stream the
    total after each chunk.  Over these events the values never decrease
    (they may repeat), are never negative, and are at most 100 as long
    as the byte count does not exceed the declared size. *)
Theorem C2_progress_monotone_bounded
    (JSON_parse : list byte -> option TransferInfo)
    (path_join : string -> string -> string) :
  (forall receivePath disk inputs0 p chunks,
      let self :=
        (run JSON_parse path_join (constructor receivePath disk) inputs0).1 in
      pendingTransfer self = Some p ->
      0 < fileSize (p_transferInfo p) ->
      let total := fileSize (p_transferInfo p) in
      let n := Zlength_bytes (p_buffer p) in
      let a := acceptTransfer path_join self (transferId (p_transferInfo p)) in
      let r := run JSON_parse path_join a.1.1
                   (map (OnData (p_socket p)) chunks) in
      progress_ok total (progress_values (a.1.2 ++ r.2))
      /\ (forall c,
            sockets self !! p_socket p = Some c -> closed c = false ->
            progress_values (a.1.2 ++ r.2)
            = map (fun b => (b, progress_of b total))
                  ((if 0 <? n then [n] else []) ++ cumulative n chunks)))
  /\ (forall chunks filePath total id,
        0 < total ->
        progress_ok total
          (progress_values (streamFile chunks filePath total id).1)
        /\ progress_values (streamFile chunks filePath total id).1
           = map (fun b => (b, progress_of b total)) (cumulative 0 chunks)).
Proof.
  split.
  - intros receivePath disk inputs0 p chunks self P Ht total n a r.
    destruct (run_offer_wf JSON_parse path_join inputs0 _
                (constructor_offer_wf receivePath disk)) as [W1 _].
    fold self in W1. destruct (W1 p P) as [c [Hc [_ [Hh _]]]].
    split.
    + exact (receive_progress_ok JSON_parse path_join self p c chunks
               P Hc Hh Ht).
    + intros c' Hc' Hcl. rewrite Hc in Hc'. injection Hc' as <-.
      exact (receive_progress_values JSON_parse path_join self p c chunks
               P Hc Hh Hcl).
  - intros chunks filePath total id Ht. unfold streamFile.
    pose proof (progress_values_streamFile chunks total id 0) as E.
    destruct (streamFile_data chunks total id 0) as [ev out]. cbn [fst] in *.
    rewrite progress_values_app, E. cbn [progress_values flat_map app].
    rewrite app_nil_r. split; [| reflexivity].
    destruct (cumulative_sorted chunks 0) as [S F].
    apply progress_ok_sorted; assumption.
Qed.




(** *** Completion *)

Section Completion.
Variable JSON_parse : list byte -> option TransferInfo.
Variable path_join : string -> string -> string.

Lemma step_close_receiving self s r w f :
  receiving self s r w f ->
  (step JSON_parse path_join self (OnClose s)).2
  = if fileSize (r_transferInfo r) <=? r_receivedBytes r
    then [transferComplete (r_transferId r) (r_filePath r)
            (fileName (r_transferInfo r))]
    else [].
Proof.
  intros [c [Hc [_ [Hcl [_ [Hr _]]]]]]. cbn [step]. rewrite Hc, Hcl.
  unfold socket_on_close, accept_on_close. rewrite Hc, Hr.
  destruct (_ <=? _); reflexivity.
Qed.

Lemma completions_app id ev1 ev2 :
  completions id (ev1 ++ ev2) = (completions id ev1 + completions id ev2)%nat.
Proof. unfold completions. rewrite List.filter_app, length_app. reflexivity. Qed.

(** Over non-empty chunks that add up to the declared size, the
    ['data'] listener completes once, on the last chunk. *)
Lemma completions_receive_events id path name total chunks :
  forall start,
  Forall (fun c => 0 < Zlength_bytes c) chunks ->
  chunks <> [] ->
  start + Zlength_bytes (concat chunks) = total ->
  completions id (receive_events id path name total start chunks) = 1%nat.
Proof.
  induction chunks as [| c chunks IH]; intros start Hpos Hne Hsum;
    [contradiction |].
  apply Forall_cons in Hpos as [Hc Hpos].
  assert (Hcat : Zlength_bytes (concat (c :: chunks))
                 = Zlength_bytes c + Zlength_bytes (concat chunks)).
  { unfold Zlength_bytes. cbn [concat]. rewrite length_app. lia. }
  rewrite Hcat in Hsum. cbn [receive_events].
  change (emitProgress id (start + Zlength_bytes c) total "receiving"
            :: ?l) with ([emitProgress id (start + Zlength_bytes c) total
                            "receiving"] ++ l).
  rewrite !completions_app.
  destruct chunks as [| c' chunks'].
  - unfold Zlength_bytes in Hsum at 2. cbn in Hsum.
    replace (total <=? start + Zlength_bytes c) with true
      by (symmetry; apply Z.leb_le; lia).
    unfold completions. cbn. rewrite String.eqb_refl. reflexivity.
  - assert (0 < Zlength_bytes (concat (c' :: chunks'))).
    { apply Forall_cons in Hpos as [Hc' _].
      unfold Zlength_bytes in *. cbn [concat]. rewrite length_app. lia. }
    replace (total <=? start + Zlength_bytes c) with false
      by (symmetry; apply Z.leb_gt; lia).
    rewrite (IH (start + Zlength_bytes c) Hpos) by (discriminate || lia).
    reflexivity.
Qed.

(** The ordinary course of an accepted transfer: the declared bytes
    arrive in non-empty chunks, then the sender closes.  The listener
    of ['data'] emits the completion on the last chunk and the
    listener of ['close'] emits it again. *)
Lemma completion_fires_twice self s r w f chunks :
  receiving self s r w f ->
  Forall (fun c => 0 < Zlength_bytes c) chunks ->
  chunks <> [] ->
  r_receivedBytes r + Zlength_bytes (concat chunks)
  = fileSize (r_transferInfo r) ->
  completions (r_transferId r)
    (run JSON_parse path_join self (map (OnData s) chunks ++ [OnClose s])).2
  = 2%nat.
Proof.
  intros Hrec Hpos Hne Hsum. rewrite run_app. cbn zeta. cbn [snd].
  destruct (run_data_receiving JSON_parse path_join chunks _ _ _ _ _ Hrec)
    as [Ev [r' [w' [f' [Hrec' [Hb [Hi [Hid [Hpa _]]]]]]]]].
  rewrite completions_app, Ev.
  rewrite (completions_receive_events _ _ _ _ chunks _ Hpos Hne Hsum).
  cbn [run].
  pose proof (step_close_receiving _ _ _ _ _ Hrec') as Cl.
  destruct (step JSON_parse path_join _ (OnClose s)) as [self2 ev2].
  cbn [snd] in *. rewrite app_nil_r, Cl, Hb, Hi, Hid, Hpa.
  replace (_ <=? _) with true by (symmetry; apply Z.leb_le; lia).
  unfold completions. cbn. rewrite String.eqb_refl. reflexivity.
Qed.
End Completion.

(** *** cancelTransfer *)

Lemma cancelTransfer_inactive self id :
  JsMap.get id (activeTransfers self) = None ->
  cancelTransfer self id = (self, [], Return false).
Proof. intros E. unfold cancelTransfer. rewrite E. reflexivity. Qed.

Lemma cancelTransfer_active self id t :
  JsMap.get id (activeTransfers self) = Some t ->
  let res := cancelTransfer self id in
  res.2 = Return true
  /\ res.1.2 = [transferCancelled id]
  /\ JsMap.get id (activeTransfers res.1.1) = None
  /\ (forall f, files self !! filePath t = Some f -> busy f = false ->
        files res.1.1 !! filePath t = None)
  /\ (files self !! filePath t = None -> files res.1.1 = files self).
Proof.
  intros E res. subst res. unfold cancelTransfer. rewrite E. cbn [fst snd].
  split; [reflexivity |]. split; [reflexivity |]. split; [| split].
  - destruct (unlinkSync _ _); cbn; apply JsMapFacts.get_delete_eq.
  - intros f Hf Hb. unfold unlinkSync. cbn [files fileStream_end set_streams].
    rewrite Hf, Hb. cbn. apply lookup_delete_eq.
  - intros Hf. unfold unlinkSync. cbn [files fileStream_end set_streams].
    rewrite Hf. reflexivity.
Qed.

(** No failure of the delete reaches the caller. *)
Lemma cancelTransfer_never_throws self id e :
  (cancelTransfer self id).2 <> Throw e.
Proof.
  unfold cancelTransfer.
  destruct (JsMap.get id (activeTransfers self)); cbn; discriminate.
Qed.

(** *** Concrete runs *)

(** C1: the code emits the completion twice.  A transfer of declared
    size 4 is accepted, its 4 bytes arrive in one chunk and the sender
    closes: [transferComplete] is emitted by the ['data'] listener and
    again by the ['close'] listener. *)
Lemma C1_completion_fires_twice :
  let ev := (run sample_parse sample_join sample_server
               [OnConnection 1%nat; OnData 1%nat [x68; x00]; CallAccept "t1";
                OnData 1%nat [x01; x02; x03; x04]; OnClose 1%nat]).2 in
  ev = [transferRequest "a@x" "f.bin" 4 "t1";
        transferProgress "t1" 4 4 (Num 100) "receiving";
        transferComplete "t1" "recv/f.bin" "f.bin";
        transferComplete "t1" "recv/f.bin" "f.bin"]
  /\ completions "t1" ev = 2%nat.
Proof. vm_compute. split; reflexivity. Qed.

(** C2, as stated, fails when more bytes arrive than the header
    declared: 5 bytes on a declared size of 4 give the progress value
    125. *)
Lemma C2_progress_above_100 :
  let ev := (run sample_parse sample_join sample_server
               [OnConnection 1%nat; OnData 1%nat [x68; x00]; CallAccept "t1";
                OnData 1%nat [x01; x02; x03; x04; x05]]).2 in
  progress_values ev = [(5, Num 125)]
  /\ ~ Forall (fun bp => JsNumber.le bp.2 (Num 100)) (progress_values ev).
Proof.
  assert (E : progress_values
                (run sample_parse sample_join sample_server
                   [OnConnection 1%nat; OnData 1%nat [x68; x00];
                    CallAccept "t1";
                    OnData 1%nat [x01; x02; x03; x04; x05]]).2
              = [(5, Num 125)]) by (vm_compute; reflexivity).
  cbn zeta. split; [exact E |]. rewrite E. intros F.
  apply Forall_cons in F as [F _]. vm_compute in F. apply F. reflexivity.
Qed.

Lemma C2_progress_witness :
  progress_values
    ((acceptTransfer sample_join sample_offered "t1").1.2
     ++ (run sample_parse sample_join sample_streaming
             (map (OnData 1%nat) [[x02]; [x03; x04]])).2)
  = [(1, Num 25); (2, Num 50); (4, Num 100)]
  /\ progress_ok 4
       (progress_values
          (streamFile [[x01; x02]; [x03; x04]] "f.bin" 4 "t1").1).
Proof.
  destruct (C2_progress_monotone_bounded sample_parse sample_join) as [R S].
  split.
  - destruct (R "recv" ∅ [OnConnection 1%nat; OnData 1%nat [x68; x00; x01]]
                sample_pending [[x02]; [x03; x04]]) as [_ E];
      [vm_compute; reflexivity | reflexivity |].
    refine (eq_trans (E sample_socket _ _) _);
      [vm_compute; reflexivity | reflexivity | vm_compute; reflexivity].
  - apply (S [[x01; x02]; [x03; x04]] "f.bin" 4 "t1"). lia.
Defined.

(** C3: the code swallows every failure of the delete.  With the partial
    file held by another process [unlinkSync] throws [EBUSY];
    [cancelTransfer] nevertheless returns [true] and announces the
    cancellation, and the partial file is still on disk. *)
Lemma C3_cancel_swallows_delete_failure :
  let res := cancelTransfer sample_locked "t1" in
  JsMap.get "t1" (activeTransfers sample_locked)
  = Some {| fileStream := 0%nat; filePath := "recv/f.bin"; totalSize := 4;
            receivedBytes := 0 |}
  /\ unlinkSync "recv/f.bin" (files sample_locked) = inl EBUSY
  /\ res.2 = Return true
  /\ res.1.2 = [transferCancelled "t1"]
  /\ files res.1.1 !! "recv/f.bin"
     = Some {| content := [x01]; busy := true |}.
Proof. vm_compute. repeat split; reflexivity. Qed.


(** A header that is the JSON text [null]: the listener has filled the
    pending slot when the argument of [emit] throws.  Nothing is
    announced and the socket is ended, not paused; from then on
    [acceptTransfer] and [rejectTransfer] throw for every transferId
    and change nothing. *)
Lemma null_header_throws
    (JSON_parse : list byte -> option TransferInfo)
    (path_join : string -> string -> string)
    (self : FileTransfer) (s : nat) (c : Socket) (chunk : list byte)
    (i : nat) :
  sockets self !! s = Some c ->
  paused c = false -> closed c = false ->
  headerReceived c = false -> receiver c = None ->
  indexOf0 (buffer c ++ chunk) = Some i ->
  JSON_parse (take i (buffer c ++ chunk)) = None ->
  is_json_null (take i (buffer c ++ chunk)) = true ->
  let r := step JSON_parse path_join self (OnData s chunk) in
  r.2 = []
  /\ pendingTransfer r.1 = None
  /\ pendingNull r.1 = Some (s, drop (S i) (buffer c ++ chunk))
  /\ (exists c', sockets r.1 !! s = Some c'
                 /\ ended c' = true /\ paused c' = false
                 /\ headerReceived c' = true /\ written c' = written c)
  /\ (forall id,
        acceptTransfer path_join r.1 id = (r.1, [], Throw TypeError)
        /\ rejectTransfer r.1 id = (r.1, Throw TypeError)).
Proof.
  intros Hc Hp Hcl Hh Hr Hi Hj Hn r.
  set (rest := drop (S i) (buffer c ++ chunk)).
  set (self' :=
         on_socket s socket_end
           (set_pendingNull s rest
              (on_socket s set_headerReceived
                 (on_socket s (set_buffer rest)
                    (on_socket s (set_buffer (buffer c ++ chunk)) self))))).
  assert (Hc' : exists c', sockets self' !! s = Some c'
                           /\ ended c' = true /\ paused c' = false
                           /\ headerReceived c' = true
                           /\ written c' = written c /\ receiver c' = None).
  { subst self'. rewrite lookup_on_socket_eq. cbn [sockets set_pendingNull].
    rewrite !lookup_on_socket_eq, Hc. cbn.
    eexists. split; [reflexivity |]. cbn. auto. }
  destruct Hc' as (c' & Hc' & He' & Hp' & Hh' & Hw' & Hr').
  assert (E : r = (self', [])).
  { subst r. cbn [step]. unfold flowing.
    rewrite Hc, Hp, Hcl. cbn [negb andb]. unfold socket_on_data.
    unfold incoming_on_data. rewrite Hc, Hh, Hi, Hj, Hn. fold rest self'.
    rewrite (accept_on_data_no_receiver self' s c' chunk Hc' Hr').
    reflexivity. }
  rewrite E. cbn [fst snd].
  split; [reflexivity |]. split; [reflexivity |]. split; [reflexivity |].
  split; [exists c'; auto |].
  intros id. split; reflexivity.
Qed.

(** C8: the code throws where the claim says [false].  A connection
    sends the header [null] and the delimiter.  No request is
    announced and no offer is awaiting a decision, yet the pending slot
    is set: [acceptTransfer] and [rejectTransfer] throw a [TypeError]
    instead of returning [false].  The same happens to the host that
    decides an offer it was shown, when a [null] header has arrived on
    another connection in between. *)
Lemma C8_null_header_throws :
  let r := run sample_parse sample_join sample_server
               [OnConnection 1%nat;
                OnData 1%nat [x6e; x75; x6c; x6c; x00]] in
  let r2 := run sample_parse sample_join sample_server
                [OnConnection 1%nat; OnData 1%nat [x68; x00];
                 OnConnection 2%nat;
                 OnData 2%nat [x6e; x75; x6c; x6c; x00]] in
  r.2 = []
  /\ ~ awaiting r.1 "t1"
  /\ acceptTransfer sample_join r.1 "t1" = (r.1, [], Throw TypeError)
  /\ rejectTransfer r.1 "t1" = (r.1, Throw TypeError)
  /\ r2.2 = [transferRequest "a@x" "f.bin" 4 "t1"]
  /\ ~ awaiting r2.1 "t1"
  /\ acceptTransfer sample_join r2.1 "t1" = (r2.1, [], Throw TypeError)
  /\ rejectTransfer r2.1 "t1" = (r2.1, Throw TypeError).
Proof.
  cbv zeta.
  split; [vm_compute; reflexivity |].
  split; [intros [p [P _]]; vm_compute in P; discriminate |].
  split; [vm_compute; reflexivity |].
  split; [vm_compute; reflexivity |].
  split; [vm_compute; reflexivity |].
  split; [intros [p [P _]]; vm_compute in P; discriminate |].
  split; vm_compute; reflexivity.
Qed.

Lemma C10_second_offer_witness :
  let self1 := (step sample_parse sample_join sample_two
                     (OnData 2%nat [x69; x00])).1 in
  acceptTransfer sample_join self1 "t1" = (self1, [], Return false)
  /\ rejectTransfer self1 "t1" = (self1, Return false)
  /\ exists c,
       sockets (run sample_parse sample_join self1
                    [CallAccept "t1"; CallReject "t1"; CallAccept "t2";
                     OnData 1%nat [x01]; OnClose 1%nat]).1 !! 1%nat = Some c
       /\ paused c = true /\ written c = [].
Proof.
  destruct (C10_second_offer_overwrites sample_parse sample_join "recv" ∅
              [OnConnection 1%nat; OnData 1%nat [x68; x00]; OnConnection 2%nat]
              {| p_socket := 1%nat; p_transferInfo := sample_info;
                 p_buffer := [] |}
              2%nat new_socket [x69; x00] 1%nat sample_info2)
    as [_ [A [_ N]]];
    [vm_compute; reflexivity ..|].
  destruct A as [A R]; [discriminate |].
  split; [exact A |]. split; [exact R |].
  exact (N [CallAccept "t1"; CallReject "t1"; CallAccept "t2";
            OnData 1%nat [x01]; OnClose 1%nat]).
Defined.

(** C10, as stated, fails when the second offer carries the transferId
    of the first: two connections send the same header, and
    [acceptTransfer] and [rejectTransfer] of that id return [true],
    deciding the second offer. *)
Lemma C10_same_id_counterexample :
  let self1 := (run sample_parse sample_join sample_server
                  [OnConnection 1%nat; OnData 1%nat [x68; x00];
                   OnConnection 2%nat; OnData 2%nat [x68; x00]]).1 in
  pendingTransfer self1
  = Some {| p_socket := 2%nat; p_transferInfo := sample_info;
            p_buffer := [] |}
  /\ (acceptTransfer sample_join self1 "t1").2 = Return true
  /\ (rejectTransfer self1 "t1").2 = Return true
  /\ acceptTransfer sample_join self1 "t1" <> (self1, [], Return false)
  /\ rejectTransfer self1 "t1" <> (self1, Return false).
Proof.
  cbv zeta. split; [vm_compute; reflexivity |].
  assert (A : (acceptTransfer sample_join
                 (run sample_parse sample_join sample_server
                    [OnConnection 1%nat; OnData 1%nat [x68; x00];
                     OnConnection 2%nat; OnData 2%nat [x68; x00]]).1
                 "t1").2 = Return true) by (vm_compute; reflexivity).
  assert (R : (rejectTransfer
                 (run sample_parse sample_join sample_server
                    [OnConnection 1%nat; OnData 1%nat [x68; x00];
                     OnConnection 2%nat; OnData 2%nat [x68; x00]]).1
                 "t1").2 = Return true) by (vm_compute; reflexivity).
  split; [exact A |]. split; [exact R |].
  split; intros E; [rewrite E in A | rewrite E in R]; discriminate.
Qed.

End TransferFacts.

(** ** The device table and its readers *)

Module DeviceTableFacts.
Import Discovery DiscoveryStates DiscoveryFacts.

Lemma set_absent {V} (k : string) (v : V) (m : list (string * V)) :
  JsMap.get k m = None -> JsMap.set k v m = m ++ [(k, v)].
Proof.
  induction m as [| [k' v'] m IH]; simpl; [reflexivity |].
  destruct (decide (k = k')); [discriminate |].
  intros H. rewrite IH by exact H. reflexivity.
Qed.

Lemma get_filter {V} (P : string * V -> Prop) `{forall x, Decision (P x)}
    (k : string) (m : list (string * V)) :
  JsMap.wf m ->
  JsMap.get k (filter P m)
  = match JsMap.get k m with
    | Some v => if decide (P (k, v)) then Some v else None
    | None => None
    end.
Proof.
  unfold JsMap.wf, JsMap.keys.
  induction m as [| [k' v'] m IH]; intros Hwf; [reflexivity |].
  csimpl in Hwf. apply NoDup_cons in Hwf as [Hk Hwf].
  rewrite filter_cons. cbn [JsMap.get].
  destruct (decide (k = k')) as [<- | NE].
  - destruct (decide (P (k, v'))) as [HP | HP].
    + cbn [JsMap.get]. rewrite decide_True by reflexivity. reflexivity.
    + rewrite (IH Hwf).
      assert (JsMap.get k m = None) as ->; [| reflexivity].
      apply JsMapFacts.get_None. exact Hk.
  - destruct (decide (P (k', v'))).
    + cbn [JsMap.get]. rewrite decide_False by exact NE. apply IH, Hwf.
    + apply IH, Hwf.
Qed.

Lemma set_devices_same (self : DeviceDiscovery) :
  set_devices (devices self) self = self.
Proof. destruct self; reflexivity. Qed.

Lemma stale_mono (now now' : Z) (info : DeviceInfo) :
  now' <= now -> stale now' info -> stale now info.
Proof. unfold stale. lia. Qed.

Section Receive.
Variable JSON_parse : list byte -> option Message.

(** What a presence message leaves in the table. *)
Lemma handleMessage_lookup self msg data a now :
  JSON_parse msg = Some data ->
  type data = "presence" ->
  Some (msg_deviceId data) <> myDeviceId self ->
  let self' := (handleMessage JSON_parse self msg a now).1 in
  findDeviceById self' (msg_deviceId data) = Some (deviceInfo_of data a now)
  /\ (forall d', d' <> msg_deviceId data ->
        findDeviceById self' d' = findDeviceById self d').
Proof.
  intros Hp Ht Hs self'. subst self'.
  rewrite (handleMessage_upsert JSON_parse self msg data a now Hp Ht Hs).
  cbn [fst]. unfold findDeviceById. cbn [devices set_devices]. split.
  - apply JsMapFacts.get_set_eq.
  - intros d' Hne. apply JsMapFacts.get_set_ne. congruence.
Qed.

End Receive.

(** X1. After a presence message of another device [d] that came from
    the address [a], [findDeviceById(d)] returns the record built from
    that message, with [ip] = [a], and the records of the other ids are
    as before; the handler of [transfer:send-file] then passes [a] to
    [sendFile].  Once a sweep more than [DEVICE_TIMEOUT] later has run,
    the handler answers with its "Device not found" result, and without
    one of the two services with "Services not running". *)
Theorem send_file_targets_last_address
    (JSON_parse : list byte -> option Message)
    (self : DeviceDiscovery) (ft : Transfer.FileTransfer)
    (msg : list byte) (data : Message) (a : string) (now now2 : Z) :
  JsMap.wf (devices self) ->
  JSON_parse msg = Some data ->
  type data = "presence" ->
  Some (msg_deviceId data) <> myDeviceId self ->
  let d := msg_deviceId data in
  let self' := (handleMessage JSON_parse self msg a now).1 in
  findDeviceById self' d = Some (deviceInfo_of data a now)
  /\ (forall d', d' <> d -> findDeviceById self' d' = findDeviceById self d')
  /\ Main.transfer_send_file (Some self') (Some ft) d = Main.connect_to a
  /\ (DEVICE_TIMEOUT < now2 - now ->
      Main.transfer_send_file (Some (cleanupStaleDevices self' now2).1)
        (Some ft) d
      = Main.device_not_found)
  /\ Main.transfer_send_file None (Some ft) d = Main.services_not_running
  /\ Main.transfer_send_file (Some self') None d = Main.services_not_running.
Proof.
  intros Hwf Hp Ht Hs d self'.
  destruct (handleMessage_lookup JSON_parse self msg data a now Hp Ht Hs)
    as [Hget Hother].
  fold d self' in Hget, Hother.
  split; [exact Hget |]. split; [exact Hother |].
  split; [unfold Main.transfer_send_file; rewrite Hget; reflexivity |].
  split; [| split; reflexivity].
  intros Hstale. unfold Main.transfer_send_file, findDeviceById.
  assert (Hwf' : JsMap.wf (devices self')).
  { subst self'.
    rewrite (handleMessage_upsert JSON_parse self msg data a now Hp Ht Hs).
    cbn [fst devices set_devices]. apply JsMapFacts.wf_set, Hwf. }
  rewrite (cleanup_devices self' now2 Hwf').
  rewrite (get_filter _ d (devices self') Hwf').
  unfold findDeviceById in Hget. rewrite Hget.
  rewrite decide_False; [reflexivity |].
  intros Hns. apply Hns. unfold stale. cbn. exact Hstale.
Qed.

Lemma send_file_targets_last_address_witness :
  Main.transfer_send_file (Some sample_table)
    (Some Transfer.sample_server) "A1" = Main.connect_to "10.0.0.5"
  /\ Main.transfer_send_file
       (Some (cleanupStaleDevices sample_table 11001).1)
       (Some Transfer.sample_server) "A1" = Main.device_not_found.
Proof.
  pose proof (send_file_targets_last_address sample_parse sample_service
                Transfer.sample_server [x41]
                {| type := "presence"; msg_deviceId := "A1";
                   msg_deviceName := "alpha"; msg_email := "a@x";
                   timestamp := 1 |}
                "10.0.0.5" 1000 11001) as H.
  cbv zeta in H.
  destruct H as (_ & _ & H1 & H2 & _);
    [apply NoDup_nil_2 | reflexivity | reflexivity | discriminate |].
  split; [exact H1 | apply H2; reflexivity].
Defined.

(** *** Reachable tables *)

Section Reachable.
Variable JSON_parse : list byte -> option Message.

Lemma step_wf self i :
  JsMap.wf (devices self) -> JsMap.wf (devices (step JSON_parse self i).1).
Proof.
  intros Hwf. destruct i; cbn [step].
  - unfold start. destruct (isRunning self); exact Hwf.
  - unfold stop. destruct (isRunning self); cbn; [apply NoDup_nil_2 | exact Hwf].
  - exact Hwf.
  - exact Hwf.
  - destruct (socket self); exact Hwf.
  - destruct (socket self); [| exact Hwf].
    unfold handleMessage. destruct (JSON_parse msg) as [data |]; [| exact Hwf].
    destruct (negb _); [exact Hwf |].
    destruct (bool_decide _); [exact Hwf |].
    cbn. apply JsMapFacts.wf_set, Hwf.
  - destruct (broadcastInterval self); exact Hwf.
  - destruct (cleanupInterval self); [| exact Hwf].
    rewrite (cleanup_devices self now Hwf). apply wf_filter, Hwf.
Qed.

Lemma run_wf inputs :
  forall self, JsMap.wf (devices self) ->
  JsMap.wf (devices (run JSON_parse self inputs).1).
Proof.
  induction inputs as [| i inputs IH]; intros self H; [exact H |].
  cbn [run]. pose proof (step_wf self i H) as H1.
  destruct (step JSON_parse self i) as [self1 out1]. cbn [fst] in H1.
  specialize (IH self1 H1).
  destruct (run JSON_parse self1 inputs) as [self2 out2]. exact IH.
Qed.

End Reachable.

Lemma keys_of_values (m : list (string * DeviceInfo)) :
  (forall k info, (k, info) ∈ m -> deviceId info = k) ->
  deviceId <$> JsMap.values m = JsMap.keys m.
Proof.
  unfold JsMap.values, JsMap.keys.
  induction m as [| [k info] m IH]; intros H; [reflexivity |].
  csimpl. rewrite (H k info) by left. f_equal. apply IH.
  intros k' info' Hin. apply H. right. exact Hin.
Qed.

(** X2. In every state that the service reaches from its constructor,
    [getDeviceList] holds at most one record per [deviceId], and
    [findDeviceById] finds exactly the listed records, each under the id
    it carries. *)
Theorem device_list_is_keyed_by_id
    (JSON_parse : list byte -> option Message) (inputs : list Input) :
  let self := (run JSON_parse constructor inputs).1 in
  NoDup (deviceId <$> getDeviceList self)
  /\ (forall info, info ∈ getDeviceList self ->
        findDeviceById self (deviceId info) = Some info)
  /\ (forall id info, findDeviceById self id = Some info ->
        deviceId info = id /\ info ∈ getDeviceList self).
Proof.
  intros self.
  assert (Hwf : JsMap.wf (devices self)).
  { apply run_wf. apply NoDup_nil_2. }
  destruct (run_self_excluded JSON_parse inputs constructor
              constructor_self_excluded) as [Hent _].
  fold self in Hent.
  assert (Hk : forall k info, (k, info) ∈ devices self -> deviceId info = k).
  { intros k info Hin. apply (Hent k info Hin). }
  unfold getDeviceList, findDeviceById. split; [| split].
  - rewrite (keys_of_values _ Hk). exact Hwf.
  - intros info Hin. apply JsMapFacts.values_elem in Hin as [k Hin].
    rewrite (Hk k info Hin). apply JsMapFacts.get_elem; assumption.
  - intros id info Hget.
    assert (Hin : (id, info) ∈ devices self).
    { clear -Hget. induction (devices self) as [| [k v] m IH];
        [discriminate |].
      cbn in Hget. destruct (decide (id = k)) as [-> | NE].
      - injection Hget as ->. left.
      - right. apply IH, Hget. }
    split; [apply (Hk id info Hin) |].
    apply JsMapFacts.values_elem. exists id. exact Hin.
Qed.

(** X3. [findDeviceByEmail(e)] returns the first record of
    [getDeviceList], in insertion order, whose email is [e], and [null]
    exactly when no listed record has that email. *)
Theorem findDeviceByEmail_first_match (self : DeviceDiscovery) (e : string) :
  match findDeviceByEmail self e with
  | Some d =>
      exists l1 l2,
        getDeviceList self = l1 ++ d :: l2
        /\ email d = e
        /\ forall d', d' ∈ l1 -> email d' <> e
  | None => forall d, d ∈ getDeviceList self -> email d <> e
  end.
Proof.
  unfold findDeviceByEmail.
  induction (getDeviceList self) as [| d l IH]; cbn [List.find].
  - intros d Hin. apply elem_of_nil in Hin. contradiction.
  - destruct (String.eqb (email d) e) eqn:E.
    + apply String.eqb_eq in E. exists [], l. split; [reflexivity |].
      split; [exact E |]. intros d' Hin. apply elem_of_nil in Hin.
      contradiction.
    + apply String.eqb_neq in E.
      destruct (List.find _ l) as [d0 |].
      * destruct IH as (l1 & l2 & -> & He & Hl1).
        exists (d :: l1), l2. split; [reflexivity |]. split; [exact He |].
        intros d' Hin. apply elem_of_cons in Hin as [-> | Hin];
          [exact E | apply Hl1, Hin].
      * intros d' Hin. apply elem_of_cons in Hin as [-> | Hin];
          [exact E | apply IH, Hin].
Qed.

(** X5. A device whose record a sweep removes as stale is a new device
    at its next presence message: the sweep emits [deviceLost] with the
    old record, [findDeviceById] no longer finds the id, and the message
    emits [deviceFound] again, followed by [devicesUpdated], with the new
    record at the end of the list. *)
Theorem evicted_device_returns_as_new
    (JSON_parse : list byte -> option Message)
    (self : DeviceDiscovery) (msg : list byte) (data : Message) (a : string)
    (now now1 : Z) (info0 : DeviceInfo) :
  JsMap.wf (devices self) ->
  JSON_parse msg = Some data ->
  type data = "presence" ->
  Some (msg_deviceId data) <> myDeviceId self ->
  findDeviceById self (msg_deviceId data) = Some info0 ->
  stale now1 info0 ->
  let s1 := cleanupStaleDevices self now1 in
  let info := deviceInfo_of data a now in
  let r := handleMessage JSON_parse s1.1 msg a now in
  deviceLost info0 ∈ s1.2
  /\ findDeviceById s1.1 (msg_deviceId data) = None
  /\ r.2 = [deviceFound info; devicesUpdated (getDeviceList s1.1 ++ [info])]
  /\ getDeviceList r.1 = getDeviceList s1.1 ++ [info].
Proof.
  intros Hwf Hp Ht Hs Hget Hst s1 info r.
  unfold findDeviceById in *.
  assert (Hin : (msg_deviceId data, info0) ∈ devices self).
  { clear -Hget. induction (devices self) as [| [k v] m IH];
      [discriminate |].
    cbn in Hget. destruct (decide (msg_deviceId data = k)) as [-> | NE].
    - injection Hget as ->. left.
    - right. apply IH, Hget. }
  assert (Hnone : JsMap.get (msg_deviceId data) (devices s1.1) = None).
  { subst s1. rewrite (cleanup_devices self now1 Hwf).
    rewrite (get_filter _ _ _ Hwf), Hget.
    rewrite decide_False; [reflexivity |]. intros H. apply H. exact Hst. }
  split.
  { subst s1. rewrite cleanupStaleDevices_spec. cbn [snd].
    apply elem_of_app. left. apply list_elem_of_fmap_2.
    apply JsMapFacts.values_elem. exists (msg_deviceId data).
    unfold stale_entries. apply list_elem_of_filter. split; assumption. }
  split; [exact Hnone |].
  assert (Hs1 : Some (msg_deviceId data) <> myDeviceId s1.1).
  { subst s1. rewrite cleanupStaleDevices_spec. exact Hs. }
  subst r.
  rewrite (handleMessage_upsert JSON_parse s1.1 msg data a now Hp Ht Hs1).
  cbn [fst snd]. unfold JsMap.has. rewrite Hnone.
  rewrite (set_absent _ _ _ Hnone).
  unfold getDeviceList, JsMap.values. cbn [devices set_devices].
  rewrite fmap_app. split; reflexivity.
Qed.

Lemma evicted_device_returns_as_new_witness :
  let s1 := cleanupStaleDevices sample_table 11001 in
  (handleMessage sample_parse s1.1 [x41; x32] "10.0.0.6" 12000).2
  = [deviceFound {| deviceId := "A1"; deviceName := "alpha2";
                    email := "a2@x"; ip := "10.0.0.6"; lastSeen := 12000 |};
     devicesUpdated
       [{| deviceId := "A1"; deviceName := "alpha2"; email := "a2@x";
           ip := "10.0.0.6"; lastSeen := 12000 |}]].
Proof.
  pose proof (evicted_device_returns_as_new sample_parse sample_table
                [x41; x32]
                {| type := "presence"; msg_deviceId := "A1";
                   msg_deviceName := "alpha2"; msg_email := "a2@x";
                   timestamp := 2 |}
                "10.0.0.6" 12000 11001
                {| deviceId := "A1"; deviceName := "alpha"; email := "a@x";
                   ip := "10.0.0.5"; lastSeen := 1000 |}) as H.
  cbv zeta in H.
  destruct H as (_ & _ & H & _);
    [ repeat constructor; rewrite elem_of_nil; tauto
    | reflexivity | reflexivity | discriminate | reflexivity | reflexivity |].
  exact H.
Defined.

(** X6. A sweep that follows a sweep, at the same or an earlier time,
    removes nothing and emits nothing. *)
Theorem sweep_is_idempotent (self : DeviceDiscovery) (now now' : Z) :
  JsMap.wf (devices self) -> now' <= now ->
  let s1 := (cleanupStaleDevices self now).1 in
  cleanupStaleDevices s1 now' = (s1, []).
Proof.
  intros Hwf Hle s1.
  assert (Hd : devices s1 = filter (fun e => ~ stale now e.2) (devices self)).
  { apply cleanup_devices, Hwf. }
  rewrite cleanupStaleDevices_spec. cbv zeta.
  assert (Hl : stale_entries now' (devices s1) = []).
  { unfold stale_entries. rewrite Hd. apply elem_of_nil_inv. intros x Hin.
    apply list_elem_of_filter in Hin as [Hst Hin].
    apply list_elem_of_filter in Hin as [Hns _].
    apply Hns. exact (stale_mono now now' x.2 Hle Hst). }
  rewrite Hl. cbn [JsMap.keys JsMap.values fmap list_fmap map app].
  rewrite bool_decide_eq_false_2 by (intros H; apply H; reflexivity).
  rewrite filter_all by (intros x _; apply not_elem_of_nil).
  rewrite set_devices_same. reflexivity.
Qed.

Lemma sweep_is_idempotent_witness :
  cleanupStaleDevices (cleanupStaleDevices sample_table 11001).1 5000
  = ((cleanupStaleDevices sample_table 11001).1, []).
Proof.
  apply (sweep_is_idempotent sample_table 11001 5000).
  - repeat constructor. rewrite elem_of_nil. tauto.
  - discriminate.
Defined.

(** *** The broadcast address *)

Lemma octet_high_bits (z n : Z) : octet z -> 8 <= n -> Z.testbit z n = false.
Proof.
  intros [H0 H1] Hn.
  destruct (Z.eq_dec z 0) as [-> | Hz]; [apply Z.testbit_0_l |].
  apply Z.bits_above_log2; [exact H0 |].
  assert (Z.log2 z < 8); [| lia].
  apply Z.log2_lt_pow2; lia.
Qed.

Lemma testbit_255 (n : Z) : 0 <= n -> Z.testbit 255 n = (n <? 8).
Proof.
  intros Hn. change 255 with (Z.ones 8).
  destruct (Z.ltb_spec n 8).
  - apply Z.ones_spec_low. lia.
  - apply Z.ones_spec_high. lia.
Qed.

Lemma broadcast_octet_bits (o m : Z) :
  octet o -> octet m ->
  let b := Z.lor o (Z.land (Z.lnot m) 255) in
  Z.land b m = Z.land o m /\ Z.lor b m = 255.
Proof.
  intros Ho Hm b. subst b. split; apply Z.bits_inj'; intros n Hn.
  - rewrite !Z.land_spec, Z.lor_spec, Z.land_spec, Z.lnot_spec by exact Hn.
    destruct (Z.testbit o n), (Z.testbit m n), (Z.testbit 255 n); reflexivity.
  - rewrite !Z.lor_spec, Z.land_spec, Z.lnot_spec, testbit_255 by exact Hn.
    destruct (Z.ltb_spec n 8) as [L | L].
    + destruct (Z.testbit o n), (Z.testbit m n); reflexivity.
    + rewrite (octet_high_bits o n Ho L), (octet_high_bits m n Hm L).
      reflexivity.
Qed.

(** X7. For an address and a netmask that are lists of octets, the
    address that [getBroadcastAddresses] computes has as many octets as
    the interface address; each of them is an octet that agrees with the
    interface address on the bits of the netmask and has every other bit
    set, and is 255 where the netmask has no octet. *)
Theorem broadcast_address_of_subnet (ip mask : list Z) (j : nat) (o : Z) :
  Forall octet ip -> Forall octet mask ->
  ip !! j = Some o ->
  let b := broadcast_octets 0 ip mask in
  length b = length ip
  /\ exists bj,
       b !! j = Some bj /\ octet bj
       /\ match mask !! j with
          | Some m => Z.land bj m = Z.land o m /\ Z.lor bj m = 255
          | None => bj = 255
          end.
Proof.
  intros Hip Hmask Hj b.
  destruct (broadcast_octets_spec ip mask Hip Hmask 0) as [Hb Hoct].
  fold b in Hb, Hoct.
  split; [rewrite Hb; apply length_imap |].
  assert (Ho : octet o).
  { rewrite Forall_forall in Hip. apply Hip.
    apply list_elem_of_lookup_2 with j. exact Hj. }
  exists (Z.lor o (Z.land (Z.lnot (nth j mask 0)) 255)).
  split; [rewrite Hb, list_lookup_imap, Hj; reflexivity |].
  rewrite nth_lookup.
  destruct (mask !! j) as [m |] eqn:Em; cbn [default].
  - assert (Hm : octet m).
    { rewrite Forall_forall in Hmask. apply Hmask.
      apply list_elem_of_lookup_2 with j. exact Em. }
    split; [apply (broadcast_octet o m Ho Hm) |].
    apply (broadcast_octet_bits o m Ho Hm).
  - assert (H0 : octet 0) by (unfold octet; lia).
    split; [apply (broadcast_octet o 0 Ho H0) |].
    destruct (broadcast_octet_bits o 0 Ho H0) as [_ H].
    rewrite Z.lor_0_r in H. exact H.
Qed.

Lemma broadcast_address_of_subnet_witness :
  exists bj,
    broadcast_octets 0 [192; 168; 37; 23] [255; 255; 240; 0] !! 2%nat = Some bj
    /\ Z.land bj 240 = Z.land 37 240 /\ Z.lor bj 240 = 255.
Proof.
  destruct (broadcast_address_of_subnet [192; 168; 37; 23] [255; 255; 240; 0]
              2%nat 37) as (_ & bj & H1 & _ & H2).
  - repeat constructor; unfold octet; lia.
  - repeat constructor; unfold octet; lia.
  - reflexivity.
  - exists bj. split; [exact H1 | exact H2].
Defined.

(** *** The events of one device *)

Lemma count_app f a b : count f (a ++ b) = (count f a + count f b)%nat.
Proof. unfold count. rewrite List.filter_app, length_app. reflexivity. Qed.

Lemma count_broadcast f self now ifs :
  (forall m p a, f (send m p a) = false) ->
  count f (broadcast self now ifs) = 0%nat.
Proof.
  intros Hf. unfold broadcast. destruct (_ || _); [reflexivity |].
  unfold count. induction (getBroadcastAddresses ifs) as [| a l IH];
    [reflexivity |].
  cbn [map List.filter]. rewrite Hf. exact IH.
Qed.

Lemma count_lost_values d (l : list (string * DeviceInfo)) :
  (forall k info, (k, info) ∈ l -> deviceId info = k) ->
  count (is_lost d) (map deviceLost (JsMap.values l))
  = length (filter (fun e => e.1 = d) l).
Proof.
  unfold count, JsMap.values.
  induction l as [| [k info] l IH]; intros Hk; [reflexivity |].
  csimpl. rewrite filter_cons. cbn [fst].
  rewrite (Hk k info) by left.
  assert (IH' := IH (fun k' i' H => Hk k' i' (list_elem_of_further _ _ _ H))).
  destruct (decide (k = d)) as [-> | NE].
  - rewrite String.eqb_refl. cbn [length]. f_equal. exact IH'.
  - apply String.eqb_neq in NE. rewrite NE. exact IH'.
Qed.

Section Balance.
Variable JSON_parse : list byte -> option Message.

Lemma step_balance d self i :
  JsMap.wf (devices self) ->
  (forall k info, (k, info) ∈ devices self -> deviceId info = k) ->
  not_stop i ->
  let r := step JSON_parse self i in
  (count (is_found d) r.2 + Nat.b2n (JsMap.has d (devices self)))%nat
  = (count (is_lost d) r.2 + Nat.b2n (JsMap.has d (devices r.1)))%nat.
Proof.
  intros Hwf Hk Hi.
  destruct i; cbn [step]; try contradiction.
  - unfold start. destruct (isRunning self); reflexivity.
  - reflexivity.
  - reflexivity.
  - destruct (socket self); [| reflexivity].
    unfold startBroadcasting. cbn [fst snd devices].
    rewrite !count_broadcast by reflexivity. reflexivity.
  - destruct (socket self); [| reflexivity].
    unfold handleMessage.
    destruct (JSON_parse msg) as [data |]; [| reflexivity].
    destruct (negb _); [reflexivity |].
    destruct (bool_decide _); [reflexivity |].
    cbn [fst snd devices set_devices].
    rewrite !count_app.
    destruct (decide (msg_deviceId data = d)) as [<- | NE].
    + rewrite JsMapFacts.has_set.
      destruct (JsMap.has (msg_deviceId data) (devices self)); cbn.
      * reflexivity.
      * unfold count. cbn. rewrite String.eqb_refl. reflexivity.
    + assert (Hh : JsMap.has d (JsMap.set (msg_deviceId data)
                       {| deviceId := msg_deviceId data;
                          deviceName := msg_deviceName data;
                          email := msg_email data; ip := rinfo_address;
                          lastSeen := now |} (devices self))
                   = JsMap.has d (devices self)).
      { unfold JsMap.has. rewrite JsMapFacts.get_set_ne by exact NE.
        reflexivity. }
      rewrite Hh.
      destruct (negb (JsMap.has (msg_deviceId data) (devices self))); cbn.
      * unfold count. cbn. apply String.eqb_neq in NE. rewrite NE.
        reflexivity.
      * reflexivity.
  - destruct (broadcastInterval self); [| reflexivity].
    cbn [fst snd]. rewrite !count_broadcast by reflexivity. reflexivity.
  - destruct (cleanupInterval self); [| reflexivity].
    pose proof (cleanup_devices self now Hwf) as Hd.
    rewrite cleanupStaleDevices_spec in Hd |- *. cbv zeta in Hd |- *.
    cbn [fst snd] in Hd |- *. rewrite Hd. rewrite !count_app.
    assert (Hu : forall f, (forall l, f (devicesUpdated l) = false) ->
              count f (if bool_decide (stale_entries now (devices self) <> [])
                       then [devicesUpdated
                               (getDeviceList
                                  (set_devices
                                     (filter (fun e => e.1 ∉ JsMap.keys
                                        (stale_entries now (devices self)))
                                        (devices self)) self))]
                       else []) = 0%nat).
    { intros f Hf. destruct (bool_decide _); [| reflexivity].
      unfold count. cbn. rewrite Hf. reflexivity. }
    rewrite !Hu by reflexivity.
    assert (Hf0 : count (is_found d)
                    (map deviceLost
                       (JsMap.values (stale_entries now (devices self))))
                  = 0%nat).
    { unfold count. induction (JsMap.values _) as [| x l IH];
        [reflexivity | exact IH]. }
    rewrite Hf0.
    rewrite count_lost_values.
    2:{ intros k info Hin. apply list_elem_of_filter in Hin as [_ Hin].
        apply (Hk k info Hin). }
    unfold stale_entries. rewrite list_filter_filter.
    rewrite (list_filter_iff _ (fun e => stale now e.2 /\ e.1 = d))
      by (intros x; tauto).
    rewrite <- list_filter_filter.
    rewrite (JsMapFacts.entries_of_key d (devices self) Hwf).
    unfold JsMap.has.
    rewrite (get_filter _ d (devices self) Hwf).
    destruct (JsMap.get d (devices self)) as [v |]; [| reflexivity].
    rewrite filter_cons, filter_nil. cbn [snd].
    destruct (decide (stale now v)) as [Hs | Hs].
    + rewrite decide_False by tauto. reflexivity.
    + rewrite decide_True by exact Hs. reflexivity.
Qed.

End Balance.

(** X8. Over every run from the constructor in which [stop] is not
    called, the number of [deviceFound] events of a device is the number
    of its [deviceLost] events, plus one if the device is in the table
    at the end. *)
Theorem found_and_lost_balance
    (JSON_parse : list byte -> option Message) (inputs : list Input)
    (d : string) :
  Forall not_stop inputs ->
  let r := run JSON_parse constructor inputs in
  count (is_found d) r.2
  = (count (is_lost d) r.2 + Nat.b2n (JsMap.has d (devices r.1)))%nat.
Proof.
  intros Hall r.
  assert (G : forall self,
             JsMap.wf (devices self) -> self_excluded self ->
             (count (is_found d) (run JSON_parse self inputs).2
              + Nat.b2n (JsMap.has d (devices self)))%nat
             = (count (is_lost d) (run JSON_parse self inputs).2
                + Nat.b2n (JsMap.has d
                             (devices (run JSON_parse self inputs).1)))%nat).
  { clear r. induction inputs as [| i inputs IH]; intros self Hwf Inv.
    - reflexivity.
    - apply Forall_cons in Hall as [Hi Hall]. cbn [run].
      pose proof (step_balance JSON_parse d self i Hwf
                    (fun k info H => proj1 (proj1 Inv k info H)) Hi) as Hb.
      pose proof (step_wf JSON_parse self i Hwf) as Hwf1.
      pose proof (step_self_excluded JSON_parse self i Inv) as Inv1.
      destruct (step JSON_parse self i) as [self1 out1].
      cbn [fst snd] in *.
      specialize (IH Hall self1 Hwf1 Inv1).
      destruct (run JSON_parse self1 inputs) as [self2 out2].
      cbn [fst snd] in *. rewrite !count_app. lia. }
  specialize (G constructor ltac:(apply NoDup_nil_2) constructor_self_excluded).
  fold r in G. cbn in G. lia.
Qed.

Lemma found_and_lost_balance_witness :
  let r := run sample_parse constructor
               [CallStart "B1" "beta" (Some "b@x");
                OnMessage [x41] "10.0.0.5" 1000; CleanupTick 11001;
                OnMessage [x41; x32] "10.0.0.6" 12000] in
  count (is_found "A1") r.2 = 2%nat /\ count (is_lost "A1") r.2 = 1%nat.
Proof.
  pose proof (found_and_lost_balance sample_parse
                [CallStart "B1" "beta" (Some "b@x");
                 OnMessage [x41] "10.0.0.5" 1000; CleanupTick 11001;
                 OnMessage [x41; x32] "10.0.0.6" 12000] "A1") as H.
  cbv zeta in H.
  assert (Hl : count (is_lost "A1")
                 (run sample_parse constructor
                    [CallStart "B1" "beta" (Some "b@x");
                     OnMessage [x41] "10.0.0.5" 1000; CleanupTick 11001;
                     OnMessage [x41; x32] "10.0.0.6" 12000]).2 = 1%nat)
    by reflexivity.
  split; [| exact Hl].
  rewrite H by (repeat constructor). rewrite Hl. reflexivity.
Defined.

End DeviceTableFacts.

(** ** The delimiter *)

Module WireFacts.
Import Transfer.

Lemma eqb_x00 (x : byte) : Byte.eqb x x00 = true <-> x = x00.
Proof.
  split; [apply Byte.byte_dec_bl | intros ->; reflexivity].
Qed.

Lemma indexOf0_None (b : list byte) : indexOf0 b = None <-> x00 ∉ b.
Proof.
  induction b as [| x b IH]; simpl.
  - split; [intros _; apply not_elem_of_nil | reflexivity].
  - destruct (Byte.eqb x x00) eqn:E.
    + apply eqb_x00 in E. subst x. split; [discriminate |].
      intros H. exfalso. apply H. left.
    + rewrite not_elem_of_cons. destruct (indexOf0 b); simpl.
      * split; [discriminate |]. intros [_ H]. apply IH in H. discriminate.
      * split; [| reflexivity]. intros _. split; [| apply IH; reflexivity].
        intros <-. discriminate.
Qed.

Lemma indexOf0_Some (b : list byte) :
  forall i : nat,
  indexOf0 b = Some i ->
  exists rest,
    b = take i b ++ x00 :: rest /\ (x00 ∉ take i b) /\ length (take i b) = i.
Proof.
  induction b as [| x b IH]; intros i; simpl; [discriminate |].
  destruct (Byte.eqb x x00) eqn:E.
  - apply eqb_x00 in E. subst x. intros [= <-]. exists b. simpl.
    split; [reflexivity |]. split; [apply not_elem_of_nil | reflexivity].
  - destruct (indexOf0 b) as [j |]; simpl; [| discriminate].
    intros [= <-]. destruct (IH j eq_refl) as (rest & H & Hn & Hl).
    exists rest. simpl. split; [f_equal; exact H |].
    split; [| f_equal; exact Hl].
    rewrite not_elem_of_cons. split; [| exact Hn].
    intros <-. discriminate.
Qed.

(** The first NUL of [h ++ x00 :: rest] ends a NUL-free [h]. *)
Lemma indexOf0_frame (h rest : list byte) :
  x00 ∉ h -> indexOf0 (h ++ x00 :: rest) = Some (length h).
Proof.
  induction h as [| x h IH]; simpl; [reflexivity |].
  rewrite not_elem_of_cons. intros [Hx Hn].
  destruct (Byte.eqb x x00) eqn:E.
  - apply eqb_x00 in E. congruence.
  - rewrite (IH Hn). reflexivity.
Qed.

Lemma indexOf0_app_Some (a b : list byte) (i : nat) :
  indexOf0 a = Some i ->
  indexOf0 (a ++ b) = Some i
  /\ take i (a ++ b) = take i a
  /\ drop (S i) (a ++ b) = drop (S i) a ++ b.
Proof.
  intros H. apply indexOf0_Some in H as (rest & H & Hn & Hl).
  assert (S i <= length a)%nat as Hlt.
  { rewrite H, length_app, Hl. simpl. lia. }
  split; [| split].
  - rewrite H, <- app_assoc. simpl. rewrite <- Hl at 2.
    apply indexOf0_frame, Hn.
  - apply take_app_le. lia.
  - apply drop_app_le. lia.
Qed.

Lemma indexOf0_app_None (a b : list byte) :
  indexOf0 a = None ->
  indexOf0 (a ++ b) = (fun j => (length a + j)%nat) <$> indexOf0 b.
Proof.
  intros H. induction a as [| x a IH]; simpl in *.
  - destruct (indexOf0 b); reflexivity.
  - destruct (Byte.eqb x x00); [discriminate |].
    destruct (indexOf0 a) eqn:E; [discriminate |].
    rewrite IH by reflexivity. destruct (indexOf0 b); reflexivity.
Qed.

End WireFacts.

(** ** The receiving side, from the offer to the file *)

Module ReceiverFacts.
Import JsNumber Transfer TransferStates WireFacts TransferFacts.

Lemma on_socket_id s f self c :
  sockets self !! s = Some c -> f c = c -> on_socket s f self = self.
Proof.
  intros Hc Hf. unfold on_socket.
  rewrite alter_id by (intros x Hx; congruence).
  destruct self; reflexivity.
Qed.

Lemma on_socket_on_socket s f g self :
  on_socket s f (on_socket s g self) = on_socket s (f ∘ g) self.
Proof.
  unfold on_socket. cbn [sockets set_sockets].
  rewrite alter_alter_eq. reflexivity.
Qed.

Lemma on_socket_ext s f g self :
  (forall c, sockets self !! s = Some c -> f c = g c) ->
  on_socket s f self = on_socket s g self.
Proof.
  intros H. unfold on_socket. rewrite (alter_ext f g) by exact H. reflexivity.
Qed.

Section Header.
Variable JSON_parse : list byte -> option TransferInfo.
Variable path_join : string -> string -> string.

(** A segment that leaves the header unfinished is appended to the
    buffer of the socket. *)
Lemma step_data_buffering self s c chunk :
  sockets self !! s = Some c ->
  paused c = false -> closed c = false ->
  headerReceived c = false -> receiver c = None ->
  indexOf0 (buffer c ++ chunk) = None ->
  step JSON_parse path_join self (OnData s chunk)
  = (on_socket s (set_buffer (buffer c ++ chunk)) self, []).
Proof.
  intros Hc Hp Hcl Hh Hr Hi. cbn [step]. unfold flowing.
  rewrite Hc, Hp, Hcl. cbn [negb andb]. unfold socket_on_data.
  unfold incoming_on_data. rewrite Hc, Hh, Hi.
  rewrite (accept_on_data_no_receiver _ s (set_buffer (buffer c ++ chunk) c)).
  - reflexivity.
  - rewrite lookup_on_socket_eq, Hc. reflexivity.
  - exact Hr.
Qed.

Lemma run_data_buffering cs :
  forall self c s,
  sockets self !! s = Some c ->
  paused c = false -> closed c = false ->
  headerReceived c = false -> receiver c = None ->
  indexOf0 (buffer c ++ concat cs) = None ->
  run JSON_parse path_join self (map (OnData s) cs)
  = (on_socket s (set_buffer (buffer c ++ concat cs)) self, []).
Proof.
  induction cs as [| chunk cs IH]; intros self c s Hc Hp Hcl Hh Hr Hi.
  - simpl. rewrite app_nil_r.
    rewrite (on_socket_id s _ self c Hc) by (destruct c; reflexivity).
    reflexivity.
  - cbn [map run concat] in *. rewrite app_assoc in Hi.
    assert (Hi1 : indexOf0 (buffer c ++ chunk) = None).
    { apply indexOf0_None. apply indexOf0_None in Hi.
      intros Hin. apply Hi, elem_of_app. left. exact Hin. }
    rewrite (step_data_buffering self s c chunk Hc Hp Hcl Hh Hr Hi1).
    rewrite (IH _ (set_buffer (buffer c ++ chunk) c) s);
      try assumption.
    + cbn [buffer set_buffer]. rewrite on_socket_on_socket.
      rewrite <- app_assoc.
      rewrite (on_socket_ext s _ (set_buffer (buffer c ++ chunk ++ concat cs)))
        by reflexivity.
      reflexivity.
    + rewrite lookup_on_socket_eq, Hc. reflexivity.
Qed.

(** A header that arrives in segments: the offer is made at the
    segment that holds the delimiter, with the bytes behind it. *)
Lemma header_segments self s c cs h i info :
  sockets self !! s = Some c ->
  paused c = false -> closed c = false ->
  headerReceived c = false -> receiver c = None ->
  indexOf0 (buffer c ++ concat cs) = None ->
  indexOf0 (buffer c ++ concat cs ++ h) = Some i ->
  JSON_parse (take i (buffer c ++ concat cs ++ h)) = Some info ->
  let self1 := on_socket s (set_buffer (buffer c ++ concat cs)) self in
  let c1 := set_buffer (buffer c ++ concat cs) c in
  run JSON_parse path_join self (map (OnData s) (cs ++ [h]))
  = (offered self1 s c1 h i info,
     [transferRequest (senderEmail info) (fileName info) (fileSize info)
        (transferId info)]).
Proof.
  intros Hc Hp Hcl Hh Hr Hn Hi Hj self1 c1.
  rewrite map_app, run_app. cbv zeta.
  rewrite (run_data_buffering cs self c s Hc Hp Hcl Hh Hr Hn).
  cbn [fst snd map run]. fold self1.
  assert (Hc1 : sockets self1 !! s = Some c1).
  { subst self1 c1. rewrite lookup_on_socket_eq, Hc. reflexivity. }
  rewrite (step_data_header JSON_parse path_join self1 s c1 h i info Hc1);
    try assumption.
  - reflexivity.
  - subst c1. cbn [buffer set_buffer]. rewrite <- app_assoc. exact Hi.
  - subst c1. cbn [buffer set_buffer]. rewrite <- app_assoc. exact Hj.
Qed.

End Header.

Lemma delete_delete {V} (k : string) (m : list (string * V)) :
  JsMap.delete k (JsMap.delete k m) = JsMap.delete k m.
Proof.
  unfold JsMap.delete. rewrite list_filter_filter.
  apply list_filter_iff. intros x. tauto.
Qed.



Lemma Zlength_bytes_app (a b : list byte) :
  Zlength_bytes (a ++ b) = Zlength_bytes a + Zlength_bytes b.
Proof. unfold Zlength_bytes. rewrite length_app. lia. Qed.


Lemma reached_within total chunks :
  forall received,
  received + Zlength_bytes (concat chunks) < total ->
  0 <= received ->
  reached total received chunks = false.
Proof.
  unfold reached.
  induction chunks as [| c chunks IH]; intros received H H0; simpl;
    [reflexivity |].
  simpl in H. rewrite Zlength_bytes_app in H.
  pose proof (Zlength_bytes_nonneg c).
  pose proof (Zlength_bytes_nonneg (concat chunks)).
  rewrite IH by lia.
  rewrite orb_false_r. apply Z.leb_gt. lia.
Qed.


Section Data.
Variable JSON_parse : list byte -> option TransferInfo.
Variable path_join : string -> string -> string.

(** The state after a chunk of an accepted transfer. *)
Lemma step_data_receiving_eq self s c r chunk :
  sockets self !! s = Some c ->
  paused c = false -> closed c = false ->
  headerReceived c = true -> receiver c = Some r ->
  let self1 := on_socket s (set_buffer (buffer c ++ chunk)) self in
  let self2 := fileStream_write (r_fileStream r) chunk self1 in
  let r' := bump (Zlength_bytes chunk) r in
  let self3 := on_socket s (set_receiver (Some r')) self2 in
  let total := fileSize (r_transferInfo r) in
  let ev := emitProgress (r_transferId r) (r_receivedBytes r') total
              "receiving" in
  step JSON_parse path_join self (OnData s chunk)
  = if total <=? r_receivedBytes r'
    then (set_activeTransfers
            (JsMap.delete (r_transferId r)
               (activeTransfers (fileStream_end (r_fileStream r) self3)))
            (fileStream_end (r_fileStream r) self3),
          [ev; transferComplete (r_transferId r) (r_filePath r)
                 (fileName (r_transferInfo r))])
    else (self3, [ev]).
Proof.
  intros Hc Hp Hcl Hh Hr self1 self2 r' self3 total ev.
  cbn [step]. unfold flowing. rewrite Hc, Hp, Hcl. cbn [negb andb].
  unfold socket_on_data.
  rewrite (incoming_on_data_after_header JSON_parse self s c chunk Hc Hh).
  fold self1.
  assert (Hc1 : sockets self1 !! s = Some (set_buffer (buffer c ++ chunk) c)).
  { subst self1. rewrite lookup_on_socket_eq, Hc. reflexivity. }
  unfold accept_on_data. rewrite Hc1. cbn [receiver set_buffer]. rewrite Hr.
  cbn [r_fileStream r_transferInfo r_transferId r_filePath r_receivedBytes bump].
  fold self2. subst r'. cbn [bump r_receivedBytes]. fold total.
  destruct (total <=? r_receivedBytes r + Zlength_bytes chunk); reflexivity.
Qed.

Lemma step_data_receiving_frame self s r w f chunk :
  receiving self s r w f ->
  let res := step JSON_parse path_join self (OnData s chunk) in
  let received := r_receivedBytes r + Zlength_bytes chunk in
  let total := fileSize (r_transferInfo r) in
  activeTransfers res.1
  = (if total <=? received
     then JsMap.delete (r_transferId r) (activeTransfers self)
     else activeTransfers self)
  /\ pendingTransfer res.1 = pendingTransfer self
  /\ (forall path', path' <> r_filePath r ->
        files res.1 !! path' = files self !! path').
Proof.
  intros [c [Hc [Hp [Hcl [Hh [Hr [Hs Hf]]]]]]] res received total.
  subst res.
  rewrite (step_data_receiving_eq self s c r chunk Hc Hp Hcl Hh Hr).
  cbv zeta. cbn [bump r_receivedBytes]. fold received total.
  set (self1 := on_socket s (set_buffer (buffer c ++ chunk)) self).
  destruct (fileStream_write_frame (r_fileStream r) chunk self1)
    as (_ & _ & Fp & Fa & _).
  assert (Hs1 : streams self1 !! r_fileStream r
                = Some {| ws_path := r_filePath r; writable := w |})
    by exact Hs.
  pose proof (fileStream_write_files (r_fileStream r) chunk self1 _ Hs1)
    as Ffi. cbn [writable ws_path] in Ffi.
  assert (Hfiles : forall path', path' <> r_filePath r ->
            files (fileStream_write (r_fileStream r) chunk self1) !! path'
            = files self !! path').
  { intros path' Hne. rewrite Ffi. destruct w; [| reflexivity].
    rewrite lookup_alter_ne by congruence. reflexivity. }
  destruct (total <=? received); cbn [fst snd].
  - cbn [activeTransfers pendingTransfer files set_activeTransfers
         fileStream_end set_streams on_socket set_sockets].
    rewrite Fa, Fp. auto.
  - cbn [activeTransfers pendingTransfer files on_socket set_sockets].
    rewrite Fa, Fp. auto.
Qed.

Lemma run_data_receiving_frame chunks :
  forall self s r w f,
  receiving self s r w f ->
  let res := run JSON_parse path_join self (map (OnData s) chunks) in
  let total := fileSize (r_transferInfo r) in
  activeTransfers res.1
  = (if reached total (r_receivedBytes r) chunks
     then JsMap.delete (r_transferId r) (activeTransfers self)
     else activeTransfers self)
  /\ pendingTransfer res.1 = pendingTransfer self
  /\ (forall path', path' <> r_filePath r ->
        files res.1 !! path' = files self !! path').
Proof.
  induction chunks as [| c chunks IH]; intros self s r w f Hrec;
    cbn [map run].
  - cbn. auto.
  - pose proof (step_data_receiving JSON_parse path_join self s r w f c Hrec)
      as [_ Hrec1].
    pose proof (step_data_receiving_frame self s r w f c Hrec)
      as (Ha1 & Hp1 & Hf1).
    destruct (step JSON_parse path_join self (OnData s c)) as [self1 ev1].
    cbn [fst snd] in *.
    specialize (IH self1 s _ _ _ Hrec1).
    destruct (run JSON_parse path_join self1 (map (OnData s) chunks))
      as [self2 ev2].
    cbn [fst snd bump r_receivedBytes r_transferInfo r_transferId r_filePath]
      in *.
    destruct IH as (Ha2 & Hp2 & Hf2).
    split; [| split].
    + rewrite Ha2, Ha1. unfold reached. cbn [cumulative existsb].
      fold (reached (fileSize (r_transferInfo r))
              (r_receivedBytes r + Zlength_bytes c) chunks).
      destruct (fileSize (r_transferInfo r)
                <=? r_receivedBytes r + Zlength_bytes c);
        destruct (reached _ _ chunks); cbn [orb];
        rewrite ?delete_delete; reflexivity.
    + congruence.
    + intros path' Hne. rewrite Hf2, Hf1 by exact Hne. reflexivity.
Qed.

(** What [acceptTransfer] leaves in the tables. *)
Lemma accepted_frame self p :
  activeTransfers (accepted path_join self p)
  = JsMap.set (transferId (p_transferInfo p))
      {| fileStream := next_stream self;
         filePath := path_join (receivePath self) (fileName (p_transferInfo p));
         totalSize := fileSize (p_transferInfo p); receivedBytes := 0 |}
      (activeTransfers self)
  /\ pendingTransfer (accepted path_join self p) = None
  /\ (forall path',
        path' <> path_join (receivePath self) (fileName (p_transferInfo p)) ->
        files (accepted path_join self p) !! path' = files self !! path').
Proof.
  unfold accepted.
  set (path := path_join (receivePath self) (fileName (p_transferInfo p))).
  split; [| split].
  - cbn -[JsMap.set]. destruct (0 <? Zlength_bytes (p_buffer p)).
    + rewrite (proj1 (proj2 (proj2 (proj2 (fileStream_write_frame _ _ _))))).
      reflexivity.
    + reflexivity.
  - reflexivity.
  - intros path' Hne.
    cbn [files set_pendingTransfer on_socket set_sockets].
    destruct (0 <? Zlength_bytes (p_buffer p)).
    + erewrite fileStream_write_files.
      2:{ cbn [streams set_activeTransfers createWriteStream fst set_files
                 set_streams on_socket set_sockets next_stream].
          apply lookup_insert_eq. }
      cbn [writable ws_path]. rewrite lookup_alter_ne by congruence.
      cbn. rewrite lookup_insert_ne by congruence. reflexivity.
    + cbn. rewrite lookup_insert_ne by congruence. reflexivity.
Qed.

Lemma busy_accepted self p f :
  files (accepted path_join self p)
    !! path_join (receivePath self) (fileName (p_transferInfo p)) = Some f ->
  busy f = match files self
                 !! path_join (receivePath self) (fileName (p_transferInfo p))
           with
           | Some old => busy old
           | None => false
           end.
Proof.
  unfold accepted.
  cbn [files set_pendingTransfer on_socket set_sockets].
  set (self3 := set_activeTransfers _ _).
  set (path := path_join (receivePath self) (fileName (p_transferInfo p))).
  assert (E : exists f0,
             files self3 !! path = Some f0
             /\ busy f0 = match files self !! path with
                          | Some old => busy old
                          | None => false
                          end).
  { subst self3. cbn. eexists. split; [apply lookup_insert_eq | reflexivity]. }
  assert (S3 : streams self3 !! next_stream self
               = Some {| ws_path := path; writable := true |}).
  { subst self3. cbn. apply lookup_insert_eq. }
  destruct E as [f0 [E0 B0]].
  destruct (0 <? Zlength_bytes (p_buffer p)).
  - rewrite (fileStream_write_files _ _ self3 _ S3). cbn [writable ws_path].
    rewrite lookup_alter_eq, E0. cbn. intros [= <-]. exact B0.
  - rewrite E0. intros [= <-]. exact B0.
Qed.

Lemma run_data_receiving_exact chunks :
  forall self s r w f,
  receiving self s r w f ->
  let res := run JSON_parse path_join self (map (OnData s) chunks) in
  let total := fileSize (r_transferInfo r) in
  receiving res.1 s
    {| r_transferId := r_transferId r; r_transferInfo := r_transferInfo r;
       r_filePath := r_filePath r; r_fileStream := r_fileStream r;
       r_receivedBytes := r_receivedBytes r + Zlength_bytes (concat chunks) |}
    (w && negb (reached total (r_receivedBytes r) chunks))
    {| content := content f
                  ++ written_chunks w total (r_receivedBytes r) chunks;
       busy := busy f |}.
Proof.
  induction chunks as [| c chunks IH]; intros self s r w f Hrec;
    cbn [map run].
  - cbn. unfold reached, Zlength_bytes. cbn.
    rewrite Z.add_0_r, app_nil_r, andb_true_r.
    destruct r, f. exact Hrec.
  - pose proof (step_data_receiving JSON_parse path_join self s r w f c Hrec)
      as [_ Hrec1].
    destruct (step JSON_parse path_join self (OnData s c)) as [self1 ev1].
    cbn [fst snd] in *.
    specialize (IH self1 s _ _ _ Hrec1).
    destruct (run JSON_parse path_join self1 (map (OnData s) chunks))
      as [self2 ev2].
    cbn [fst snd bump r_receivedBytes r_transferInfo r_transferId r_filePath
         r_fileStream concat written_chunks] in *.
    unfold reached in *. cbn [cumulative existsb].
    rewrite Zlength_bytes_app, Z.add_assoc.
    rewrite negb_orb, andb_assoc.
    replace (content f ++ (if w then c else [])
               ++ written_chunks
                    (w && negb (fileSize (r_transferInfo r)
                                <=? r_receivedBytes r + Zlength_bytes c))
                    (fileSize (r_transferInfo r))
                    (r_receivedBytes r + Zlength_bytes c) chunks)
      with (content (if w then append c f else f)
              ++ written_chunks
                   (w && negb (fileSize (r_transferInfo r)
                               <=? r_receivedBytes r + Zlength_bytes c))
                   (fileSize (r_transferInfo r))
                   (r_receivedBytes r + Zlength_bytes c) chunks)
      by (destruct w; cbn; rewrite <- ?app_assoc; reflexivity).
    replace (busy f) with (busy (if w then append c f else f))
      by (destruct w; reflexivity).
    exact IH.
Qed.

End Data.

Section Reachable.
Variable JSON_parse : list byte -> option TransferInfo.
Variable path_join : string -> string -> string.

Lemma ack_not_nil (w : list byte) (b : bool) : w ++ ack b <> [].
Proof. destruct w; destruct b; discriminate. Qed.

Lemma step_unanswered self i :
  offer_wf self -> unanswered self ->
  unanswered (step JSON_parse path_join self i).1.
Proof.
  intros [W1 W2] U.
  destruct i as [s | s chunk | s | id | id | id]; cbn [step].
  - destruct (sockets self !! s) as [c' |] eqn:E; [exact U |].
    cbn [fst]. unfold handleIncomingConnection, unanswered.
    cbn [sockets set_sockets]. intros s' c.
    destruct (decide (s = s')) as [<- | NE].
    + rewrite lookup_insert_eq. intros [= <-] _. reflexivity.
    + rewrite lookup_insert_ne by exact NE. apply U.
  - destruct (flowing self s) eqn:F; [| exact U].
    unfold flowing in F.
    destruct (sockets self !! s) as [c |] eqn:Hc; [| discriminate].
    unfold socket_on_data.
    destruct (incoming_on_data_frame JSON_parse self s chunk) as [I1 _].
    destruct (incoming_on_data_at JSON_parse self s c chunk Hc)
      as [c1 [Hc1 [Hw1 [Hr1 _]]]].
    destruct (incoming_on_data JSON_parse self s chunk) as [self1 ev1].
    cbn [fst] in I1, Hc1.
    destruct (accept_on_data_frame self1 s chunk) as [A1 _].
    destruct (accept_on_data_at self1 s c1 chunk Hc1)
      as [c2 [Hc2 [Hw2 [_ [_ Hr2]]]]].
    destruct (accept_on_data self1 s chunk) as [self2 ev2].
    cbn [fst] in *. intros s' c' Hc' Hw'.
    destruct (decide (s = s')) as [<- | NE].
    + rewrite Hc2 in Hc'. injection Hc' as <-.
      apply Hr2. rewrite Hr1. apply (U s c Hc). congruence.
    + rewrite A1, I1 in Hc' by exact NE. apply (U s' c' Hc' Hw').
  - destruct (sockets self !! s) as [c |] eqn:Hc; [| exact U].
    destruct (closed c); [exact U |].
    unfold socket_on_close.
    destruct (accept_on_close_frame self s) as [C1 _].
    destruct (accept_on_close self s) as [self1 ev1]. cbn [fst] in *.
    intros s' c' Hc' Hw'.
    destruct (decide (s = s')) as [<- | NE].
    + rewrite lookup_on_socket_eq, C1, Hc in Hc'. injection Hc' as <-.
      apply (U s c Hc Hw').
    + rewrite lookup_on_socket_ne, C1 in Hc' by exact NE.
      apply (U s' c' Hc' Hw').
  - destruct (acceptTransfer path_join self id) as [[self1 ev1] b] eqn:A.
    cbn [fst]. destruct b as [[|] | e].
    + assert (Ht : (acceptTransfer path_join self id).2 = Return true)
        by (rewrite A; reflexivity).
      apply acceptTransfer_true_iff in Ht as [p [P <-]].
      rewrite (acceptTransfer_pending path_join self p P) in A.
      injection A as <- _.
      intros s' c'. rewrite sockets_accepted.
      destruct (W1 p P) as [c0 [Hc0 _]].
      destruct (decide (p_socket p = s')) as [<- | NE].
      * rewrite !lookup_alter_eq, Hc0. cbn. intros [= <-]. cbn.
        intros Hw. exfalso. exact (ack_not_nil (written c0) true Hw).
      * rewrite !lookup_alter_ne by exact NE. apply U.
    + assert (Hf : (acceptTransfer path_join self id).2 = Return false)
        by (rewrite A; reflexivity).
      rewrite (acceptTransfer_false path_join self id Hf) in A.
      injection A as <- _. exact U.
    + assert (Hf : (acceptTransfer path_join self id).2 = Throw e)
        by (rewrite A; reflexivity).
      rewrite (acceptTransfer_throws path_join self id e Hf) in A.
      injection A as <- _. exact U.
  - destruct (rejectTransfer self id) as [self1 b] eqn:R.
    cbn [fst]. destruct b as [[|] | e].
    + assert (Ht : (rejectTransfer self id).2 = Return true)
        by (rewrite R; reflexivity).
      apply rejectTransfer_true_iff in Ht as [p [P <-]].
      rewrite (rejectTransfer_pending self p P) in R.
      injection R as <-.
      intros s' c'. cbn [sockets set_pendingTransfer].
      destruct (W1 p P) as [c0 [Hc0 _]].
      destruct (decide (p_socket p = s')) as [<- | NE].
      * rewrite !lookup_on_socket_eq, Hc0. cbn. intros [= <-]. cbn.
        intros Hw. exfalso. exact (ack_not_nil (written c0) false Hw).
      * rewrite !lookup_on_socket_ne by exact NE. apply U.
    + assert (Hf : (rejectTransfer self id).2 = Return false)
        by (rewrite R; reflexivity).
      rewrite (rejectTransfer_false self id Hf) in R.
      injection R as <-. exact U.
    + assert (Hf : (rejectTransfer self id).2 = Throw e)
        by (rewrite R; reflexivity).
      rewrite (rejectTransfer_throws self id e Hf) in R.
      injection R as <-. exact U.
  - destruct (cancelTransfer_frame self id) as [C1 _].
    destruct (cancelTransfer self id) as [[self1 ev1] b]. cbn [fst] in *.
    unfold unanswered. rewrite C1. exact U.
Qed.

Lemma run_unanswered inputs :
  forall self, offer_wf self -> unanswered self ->
  unanswered (run JSON_parse path_join self inputs).1.
Proof.
  induction inputs as [| i inputs IH]; intros self W U; [exact U |].
  cbn [run]. pose proof (step_unanswered self i W U) as U1.
  pose proof (step_offer_wf JSON_parse path_join self i W) as W1.
  destruct (step JSON_parse path_join self i) as [self1 ev1].
  cbn [fst] in U1, W1. specialize (IH self1 W1 U1).
  destruct (run JSON_parse path_join self1 inputs) as [self2 ev2]. exact IH.
Qed.

Lemma constructor_unanswered receivePath disk :
  unanswered (constructor receivePath disk).
Proof. intros s c H. cbn in H. rewrite lookup_empty in H. discriminate. Qed.

(** A file that is not there is made by [acceptTransfer] only. *)
Lemma fileStream_write_absent h data self path :
  files self !! path = None ->
  files (fileStream_write h data self) !! path = None.
Proof.
  intros H. unfold fileStream_write.
  destruct (streams self !! h) as [ws |]; [| exact H].
  destruct (writable ws); [| exact H].
  cbn [files set_files].
  destruct (decide (ws_path ws = path)) as [-> | NE].
  - rewrite lookup_alter_eq, H. reflexivity.
  - rewrite lookup_alter_ne by exact NE. exact H.
Qed.

Lemma incoming_on_data_files self s chunk :
  files (incoming_on_data JSON_parse self s chunk).1 = files self.
Proof.
  unfold incoming_on_data.
  destruct (sockets self !! s) as [c |]; [| reflexivity].
  destruct (headerReceived c); [reflexivity |].
  destruct (indexOf0 _); [| reflexivity].
  destruct (JSON_parse _); [| destruct (is_json_null _)]; reflexivity.
Qed.

Lemma step_files_absent self i path :
  files self !! path = None -> not_accept i ->
  files (step JSON_parse path_join self i).1 !! path = None.
Proof.
  intros H Hi.
  destruct i as [s | s chunk | s | id | id | id]; cbn [step];
    try contradiction.
  - destruct (sockets self !! s); exact H.
  - destruct (flowing self s); [| exact H].
    unfold socket_on_data.
    pose proof (incoming_on_data_files self s chunk) as F1.
    destruct (incoming_on_data JSON_parse self s chunk) as [self1 ev1].
    cbn [fst] in F1. rewrite <- F1 in H.
    unfold accept_on_data.
    destruct (sockets self1 !! s) as [c |]; [| exact H].
    destruct (receiver c) as [r |]; [| exact H].
    pose proof (fileStream_write_absent (r_fileStream r) chunk self1 path H)
      as H2.
    destruct (_ <=? _); exact H2.
  - destruct (sockets self !! s) as [c |]; [| exact H].
    destruct (closed c); [exact H |].
    unfold socket_on_close, accept_on_close.
    destruct (sockets self !! s) as [c1 |]; [| exact H].
    destruct (receiver c1) as [r |]; [| exact H].
    destruct (_ <=? _); exact H.
  - unfold rejectTransfer.
    destruct (pendingTransfer self) as [p |];
      [| destruct (pendingNull self); exact H].
    destruct (negb _); exact H.
  - unfold cancelTransfer.
    destruct (JsMap.get id (activeTransfers self)) as [t |]; [| exact H].
    cbn [fst]. unfold unlinkSync.
    cbn [files fileStream_end set_streams].
    destruct (files self !! filePath t) as [f |] eqn:E; [| exact H].
    destruct (busy f); [exact H |].
    cbn [files set_activeTransfers set_files].
    destruct (decide (filePath t = path)) as [-> | NE].
    + apply lookup_delete_eq.
    + rewrite lookup_delete_ne by exact NE. exact H.
Qed.

Lemma run_files_absent inputs :
  forall self path,
  files self !! path = None -> Forall not_accept inputs ->
  files (run JSON_parse path_join self inputs).1 !! path = None.
Proof.
  induction inputs as [| i inputs IH]; intros self path H Hall;
    [exact H |].
  cbn [run]. inversion Hall as [| ? ? Hi Hrest]; subst.
  pose proof (step_files_absent self i path H Hi) as H1.
  destruct (step JSON_parse path_join self i) as [self1 ev1].
  cbn [fst] in H1. specialize (IH self1 path H1 Hrest).
  destruct (run JSON_parse path_join self1 inputs) as [self2 ev2]. exact IH.
Qed.

End Reachable.

Section Accepted.
Variable JSON_parse : list byte -> option TransferInfo.
Variable path_join : string -> string -> string.

(** An accepted offer, followed by data on its socket. *)
Lemma accept_run self p c chunks :
  offer_wf self ->
  pendingTransfer self = Some p ->
  sockets self !! p_socket p = Some c -> closed c = false ->
  let id := transferId (p_transferInfo p) in
  let total := fileSize (p_transferInfo p) in
  let path := path_join (receivePath self) (fileName (p_transferInfo p)) in
  let buf := Zlength_bytes (p_buffer p) in
  let t := {| fileStream := next_stream self; filePath := path;
              totalSize := total; receivedBytes := 0 |} in
  let a := acceptTransfer path_join self id in
  let r := run JSON_parse path_join a.1.1 (map (OnData (p_socket p)) chunks) in
  a.2 = Return true
  /\ r.2 = receive_events id path (fileName (p_transferInfo p)) total buf
             chunks
  /\ receiving r.1 (p_socket p)
       {| r_transferId := id; r_transferInfo := p_transferInfo p;
          r_filePath := path; r_fileStream := next_stream self;
          r_receivedBytes := buf + Zlength_bytes (concat chunks) |}
       (negb (reached total buf chunks))
       {| content := p_buffer p ++ written_chunks true total buf chunks;
          busy := match files self !! path with
                  | Some old => busy old
                  | None => false
                  end |}
  /\ activeTransfers r.1
     = (if reached total buf chunks
        then JsMap.delete id (JsMap.set id t (activeTransfers self))
        else JsMap.set id t (activeTransfers self))
  /\ pendingTransfer r.1 = None
  /\ (forall path', path' <> path -> files r.1 !! path' = files self !! path').
Proof.
  intros [W1 _] P Hc Hcl. cbv zeta.
  destruct (W1 p P) as (c0 & Hc0 & _ & Hh & _).
  rewrite Hc in Hc0. injection Hc0 as <-.
  rewrite (acceptTransfer_pending path_join self p P).
  cbn [fst snd].
  destruct (accepted_receiving path_join self p c Hc Hcl Hh) as (f & Hrec & Cf).
  assert (Bf : busy f
               = match files self
                       !! path_join (receivePath self)
                            (fileName (p_transferInfo p)) with
                 | Some old => busy old
                 | None => false
                 end).
  { destruct Hrec as (c1 & _ & _ & _ & _ & _ & _ & Hf).
    exact (busy_accepted path_join self p f Hf). }
  destruct (run_data_receiving JSON_parse path_join chunks _ _ _ _ _ Hrec)
    as (Hev & _).
  pose proof (run_data_receiving_exact JSON_parse path_join chunks _ _ _ _ _
                Hrec) as Hex.
  destruct (run_data_receiving_frame JSON_parse path_join chunks _ _ _ _ _
              Hrec) as (Ha & Hp & Hfr).
  destruct (accepted_frame path_join self p) as (Fa & Fp & Ffr).
  cbv zeta in Hev, Hex, Ha.
  cbn [receiver_of r_transferId r_transferInfo r_filePath r_fileStream
       r_receivedBytes] in Hev, Hex, Ha, Hfr.
  rewrite Cf, Bf in Hex. cbn [andb] in Hex.
  split; [reflexivity |]. split; [exact Hev |]. split; [exact Hex |].
  split; [rewrite Ha, Fa; reflexivity |]. split; [congruence |].
  intros path' Hne. rewrite Hfr, Ffr by exact Hne. reflexivity.
Qed.

End Accepted.

Section Silent.
Variable JSON_parse : list byte -> option TransferInfo.
Variable path_join : string -> string -> string.

(** A paused socket without transfer listeners: its events change
    nothing but its own [closed] flag. *)
Lemma run_paused_socket inputs :
  forall st s c,
  sockets st !! s = Some c -> paused c = true -> receiver c = None ->
  Forall (of_socket s) inputs ->
  let q := run JSON_parse path_join st inputs in
  q.2 = []
  /\ pendingTransfer q.1 = pendingTransfer st
  /\ files q.1 = files st
  /\ streams q.1 = streams st
  /\ activeTransfers q.1 = activeTransfers st
  /\ pendingNull q.1 = pendingNull st
  /\ exists c', sockets q.1 !! s = Some c'
                /\ paused c' = true /\ receiver c' = None
                /\ written c' = written c /\ ended c' = ended c.
Proof.
  induction inputs as [| i inputs IH]; intros st s c Hc Hp Hr Hall;
    cbn [run].
  { cbn. repeat split. exists c. auto. }
  apply Forall_cons in Hall as [Hi Hall].
  assert (Hstep : exists c1,
            (step JSON_parse path_join st i).2 = []
            /\ pendingTransfer (step JSON_parse path_join st i).1
               = pendingTransfer st
            /\ files (step JSON_parse path_join st i).1 = files st
            /\ streams (step JSON_parse path_join st i).1 = streams st
            /\ activeTransfers (step JSON_parse path_join st i).1
               = activeTransfers st
            /\ pendingNull (step JSON_parse path_join st i).1
               = pendingNull st
            /\ sockets (step JSON_parse path_join st i).1 !! s = Some c1
            /\ paused c1 = true /\ receiver c1 = None
            /\ written c1 = written c /\ ended c1 = ended c).
  { destruct i as [s' | s' chunk | s' | id | id | id]; cbn in Hi;
      try contradiction; subst s'; cbn [step].
    - unfold flowing. rewrite Hc, Hp. cbn. exists c. auto 12.
    - rewrite Hc. destruct (closed c); [exists c; auto 12 |].
      unfold socket_on_close, accept_on_close. rewrite Hc, Hr.
      cbn [fst snd]. exists (socket_close c).
      rewrite lookup_on_socket_eq, Hc. cbn. auto 12. }
  destruct Hstep
    as (c1 & Hev & Hpe & Hf & Hs & Ha & Hn & Hc1 & Hp1 & Hr1 & Hw1 & He1).
  destruct (step JSON_parse path_join st i) as [st1 ev1].
  cbn [fst snd] in *. subst ev1.
  specialize (IH st1 s c1 Hc1 Hp1 Hr1 Hall).
  destruct (run JSON_parse path_join st1 inputs) as [st2 ev2].
  cbn [fst snd] in *.
  destruct IH
    as (-> & Hpe2 & Hf2 & Hs2 & Ha2 & Hn2 & c2 & Hc2 & Hp2 & Hr2 & Hw2 & He2).
  split; [reflexivity |]. split; [congruence |]. split; [congruence |].
  split; [congruence |]. split; [congruence |]. split; [congruence |].
  exists c2. repeat split; congruence.
Qed.

End Silent.

(** *** The percentage at the ends *)

Lemma percent_ge_100 (a t : Z) : 0 < t -> t <= a -> 100 <= percent a t.
Proof.
  intros Ht Hat. unfold percent.
  change 100 with (Qfloor (100 + (1 # 2))). apply Qfloor_resp_le.
  apply Qplus_le_l.
  apply Qle_trans with (round64 100);
    [apply Qle_lteq; right; symmetry; exact JsNumberFacts.round64_hundred |].
  apply JsNumberFacts.round64_mono; [discriminate |].
  apply Qle_trans with (1 * 100)%Q; [discriminate |].
  apply Qmult_le_compat_r; [| discriminate].
  apply Qle_trans with (round64 1);
    [apply Qle_lteq; right; symmetry; exact JsNumberFacts.round64_one |].
  apply JsNumberFacts.round64_mono; [discriminate |].
  apply Qle_shift_div_l; [apply JsNumberFacts.inject_Z_pos, Ht |].
  rewrite Qmult_1_l. rewrite <- Zle_Qle. exact Hat.
Qed.

Lemma percent_full (t : Z) : 0 < t -> percent t t = 100.
Proof.
  intros Ht.
  pose proof (percent_ge_100 t t Ht (Z.le_refl t)).
  pose proof (JsNumberFacts.percent_le_100 t t Ht ltac:(lia) ltac:(lia)). lia.
Qed.

Lemma percent_zero (t : Z) : 0 < t -> percent 0 t = 0.
Proof. intros Ht. destruct t; try lia. reflexivity. Qed.


(** X9. A header may arrive in any number of segments.  On a
    connection that delivers data and has no header yet, nothing is
    emitted while no segment brings the delimiter; the segment that
    brings it, if the text before it parses, emits one [transferRequest]
    and makes the offer, whose buffer is what follows the delimiter in
    that segment; the socket is then paused, nothing has been written to
    it, and files and active transfers are as before. *)
Theorem header_in_segments
    (JSON_parse : list byte -> option TransferInfo)
    (path_join : string -> string -> string)
    (receivePath : string) (disk : gmap string File) (inputs0 : list Input)
    (s : nat) (c : Socket) (cs : list (list byte)) (h : list byte)
    (i : nat) (info : TransferInfo) :
  let self :=
    (run JSON_parse path_join (constructor receivePath disk) inputs0).1 in
  sockets self !! s = Some c ->
  paused c = false -> closed c = false -> headerReceived c = false ->
  indexOf0 (buffer c ++ concat cs) = None ->
  indexOf0 (buffer c ++ concat cs ++ h) = Some i ->
  JSON_parse (take i (buffer c ++ concat cs ++ h)) = Some info ->
  let r := run JSON_parse path_join self (map (OnData s) (cs ++ [h])) in
  r.2 = [transferRequest (senderEmail info) (fileName info) (fileSize info)
           (transferId info)]
  /\ pendingTransfer r.1
     = Some {| p_socket := s; p_transferInfo := info;
               p_buffer := drop (S i) (buffer c ++ concat cs ++ h) |}
  /\ (exists c', sockets r.1 !! s = Some c'
                 /\ paused c' = true /\ headerReceived c' = true
                 /\ written c' = [])
  /\ files r.1 = files self
  /\ activeTransfers r.1 = activeTransfers self.
Proof.
  intros self Hc Hp Hcl Hh Hn Hi Hj r.
  assert (Hwf : offer_wf self).
  { apply run_offer_wf, constructor_offer_wf. }
  destruct (proj2 Hwf s c Hc Hh) as [Hw Hr].
  subst r.
  rewrite (header_segments JSON_parse path_join self s c cs h i info
             Hc Hp Hcl Hh Hr Hn Hi Hj).
  cbn [fst snd].
  set (self1 := on_socket s (set_buffer (buffer c ++ concat cs)) self).
  set (c1 := set_buffer (buffer c ++ concat cs) c).
  assert (Hc1 : sockets self1 !! s = Some c1).
  { subst self1 c1. rewrite lookup_on_socket_eq, Hc. reflexivity. }
  split; [reflexivity |]. split.
  { unfold offered. cbn. rewrite <- app_assoc. reflexivity. }
  split.
  { destruct (offered_socket self1 s c1 h i info Hc1)
      as (c' & Hc' & Hp' & _ & Hh' & Hw' & _).
    exists c'. repeat split; try assumption.
    rewrite Hw'. exact Hw. }
  split; reflexivity.
Qed.

Lemma header_in_segments_witness :
  let r := run sample_parse sample_join sample_connected
               (map (OnData 1%nat) ([[x68]] ++ [[x00; x01]])) in
  r.2 = [transferRequest "a@x" "f.bin" 4 "t1"]
  /\ pendingTransfer r.1
     = Some {| p_socket := 1%nat; p_transferInfo := sample_info;
               p_buffer := [x01] |}.
Proof.
  pose proof (header_in_segments sample_parse sample_join "recv" ∅
                [OnConnection 1%nat] 1%nat new_socket [[x68]] [x00; x01]
                1%nat sample_info) as H.
  cbv zeta in H.
  destruct H as (H1 & H2 & _); try reflexivity.
  split; [exact H1 | exact H2].
Defined.

(** X10. A header on which [JSON.parse] throws (it gives no object
    and the text is not [null]) ends the socket and makes no offer and
    no event, and the files are as before.  The listener goes on
    reading: the socket still delivers data, the bytes behind the
    delimiter stay in the buffer, and a later segment that completes a
    header that parses is offered as on a fresh connection. *)
Theorem malformed_header_ends_socket
    (JSON_parse : list byte -> option TransferInfo)
    (path_join : string -> string -> string)
    (receivePath : string) (disk : gmap string File) (inputs0 : list Input)
    (s : nat) (c : Socket) (chunk : list byte) (i : nat) :
  let self :=
    (run JSON_parse path_join (constructor receivePath disk) inputs0).1 in
  sockets self !! s = Some c ->
  paused c = false -> closed c = false -> headerReceived c = false ->
  indexOf0 (buffer c ++ chunk) = Some i ->
  JSON_parse (take i (buffer c ++ chunk)) = None ->
  is_json_null (take i (buffer c ++ chunk)) = false ->
  let r := step JSON_parse path_join self (OnData s chunk) in
  r.2 = []
  /\ pendingTransfer r.1 = pendingTransfer self
  /\ pendingNull r.1 = pendingNull self
  /\ files r.1 = files self
  /\ exists c',
       sockets r.1 !! s = Some c'
       /\ ended c' = true /\ written c' = []
       /\ paused c' = false /\ closed c' = false
       /\ headerReceived c' = false
       /\ buffer c' = drop (S i) (buffer c ++ chunk)
       /\ forall chunk2 j info,
            indexOf0 (buffer c' ++ chunk2) = Some j ->
            JSON_parse (take j (buffer c' ++ chunk2)) = Some info ->
            let r2 := step JSON_parse path_join r.1 (OnData s chunk2) in
            r2.2 = [transferRequest (senderEmail info) (fileName info)
                      (fileSize info) (transferId info)]
            /\ pendingTransfer r2.1
               = Some {| p_socket := s; p_transferInfo := info;
                         p_buffer := drop (S j) (buffer c' ++ chunk2) |}.
Proof.
  intros self Hc Hp Hcl Hh Hi Hj Hnn r.
  assert (Hwf : offer_wf self).
  { apply run_offer_wf, constructor_offer_wf. }
  destruct (proj2 Hwf s c Hc Hh) as [Hw Hr].
  set (c' := socket_end (set_buffer (drop (S i) (buffer c ++ chunk))
                           (set_buffer (buffer c ++ chunk) c))).
  set (self' := on_socket s socket_end
                  (on_socket s (set_buffer (drop (S i) (buffer c ++ chunk)))
                     (on_socket s (set_buffer (buffer c ++ chunk)) self))).
  assert (Hc' : sockets self' !! s = Some c').
  { subst self' c'. rewrite !lookup_on_socket_eq, Hc. reflexivity. }
  assert (E : r = (self', [])).
  { subst r. cbn [step]. unfold flowing.
    rewrite Hc, Hp, Hcl. cbn [negb andb]. unfold socket_on_data.
    unfold incoming_on_data. rewrite Hc, Hh, Hi, Hj, Hnn. fold self'.
    rewrite (accept_on_data_no_receiver self' s c' chunk Hc' Hr).
    reflexivity. }
  rewrite E. cbn [fst snd].
  split; [reflexivity |]. split; [reflexivity |]. split; [reflexivity |].
  split; [reflexivity |].
  exists c'. split; [exact Hc' |].
  split; [reflexivity |]. split; [exact Hw |]. split; [exact Hp |].
  split; [exact Hcl |]. split; [exact Hh |]. split; [reflexivity |].
  intros chunk2 j info Hi2 Hj2.
  rewrite (step_data_header JSON_parse path_join self' s c' chunk2 j info
             Hc' Hp Hcl Hh Hr Hi2 Hj2).
  split; reflexivity.
Qed.

Lemma malformed_header_ends_socket_witness :
  let r := step sample_parse sample_join sample_connected
                (OnData 1%nat [x70; x00; x68]) in
  r.2 = []
  /\ pendingTransfer r.1 = None
  /\ exists c', sockets r.1 !! 1%nat = Some c'
                /\ ended c' = true /\ buffer c' = [x68].
Proof.
  pose proof (malformed_header_ends_socket sample_parse sample_join "recv" ∅
                [OnConnection 1%nat] 1%nat new_socket [x70; x00; x68]
                1%nat) as H.
  cbv zeta in H.
  destruct H as (H1 & H2 & _ & _ & c' & H3 & H4 & _ & _ & _ & _ & H5 & _);
    try reflexivity.
  split; [exact H1 |]. split; [exact H2 |].
  exists c'. split; [exact H3 |]. split; [exact H4 | exact H5].
Defined.

(** X11. For a positive declared size [t], the percentage of
    [emitProgress] is 0 for no bytes, exactly 100 for [t] bytes and at
    least 100 for more than [t]; for a declared size of 0 it is
    [Infinity] for a positive byte count and [NaN] for none. *)
Theorem emitProgress_endpoints (t b : Z) :
  0 < t -> t <= b ->
  progress_of 0 t = Num 0
  /\ progress_of t t = Num 100
  /\ JsNumber.le (Num 100) (progress_of b t)
  /\ progress_of b 0 = Infinity
  /\ progress_of 0 0 = NaN.
Proof.
  intros Ht Hb.
  rewrite !progress_of_percent by exact Ht.
  rewrite percent_zero, percent_full by exact Ht.
  repeat split.
  - cbn. rewrite <- (Zle_Qle 100). apply percent_ge_100; assumption.
  - destruct b; try lia. reflexivity.
Qed.

Lemma emitProgress_endpoints_witness :
  progress_of 0 4 = Num 0
  /\ progress_of 4 4 = Num 100
  /\ JsNumber.le (Num 100) (progress_of 5 4)
  /\ progress_of 5 0 = Infinity
  /\ progress_of 0 0 = NaN.
Proof. apply (emitProgress_endpoints 4 5); lia. Defined.







(** X15. [cancelTransfer] of a transfer that is short of its declared
    size returns [true], emits [transferCancelled], ends the file stream
    and forgets the transfer, so that a second [cancelTransfer] returns
    [false] and changes nothing.  It does nothing to the socket: nothing
    is written to it, it is neither ended nor paused, and its data
    listener stays, with its byte count. *)
Theorem cancel_leaves_socket_receiving
    (JSON_parse : list byte -> option TransferInfo)
    (path_join : string -> string -> string)
    (receivePath : string) (disk : gmap string File) (inputs0 : list Input)
    (p : Pending) (c : Socket) (chunks : list (list byte)) :
  let self :=
    (run JSON_parse path_join (constructor receivePath disk) inputs0).1 in
  let id := transferId (p_transferInfo p) in
  let path := path_join receivePath (fileName (p_transferInfo p)) in
  pendingTransfer self = Some p ->
  sockets self !! p_socket p = Some c -> closed c = false ->
  Zlength_bytes (p_buffer p) + Zlength_bytes (concat chunks)
  < fileSize (p_transferInfo p) ->
  let a := acceptTransfer path_join self id in
  let self2 :=
    (run JSON_parse path_join a.1.1 (map (OnData (p_socket p)) chunks)).1 in
  let k := cancelTransfer self2 id in
  k.2 = Return true
  /\ k.1.2 = [transferCancelled id]
  /\ JsMap.get id (activeTransfers k.1.1) = None
  /\ streams k.1.1 !! next_stream self
     = Some {| ws_path := path; writable := false |}
  /\ sockets k.1.1 = sockets self2
  /\ (exists c2 r,
        sockets k.1.1 !! p_socket p = Some c2
        /\ paused c2 = false /\ closed c2 = false
        /\ receiver c2 = Some r /\ r_transferId r = id
        /\ r_receivedBytes r
           = Zlength_bytes (p_buffer p) + Zlength_bytes (concat chunks))
  /\ pendingTransfer k.1.1 = None
  /\ cancelTransfer k.1.1 id = (k.1.1, [], Return false).
Proof.
  intros self id path P Hc Hcl Hlt a self2 k.
  assert (Hwf : offer_wf self).
  { apply run_offer_wf, constructor_offer_wf. }
  assert (Hrp : Transfer.receivePath self = receivePath).
  { unfold self. rewrite run_receivePath. reflexivity. }
  destruct (accept_run JSON_parse path_join self p c chunks Hwf P Hc Hcl)
    as (_ & _ & Hrec & Hact & Hpe & _).
  fold id a in Hrec, Hact, Hpe. fold self2 in Hrec, Hact, Hpe.
  rewrite Hrp in Hrec, Hact. fold path in Hrec, Hact.
  rewrite (reached_within _ chunks _ Hlt (Zlength_bytes_nonneg _))
    in Hrec, Hact.
  cbn [negb] in Hrec.
  destruct Hrec as (c1 & Hc1 & Hp1 & Hcl1 & _ & Hr1 & Hs & _).
  cbn [r_filePath r_fileStream] in Hs.
  set (t := {| fileStream := next_stream self; filePath := path;
               totalSize := fileSize (p_transferInfo p);
               receivedBytes := 0 |}) in *.
  assert (Hget : JsMap.get id (activeTransfers self2) = Some t).
  { rewrite Hact. apply JsMapFacts.get_set_eq. }
  destruct (cancelTransfer_active self2 id t Hget) as (K1 & K2 & K3 & _).
  destruct (cancelTransfer_frame self2 id) as [F1 F2].
  fold k in K1, K2, K3, F1, F2.
  split; [exact K1 |]. split; [exact K2 |]. split; [exact K3 |].
  split.
  { subst k. unfold cancelTransfer. rewrite Hget. cbn [fst fileStream t].
    destruct (unlinkSync _ _);
      cbn [streams set_activeTransfers set_files fileStream_end set_streams];
      rewrite lookup_alter_eq, Hs; reflexivity. }
  split; [exact F1 |].
  split.
  { exists c1. eexists. rewrite F1.
    split; [exact Hc1 |]. split; [exact Hp1 |]. split; [exact Hcl1 |].
    split; [exact Hr1 |]. split; reflexivity. }
  split; [rewrite F2; exact Hpe |].
  apply cancelTransfer_inactive, K3.
Qed.

Lemma cancel_leaves_socket_receiving_witness :
  let self2 := (run sample_parse sample_join
                  (acceptTransfer sample_join sample_offered "t1").1.1
                  (map (OnData 1%nat) [[x02]])).1 in
  let k := cancelTransfer self2 "t1" in
  k.2 = Return true
  /\ k.1.2 = [transferCancelled "t1"]
  /\ sockets k.1.1 = sockets self2
  /\ cancelTransfer k.1.1 "t1" = (k.1.1, [], Return false).
Proof.
  pose proof (cancel_leaves_socket_receiving sample_parse sample_join
                "recv" ∅ [OnConnection 1%nat; OnData 1%nat [x68; x00; x01]]
                sample_pending sample_socket [[x02]])
    as H.
  cbv zeta in H.
  destruct H as (H1 & H2 & _ & _ & H3 & _ & _ & H4);
    [reflexivity | reflexivity | reflexivity | reflexivity |].
  split; [exact H1 |]. split; [exact H2 |]. split; [exact H3 | exact H4].
Defined.

(** X16. After [rejectTransfer] of the pending offer, the events of
    its socket emit nothing: files, streams and active transfers stay as
    they were before the call, no offer is pending, [acceptTransfer] of
    the same id returns [false], and the socket, to which the rejection
    was written, is ended, still paused and without transfer
    listeners. *)
Theorem rejected_offer_is_silent
    (JSON_parse : list byte -> option TransferInfo)
    (path_join : string -> string -> string)
    (receivePath : string) (disk : gmap string File) (inputs0 : list Input)
    (p : Pending) (inputs : list Input) :
  let self :=
    (run JSON_parse path_join (constructor receivePath disk) inputs0).1 in
  let id := transferId (p_transferInfo p) in
  pendingTransfer self = Some p ->
  Forall (of_socket (p_socket p)) inputs ->
  let r := rejectTransfer self id in
  let q := run JSON_parse path_join r.1 inputs in
  r.2 = Return true
  /\ q.2 = []
  /\ files q.1 = files self
  /\ streams q.1 = streams self
  /\ activeTransfers q.1 = activeTransfers self
  /\ pendingTransfer q.1 = None
  /\ acceptTransfer path_join q.1 id = (q.1, [], Return false)
  /\ exists c', sockets q.1 !! p_socket p = Some c'
                /\ written c' = ack false /\ ended c' = true
                /\ paused c' = true /\ receiver c' = None.
Proof.
  intros self id P Hall r q.
  assert (Hwf : offer_wf self).
  { apply run_offer_wf, constructor_offer_wf. }
  assert (Hun : unanswered self).
  { apply run_unanswered;
      [apply constructor_offer_wf | apply constructor_unanswered]. }
  destruct (proj1 Hwf p P) as (c & Hc & Hp & _ & Hw).
  pose proof (Hun _ _ Hc Hw) as Hr.
  assert (Er : r = (set_pendingTransfer None
                      (on_socket (p_socket p) socket_end
                         (on_socket (p_socket p) (socket_write (ack false))
                            self)), Return true)).
  { apply rejectTransfer_pending, P. }
  set (st := set_pendingTransfer None _) in Er.
  assert (Hc' : sockets st !! p_socket p
                = Some (socket_end (socket_write (ack false) c))).
  { subst st. cbn [sockets set_pendingTransfer].
    rewrite !lookup_on_socket_eq, Hc. reflexivity. }
  destruct (run_paused_socket JSON_parse path_join inputs st (p_socket p) _
              Hc' Hp Hr Hall)
    as (Hev & Hpe & Hf & Hst & Ha & Hnu & c' & Hc2 & Hp2 & Hr2 & Hw2 & He2).
  subst q. rewrite Er. cbn [fst snd].
  set (q := run JSON_parse path_join st inputs) in *.
  split; [reflexivity |]. split; [exact Hev |].
  split; [rewrite Hf; reflexivity |].
  split; [rewrite Hst; reflexivity |].
  split; [rewrite Ha; reflexivity |].
  split; [rewrite Hpe; reflexivity |].
  split.
  { unfold acceptTransfer. rewrite Hpe, Hnu. reflexivity. }
  exists c'. split; [exact Hc2 |].
  cbn [written ended socket_end socket_write] in Hw2, He2.
  rewrite Hw in Hw2. auto.
Qed.

Lemma rejected_offer_is_silent_witness :
  let q := run sample_parse sample_join (rejectTransfer sample_offered "t1").1
               [OnData 1%nat [x02; x03]; OnClose 1%nat] in
  q.2 = [] /\ files q.1 = ∅
  /\ acceptTransfer sample_join q.1 "t1" = (q.1, [], Return false).
Proof.
  pose proof (rejected_offer_is_silent sample_parse sample_join "recv" ∅
                [OnConnection 1%nat; OnData 1%nat [x68; x00; x01]]
                sample_pending [OnData 1%nat [x02; x03]; OnClose 1%nat]) as H.
  cbv zeta in H.
  destruct H as (_ & H1 & H2 & _ & _ & _ & H3 & _);
    [reflexivity | repeat constructor |].
  split; [exact H1 |]. split; [exact H2 | exact H3].
Defined.

End ReceiverFacts.

(** ** The sending side *)

Module SenderFacts.
Import JsNumber Transfer Sender WireFacts.

(** *** The delimiter in a string *)

Lemma indexOfNul_None (s : list N) : indexOfNul s = None <-> 0%N ∉ s.
Proof.
  induction s as [| x s IH]; simpl.
  - split; [intros _; apply not_elem_of_nil | reflexivity].
  - destruct (N.eqb_spec x 0) as [-> | Hx].
    + split; [discriminate |]. intros H. exfalso. apply H. left.
    + rewrite not_elem_of_cons. destruct (indexOfNul s); simpl.
      * split; [discriminate |]. intros [_ H]. apply IH in H. discriminate.
      * split; [| reflexivity]. intros _. split; [| apply IH; reflexivity].
        intros <-. apply Hx. reflexivity.
Qed.

Lemma indexOfNul_Some (s : list N) :
  forall i : nat,
  indexOfNul s = Some i ->
  exists rest,
    s = take i s ++ 0%N :: rest /\ (0%N ∉ take i s) /\ length (take i s) = i.
Proof.
  induction s as [| x s IH]; intros i; simpl; [discriminate |].
  destruct (N.eqb_spec x 0) as [-> | Hx].
  - intros [= <-]. exists s. simpl.
    split; [reflexivity |]. split; [apply not_elem_of_nil | reflexivity].
  - destruct (indexOfNul s) as [j |]; simpl; [| discriminate].
    intros [= <-]. destruct (IH j eq_refl) as (rest & H & Hn & Hl).
    exists rest. simpl. split; [f_equal; exact H |].
    split; [| f_equal; exact Hl].
    rewrite not_elem_of_cons. split; [| exact Hn].
    intros <-. apply Hx. reflexivity.
Qed.

Lemma indexOfNul_frame (h rest : list N) :
  0%N ∉ h -> indexOfNul (h ++ 0%N :: rest) = Some (length h).
Proof.
  induction h as [| x h IH]; simpl; [reflexivity |].
  rewrite not_elem_of_cons. intros [Hx Hn].
  destruct (N.eqb_spec x 0) as [-> | _]; [congruence |].
  rewrite (IH Hn). reflexivity.
Qed.

Lemma indexOfNul_app_Some (a b : list N) (i : nat) :
  indexOfNul a = Some i ->
  indexOfNul (a ++ b) = Some i /\ take i (a ++ b) = take i a.
Proof.
  intros H. apply indexOfNul_Some in H as (rest & H & Hn & Hl).
  assert (S i <= length a)%nat as Hlt.
  { rewrite H, length_app, Hl. simpl. lia. }
  split.
  - rewrite H, <- app_assoc. simpl. rewrite <- Hl at 2.
    apply indexOfNul_frame, Hn.
  - apply take_app_le. lia.
Qed.

(** The code units of ASCII bytes have a NUL where the bytes have one. *)
Lemma indexOfNul_ascii (b : list byte) :
  indexOfNul (Byte.to_N <$> b) = indexOf0 b.
Proof.
  induction b as [| x b IH]; [reflexivity |].
  change (indexOfNul (Byte.to_N x :: (Byte.to_N <$> b))
          = indexOf0 (x :: b)).
  cbn [indexOfNul indexOf0]. rewrite IH. destruct x; reflexivity.
Qed.

Section Listeners.
Variable JSON_stringify : TransferInfo -> list byte.
Variable JSON_parse : list N -> option Response.
Variable utf8_decode : list byte -> list N.

(** Segments of ASCII bytes decode to the code units of their bytes. *)
Lemma toString_ascii (cs : list (list byte)) :
  forallb is_ascii (concat cs) = true ->
  concat (toString utf8_decode <$> cs) = Byte.to_N <$> concat cs.
Proof.
  induction cs as [| c cs IH]; [reflexivity |].
  cbn [concat fmap list_fmap].
  rewrite forallb_app, andb_true_iff. intros [Hc Hcs].
  change (list_fmap _ _ (toString utf8_decode) cs)
    with (toString utf8_decode <$> cs).
  rewrite fmap_app, (IH Hcs). unfold toString. rewrite Hc. reflexivity.
Qed.

Lemma send_run_app st i1 i2 :
  run JSON_stringify JSON_parse utf8_decode st (i1 ++ i2)
  = let r1 := run JSON_stringify JSON_parse utf8_decode st i1 in
    let r2 := run JSON_stringify JSON_parse utf8_decode r1.1 i2 in
    (r2.1, r1.2 ++ r2.2).
Proof.
  revert st. induction i1 as [| i i1 IH]; intros st; simpl.
  - destruct (run JSON_stringify JSON_parse utf8_decode st i2). reflexivity.
  - destruct (step JSON_stringify JSON_parse utf8_decode st i) as [st1 ev1].
    rewrite IH. simpl.
    destruct (run JSON_stringify JSON_parse utf8_decode st1 i1) as [st2 ev2].
    simpl.
    destruct (run JSON_stringify JSON_parse utf8_decode st2 i2) as [st3 ev3].
    simpl.
    rewrite app_assoc. reflexivity.
Qed.

Lemma settle_settled r st p : promise st = Some p -> settle r st = st.
Proof. intros H. unfold settle. rewrite H. reflexivity. Qed.

Lemma settle_promise r st :
  promise (settle r st) = Some (default r (promise st)).
Proof.
  unfold settle. destruct (promise st) eqn:E; cbn; [exact E | reflexivity].
Qed.

Lemma settle_frame r st :
  header (settle r st) = header st
  /\ s_filePath (settle r st) = s_filePath st
  /\ connected (settle r st) = connected st
  /\ socket_closed (settle r st) = socket_closed st
  /\ socket_ended (settle r st) = socket_ended st
  /\ socket_written (settle r st) = socket_written st
  /\ responseReceived (settle r st) = responseReceived st
  /\ responseBuffer (settle r st) = responseBuffer st
  /\ reading (settle r st) = reading st
  /\ sentBytes (settle r st) = sentBytes st.
Proof. unfold settle. destruct (promise st); cbn; repeat split. Qed.

(** Once the response is read, the ['data'] listener ignores the rest. *)
Lemma run_data_received st cs :
  responseReceived st = true ->
  run JSON_stringify JSON_parse utf8_decode st (map OnData cs) = (st, []).
Proof.
  intros H. induction cs as [| c cs IH]; simpl; [reflexivity |].
  unfold on_data, on_text. rewrite H.
  destruct (connected st && negb (socket_closed st)); rewrite IH; reflexivity.
Qed.

(** A response that did not parse stays in the buffer: every later
    segment finds the same delimiter and fails on the same text. *)
Lemma run_data_malformed cs :
  forall st i p,
  connected st = true -> socket_closed st = false ->
  responseReceived st = false ->
  indexOfNul (responseBuffer st) = Some i ->
  JSON_parse (take i (responseBuffer st)) = None ->
  promise st = Some p ->
  run JSON_stringify JSON_parse utf8_decode st (map OnData cs)
  = (set_responseBuffer
       (responseBuffer st ++ concat (toString utf8_decode <$> cs)) st, []).
Proof.
  induction cs as [| c cs IH]; intros st i p Hc Hcl Hr Hi Hp Hs; simpl.
  - rewrite app_nil_r. destruct st; reflexivity.
  - rewrite Hc, Hcl. simpl. unfold on_data, on_text. rewrite Hr.
    cbn [responseBuffer set_responseBuffer].
    destruct (indexOfNul_app_Some _ (toString utf8_decode c) _ Hi)
      as (Hi' & Ht).
    rewrite Hi', Ht, Hp.
    rewrite (settle_settled _ _ p) by exact Hs.
    rewrite (IH _ i p); cbn [responseBuffer set_responseBuffer connected
      socket_closed responseReceived promise]; try assumption.
    + rewrite <- app_assoc. reflexivity.
    + rewrite Ht. exact Hp.
Qed.

(** What the listener does with a delimited text. *)
Lemma on_text_parse st text i :
  responseReceived st = false ->
  indexOfNul (responseBuffer st ++ text) = Some i ->
  on_text JSON_parse st text
  = let st1 := set_responseBuffer (responseBuffer st ++ text) st in
    let st2 := set_responseReceived st1 in
    match JSON_parse (take i (responseBuffer st ++ text)) with
    | None => (settle rejected st1, [])
    | Some JsonNull => (settle rejected st2, [])
    | Some (JsonValue true) =>
        (set_reading true 0 st2,
         [transferAccepted (transferId (header st)) (fileName (header st))])
    | Some (JsonValue false) =>
        (settle (resolved false (transferId (header st))) (socket_end st2),
         [transferRejected (transferId (header st)) (fileName (header st))])
    end.
Proof.
  intros Hr Hi. unfold on_text. rewrite Hr.
  cbn [responseBuffer set_responseBuffer]. rewrite Hi. reflexivity.
Qed.

(** The ['data'] listener on a response that arrives in segments does
    what it does on the decoded segments in one piece. *)
Lemma response_fragments cs :
  forall st,
  awaiting_response st ->
  let r := run JSON_stringify JSON_parse utf8_decode st (map OnData cs) in
  let o := on_text JSON_parse st (concat (toString utf8_decode <$> cs)) in
  r.2 = o.2 /\ forget_buffer r.1 = forget_buffer o.1.
Proof.
  induction cs as [| c cs IH]; intros st (Hc & Hcl & Hr & Hn).
  - simpl. unfold on_text. rewrite Hr. cbn [responseBuffer set_responseBuffer].
    rewrite app_nil_r, Hn. split; reflexivity.
  - cbn [map fmap list_fmap run step concat]. rewrite Hc, Hcl. cbn [andb negb].
    set (t := toString utf8_decode c).
    set (ts := concat (toString utf8_decode <$> cs)).
    unfold on_data. fold t.
    destruct (indexOfNul (responseBuffer st ++ t)) as [i |] eqn:Hi.
    + destruct (indexOfNul_app_Some _ ts _ Hi) as (Hi' & Ht).
      rewrite <- app_assoc in Hi', Ht.
      rewrite (on_text_parse st t i Hr Hi).
      rewrite (on_text_parse st (t ++ ts) i Hr Hi'). rewrite Ht. cbv zeta.
      destruct (JSON_parse (take i (responseBuffer st ++ t)))
        as [[| []] |] eqn:Hp.
      * rewrite run_data_received
          by (rewrite (proj1 (proj2 (proj2 (proj2 (proj2 (proj2
                (proj2 (settle_frame _ _)))))))); reflexivity).
        simpl. split; [reflexivity |].
        unfold settle; cbn; destruct (promise st); reflexivity.
      * rewrite run_data_received by reflexivity. simpl.
        split; reflexivity.
      * rewrite run_data_received
          by (rewrite (proj1 (proj2 (proj2 (proj2 (proj2 (proj2
                (proj2 (settle_frame _ _)))))))); reflexivity).
        simpl. split; [reflexivity |].
        unfold settle; cbn; destruct (promise st); reflexivity.
      * set (st1 := settle rejected
                      (set_responseBuffer (responseBuffer st ++ t) st)).
        destruct (settle_frame rejected
                    (set_responseBuffer (responseBuffer st ++ t) st))
          as (_ & _ & F1 & F2 & _ & _ & F3 & F4 & _).
        fold st1 in F1, F2, F3, F4.
        cbn [connected socket_closed responseReceived responseBuffer
             set_responseBuffer] in F1, F2, F3, F4.
        rewrite (run_data_malformed cs st1 i
                   (default rejected
                      (promise (set_responseBuffer (responseBuffer st ++ t) st))));
          [| congruence | congruence | congruence
           | rewrite F4; exact Hi | rewrite F4; exact Hp
           | apply settle_promise].
        simpl. split; [reflexivity |].
        subst st1. unfold settle; cbn; destruct (promise st); cbn;
          rewrite <- ?app_assoc; reflexivity.
    + assert (E0 : on_text JSON_parse st t
                   = (set_responseBuffer (responseBuffer st ++ t) st, [])).
      { unfold on_text. rewrite Hr. cbn [responseBuffer set_responseBuffer].
        rewrite Hi. reflexivity. }
      rewrite E0.
      specialize (IH (set_responseBuffer (responseBuffer st ++ t) st)).
      fold ts in IH.
      destruct (run JSON_stringify JSON_parse utf8_decode
                    (set_responseBuffer (responseBuffer st ++ t) st)
                    (map OnData cs)) as [st2 ev2].
      simpl in IH |- *.
      assert (on_text JSON_parse
                (set_responseBuffer (responseBuffer st ++ t) st) ts
              = on_text JSON_parse st (t ++ ts)) as E.
      { unfold on_text.
        cbn [responseReceived responseBuffer set_responseBuffer].
        rewrite Hr, <- app_assoc. reflexivity. }
      rewrite <- E. apply IH. repeat split; assumption.
Qed.

Lemma step_header st i :
  header (step JSON_stringify JSON_parse utf8_decode st i).1 = header st.
Proof.
  destruct i; simpl;
    repeat match goal with
           | |- context [if ?b then _ else _] => destruct b
           end; try reflexivity.
  - unfold on_data, on_text.
    destruct (responseReceived st); [reflexivity |].
    cbn [responseBuffer set_responseBuffer].
    destruct (indexOfNul _); [| reflexivity].
    destruct (JSON_parse _) as [[| []] |]; cbn;
      rewrite ?(proj1 (settle_frame _ _)); reflexivity.
  - unfold on_error. cbn [fst].
    rewrite (proj1 (settle_frame _ _)). reflexivity.
  - unfold on_close. cbn. destruct (responseReceived st); [| reflexivity].
    rewrite (proj1 (settle_frame _ _)). reflexivity.
Qed.

Lemma run_header inputs :
  forall st,
  header (run JSON_stringify JSON_parse utf8_decode st inputs).1 = header st.
Proof.
  induction inputs as [| i inputs IH]; intros st; simpl; [reflexivity |].
  pose proof (step_header st i) as H.
  destruct (step JSON_stringify JSON_parse utf8_decode st i) as [st1 ev1].
  specialize (IH st1).
  destruct (run JSON_stringify JSON_parse utf8_decode st1 inputs) as [st2 ev2].
  simpl in *. congruence.
Qed.

Lemma step_before_accept st i :
  before_accept JSON_stringify st ->
  let r := step JSON_stringify JSON_parse utf8_decode st i in
  (forall id name, transferAccepted id name ∉ r.2) ->
  before_accept JSON_stringify r.1 /\ (forall e, emit e ∉ r.2).
Proof.
  intros Hb r Hacc. subst r.
  assert (Hsame : before_accept JSON_stringify st
                  /\ (forall e, emit e ∉ @nil Event)).
  { split; [exact Hb | intros e; apply not_elem_of_nil]. }
  destruct Hb as (Hrd & Hw & Hp & Hs).
  assert (Hp' : forall r id, r <> resolved true id ->
                  Some (default r (promise st)) <> Some (resolved true id)).
  { intros r id Hr. destruct (promise st) eqn:E; cbn; [apply Hp | congruence]. }
  destruct i; cbn [step] in *.
  - destruct (connected st) eqn:Hc; cbn [orb]; [exact Hsame |].
    destruct (socket_closed st); [exact Hsame |].
    split; [| intros e; apply not_elem_of_nil].
    unfold before_accept, on_connect. cbn. rewrite Hw.
    repeat split; assumption.
  - destruct (connected st && negb (socket_closed st)) eqn:Hg;
      [| exact Hsame].
    unfold on_data, on_text in *.
    destruct (responseReceived st) eqn:Hr; [exact Hsame |].
    cbn [responseBuffer set_responseBuffer] in *.
    set (buf := responseBuffer st ++ toString utf8_decode data) in *.
    destruct (indexOfNul buf) as [j |].
    2:{ split; [| intros e; apply not_elem_of_nil].
        unfold before_accept. cbn. rewrite Hr.
        repeat split; try assumption; try discriminate. }
    destruct (JSON_parse _) as [[| []] |]; cbn [fst snd] in *.
    + split; [| intros e; apply not_elem_of_nil].
      unfold before_accept.
      destruct (settle_frame rejected
                  (set_responseReceived (set_responseBuffer buf st)))
        as (F0 & _ & F1 & _ & _ & F2 & F4 & _ & F3 & _).
      rewrite F0, F1, F2, F3, F4, settle_promise. cbn.
      repeat split; try assumption; try discriminate.
      intros id. apply Hp'. discriminate.
    + exfalso. eapply Hacc. left.
    + split.
      * unfold before_accept.
        destruct (settle_frame (resolved false (transferId (header
                    (set_responseReceived (set_responseBuffer buf st)))))
                    (socket_end (set_responseReceived
                       (set_responseBuffer buf st))))
          as (F0 & _ & F1 & _ & _ & F2 & _ & _ & F3 & _).
        rewrite F0, F1, F2, F3, settle_promise. cbn.
        repeat split; try assumption; try discriminate.
        intros id. apply Hp'. discriminate.
      * intros e He. apply list_elem_of_singleton in He. discriminate.
    + split; [| intros e; apply not_elem_of_nil].
      unfold before_accept.
      destruct (settle_frame rejected (set_responseBuffer buf st))
        as (F0 & _ & F1 & _ & _ & F2 & F4 & _ & F3 & _).
      rewrite F0, F1, F2, F3, F4, settle_promise. cbn.
      repeat split; try assumption; try discriminate.
      intros id. apply Hp'. discriminate.
  - destruct (socket_closed st); [exact Hsame |].
    split; [| intros e; apply not_elem_of_nil].
    unfold before_accept, on_error. cbn [fst].
    destruct (settle_frame rejected st)
      as (F0 & _ & F1 & _ & _ & F2 & F4 & _ & F3 & _).
    rewrite F0, F1, F2, F3, F4, settle_promise.
    repeat split; try assumption; try discriminate.
    intros id. apply Hp'. discriminate.
  - destruct (socket_closed st); [exact Hsame |].
    split; [| intros e; apply not_elem_of_nil].
    unfold on_close. cbn [responseReceived set_closed fst].
    destruct (responseReceived st) eqn:Hr.
    + destruct (promise st) as [p |] eqn:E; [| exfalso; apply Hs; reflexivity].
      rewrite (settle_settled _ _ p) by exact E.
      unfold before_accept. cbn. rewrite Hr, E.
      repeat split; try assumption; try discriminate.
    + unfold before_accept. cbn. rewrite Hr.
      repeat split; try assumption; try discriminate.
  - rewrite Hrd. exact Hsame.
  - rewrite Hrd. exact Hsame.
  - rewrite Hrd. exact Hsame.
Qed.

Lemma run_before_accept inputs :
  forall st,
  before_accept JSON_stringify st ->
  let r := run JSON_stringify JSON_parse utf8_decode st inputs in
  (forall id name, transferAccepted id name ∉ r.2) ->
  before_accept JSON_stringify r.1 /\ (forall e, emit e ∉ r.2).
Proof.
  induction inputs as [| i inputs IH]; intros st Hb; simpl.
  - intros _. split; [exact Hb | intros e; apply not_elem_of_nil].
  - pose proof (step_before_accept st i Hb) as Hstep.
    destruct (step JSON_stringify JSON_parse utf8_decode st i) as [st1 ev1].
    specialize (IH st1).
    destruct (run JSON_stringify JSON_parse utf8_decode st1 inputs) as [st2 ev2].
    simpl in *. intros Hacc.
    destruct Hstep as [Hb1 He1].
    { intros id name Hin. apply (Hacc id name), elem_of_app. left. exact Hin. }
    destruct (IH Hb1) as [Hb2 He2].
    { intros id name Hin. apply (Hacc id name), elem_of_app. right. exact Hin. }
    split; [exact Hb2 |].
    intros e Hin. apply elem_of_app in Hin as [Hin | Hin];
      [exact (He1 e Hin) | exact (He2 e Hin)].
Qed.

(** The listener on a whole response [text], delimiter included. *)
Lemma on_text_whole st text more :
  responseReceived st = false -> responseBuffer st = [] ->
  0%N ∉ text ->
  on_text JSON_parse st (text ++ 0%N :: more)
  = let st1 := set_responseBuffer (text ++ 0%N :: more) st in
    let st2 := set_responseReceived st1 in
    match JSON_parse text with
    | None => (settle rejected st1, [])
    | Some JsonNull => (settle rejected st2, [])
    | Some (JsonValue true) =>
        (set_reading true 0 st2,
         [transferAccepted (transferId (header st)) (fileName (header st))])
    | Some (JsonValue false) =>
        (settle (resolved false (transferId (header st))) (socket_end st2),
         [transferRejected (transferId (header st)) (fileName (header st))])
    end.
Proof.
  intros Hr Hb Hn.
  rewrite (on_text_parse st _ (length text) Hr)
    by (rewrite Hb; apply indexOfNul_frame, Hn).
  rewrite Hb. cbn [app]. rewrite take_app_length. reflexivity.
Qed.

Lemma step_malformed st i :
  malformed JSON_parse st ->
  let r := step JSON_stringify JSON_parse utf8_decode st i in
  malformed JSON_parse r.1 /\ r.2 = []
  /\ socket_written r.1 = socket_written st
  /\ socket_ended r.1 = socket_ended st
  /\ responseReceived r.1 = responseReceived st
  /\ promise r.1 = promise st.
Proof.
  intros Hm. pose proof Hm as (Hc & Hrd & Hp & Hcase).
  destruct (promise st) as [p |] eqn:E; [clear Hp | congruence].
  assert (Hsame : malformed JSON_parse st /\ @nil Event = []
                  /\ socket_written st = socket_written st
                  /\ socket_ended st = socket_ended st
                  /\ responseReceived st = responseReceived st
                  /\ promise st = Some p) by auto 10.
  destruct i; cbn [step].
  - rewrite Hc. exact Hsame.
  - rewrite Hc. destruct (socket_closed st); cbn [andb negb fst snd];
      [exact Hsame |].
    unfold on_data, on_text.
    destruct (responseReceived st) eqn:Hr;
      [cbn [fst snd]; destruct Hsame as (H1 & H2 & H3 & H4 & _ & H6);
       auto 10 |].
    destruct Hcase as [Hcase | (j & Hj & Hparse)]; [discriminate |].
    cbn [responseBuffer set_responseBuffer].
    destruct (indexOfNul_app_Some _ (toString utf8_decode data) _ Hj)
      as (Hj' & Ht).
    rewrite Hj', Ht, Hparse.
    rewrite (settle_settled _ _ p) by exact E.
    unfold malformed. cbn -[indexOfNul take]. rewrite E, Hr.
    repeat split; try assumption; try discriminate.
    right. exists j. rewrite Ht. auto.
  - destruct (socket_closed st); cbn [fst snd]; [exact Hsame |].
    unfold on_error. rewrite (settle_settled _ _ p) by exact E.
    exact Hsame.
  - destruct (socket_closed st); cbn [fst snd]; [exact Hsame |].
    unfold on_close. cbn [responseReceived set_closed].
    assert (Hm' : malformed JSON_parse (set_closed st)).
    { unfold malformed. cbn -[indexOfNul take]. rewrite E.
      repeat split; try assumption; discriminate. }
    destruct (responseReceived st) eqn:Hr.
    + rewrite (settle_settled _ _ p) by exact E. cbn. auto 10.
    + cbn. auto 10.
  - rewrite Hrd. exact Hsame.
  - rewrite Hrd. exact Hsame.
  - rewrite Hrd. exact Hsame.
Qed.

Lemma run_malformed inputs :
  forall st,
  malformed JSON_parse st ->
  let r := run JSON_stringify JSON_parse utf8_decode st inputs in
  malformed JSON_parse r.1 /\ r.2 = []
  /\ socket_written r.1 = socket_written st
  /\ socket_ended r.1 = socket_ended st
  /\ responseReceived r.1 = responseReceived st
  /\ promise r.1 = promise st.
Proof.
  induction inputs as [| i inputs IH]; intros st Hm; simpl; [auto 10 |].
  pose proof (step_malformed st i Hm) as Hstep.
  destruct (step JSON_stringify JSON_parse utf8_decode st i) as [st1 ev1].
  simpl in Hstep. destruct Hstep as (Hm1 & -> & Hw1 & He1 & Hr1 & Hp1).
  specialize (IH st1 Hm1).
  destruct (run JSON_stringify JSON_parse utf8_decode st1 inputs) as [st2 ev2].
  simpl in *. destruct IH as (Hm2 & -> & Hw2 & He2 & Hr2 & Hp2).
  split; [exact Hm2 |]. repeat split; congruence.
Qed.

(** The ['data'] listener of the read stream over a sequence of chunks
    is [streamFile_data]. *)
Lemma run_file_data chunks :
  forall st,
  reading st = true ->
  let r := run JSON_stringify JSON_parse utf8_decode st (map FileData chunks) in
  let s := streamFile_data chunks (fileSize (header st))
             (transferId (header st)) (sentBytes st) in
  r.2 = emit <$> s.1
  /\ socket_written r.1 = socket_written st ++ s.2
  /\ sentBytes r.1 = sentBytes st + Zlength_bytes (concat chunks)
  /\ reading r.1 = true
  /\ header r.1 = header st /\ s_filePath r.1 = s_filePath st
  /\ responseReceived r.1 = responseReceived st
  /\ socket_closed r.1 = socket_closed st
  /\ socket_ended r.1 = socket_ended st
  /\ promise r.1 = promise st.
Proof.
  induction chunks as [| c chunks IH]; intros st Hrd; simpl.
  - rewrite app_nil_r. unfold Zlength_bytes. simpl.
    repeat split; try reflexivity; try assumption. lia.
  - rewrite Hrd. unfold file_on_data.
    cbn [header sentBytes socket_write set_reading reading].
    set (st1 := set_reading (reading st) (sentBytes st + Zlength_bytes c)
                  (socket_write c st)).
    specialize (IH st1 Hrd).
    destruct (run JSON_stringify JSON_parse utf8_decode st1
                  (map FileData chunks))
      as [st2 ev2].
    cbn [header sentBytes st1 socket_write set_reading] in IH.
    destruct (streamFile_data chunks (fileSize (header st))
                (transferId (header st)) (sentBytes st + Zlength_bytes c))
      as [ev out].
    simpl in *.
    destruct IH as (-> & Hw & Hs & Hr2 & Hh & Hf & Hrr & Hcl & He & Hp).
    repeat split; try assumption.
    + rewrite Hw, <- app_assoc. reflexivity.
    + rewrite Hs. unfold Zlength_bytes. rewrite length_app. lia.
Qed.

End Listeners.

Lemma streamFile_data_out chunks total id :
  forall sent, (streamFile_data chunks total id sent).2 = concat chunks.
Proof.
  induction chunks as [| c chunks IH]; intros sent; simpl; [reflexivity |].
  specialize (IH (sent + Zlength_bytes c)).
  destruct (streamFile_data chunks total id (sent + Zlength_bytes c)).
  simpl in *. rewrite IH. reflexivity.
Qed.

Lemma streamFile_data_events chunks total id :
  forall sent,
  (streamFile_data chunks total id sent).1
  = map (fun b => emitProgress id b total "sending") (cumulative sent chunks).
Proof.
  induction chunks as [| c chunks IH]; intros sent; simpl; [reflexivity |].
  specialize (IH (sent + Zlength_bytes c)).
  destruct (streamFile_data chunks total id (sent + Zlength_bytes c)).
  simpl in *. rewrite IH. reflexivity.
Qed.

Lemma field_of_forget (st1 st2 : Send) :
  forget_buffer st1 = forget_buffer st2 ->
  header st1 = header st2 /\ s_filePath st1 = s_filePath st2
  /\ connected st1 = connected st2 /\ socket_closed st1 = socket_closed st2
  /\ socket_ended st1 = socket_ended st2
  /\ socket_written st1 = socket_written st2
  /\ responseReceived st1 = responseReceived st2
  /\ reading st1 = reading st2 /\ sentBytes st1 = sentBytes st2
  /\ promise st1 = promise st2.
Proof.
  intros H. unfold forget_buffer, set_responseBuffer in H.
  injection H. intros. repeat split; assumption.
Qed.

(** X17. The response decides, however it is cut into segments.  When
    the segments received after ['connect'], each decoded by
    [toString()], make up a text without NUL, a NUL and anything behind
    it, the sender acts on the text alone: it emits [transferAccepted]
    and opens the read stream, or it emits [transferRejected], ends the
    socket and resolves the promise with [accepted: false], or, when
    [JSON.parse] throws or returns [null], it rejects the promise and
    emits nothing; for [null] it has set [responseReceived] before.  In
    no case does it write to the socket. *)
Theorem sendFile_response_decides
    (JSON_stringify : TransferInfo -> list byte)
    (JSON_parse : list N -> option Response)
    (utf8_decode : list byte -> list N)
    (st : Send) (text more : list N) (cs : list (list byte)) :
  awaiting_response st -> responseBuffer st = [] ->
  indexOfNul text = None ->
  concat (toString utf8_decode <$> cs) = text ++ 0%N :: more ->
  let r := run JSON_stringify JSON_parse utf8_decode st (map OnData cs) in
  let id := transferId (header st) in
  let name := fileName (header st) in
  socket_written r.1 = socket_written st
  /\ match JSON_parse text with
     | Some (JsonValue true) =>
         r.2 = [transferAccepted id name]
         /\ responseReceived r.1 = true
         /\ reading r.1 = true /\ sentBytes r.1 = 0
         /\ socket_ended r.1 = socket_ended st
         /\ promise r.1 = promise st
     | Some (JsonValue false) =>
         r.2 = [transferRejected id name]
         /\ responseReceived r.1 = true
         /\ reading r.1 = reading st
         /\ socket_ended r.1 = true
         /\ promise r.1 = Some (default (resolved false id) (promise st))
     | Some JsonNull =>
         r.2 = []
         /\ responseReceived r.1 = true
         /\ reading r.1 = reading st
         /\ socket_ended r.1 = socket_ended st
         /\ promise r.1 = Some (default rejected (promise st))
     | None =>
         r.2 = []
         /\ responseReceived r.1 = false
         /\ reading r.1 = reading st
         /\ socket_ended r.1 = socket_ended st
         /\ promise r.1 = Some (default rejected (promise st))
     end.
Proof.
  intros Haw Hb Hn Hcs r id name.
  destruct (response_fragments JSON_stringify JSON_parse utf8_decode cs st Haw)
    as [Hev Hst].
  fold r in Hev, Hst. rewrite Hcs in Hev, Hst.
  destruct Haw as (_ & _ & Hr & _).
  apply indexOfNul_None in Hn.
  rewrite (on_text_whole JSON_parse st text more Hr Hb Hn) in Hev, Hst.
  apply field_of_forget in Hst
    as (_ & _ & _ & _ & He & Hw & Hrr & Hrd & Hsb & Hp).
  cbv zeta in *.
  destruct (JSON_parse text) as [[| []] |]; cbn [fst snd] in *.
  - destruct (settle_frame rejected
                (set_responseReceived
                   (set_responseBuffer (text ++ 0%N :: more) st)))
      as (_ & _ & _ & _ & F1 & F2 & F3 & _ & F4 & _).
    rewrite F1 in He. rewrite F2 in Hw. rewrite F3 in Hrr. rewrite F4 in Hrd.
    rewrite settle_promise in Hp. cbn in Hw, He, Hrr, Hrd, Hp. auto 10.
  - cbn in Hw, He, Hrr, Hrd, Hsb, Hp. auto 10.
  - destruct (settle_frame (resolved false (transferId (header st)))
                (socket_end (set_responseReceived
                   (set_responseBuffer (text ++ 0%N :: more) st))))
      as (_ & _ & _ & _ & F1 & F2 & F3 & _ & F4 & _).
    rewrite F1 in He. rewrite F2 in Hw. rewrite F3 in Hrr. rewrite F4 in Hrd.
    rewrite settle_promise in Hp. cbn in Hw, He, Hrr, Hrd, Hp. auto 10.
  - destruct (settle_frame rejected
                (set_responseBuffer (text ++ 0%N :: more) st))
      as (_ & _ & _ & _ & F1 & F2 & F3 & _ & F4 & _).
    rewrite F1 in He. rewrite F2 in Hw. rewrite F3 in Hrr. rewrite F4 in Hrd.
    rewrite settle_promise in Hp. cbn in Hw, He, Hrr, Hrd, Hp.
    rewrite Hr in Hrr. auto 10.
Qed.

Lemma sendFile_response_decides_witness :
  (run sample_stringify sample_parse_response sample_decode sample_waiting
       (map OnData [[x7b; x22; x61]; drop 3 (ack false) ++ [x01]; [x02]])).2
  = [transferRejected "7" "f.bin"].
Proof.
  pose proof (sendFile_response_decides sample_stringify sample_parse_response
                sample_decode sample_waiting (response_text false) [1; 2]%N
                [[x7b; x22; x61]; drop 3 (ack false) ++ [x01]; [x02]]) as H.
  cbv zeta in H.
  refine (proj1 (proj2 (H _ _ _ _))); vm_compute; auto.
Defined.

(** X18. Over every sequence of events of a [sendFile] call: as long
    as [transferAccepted] was not emitted, nothing was written to the
    socket but the header and its delimiter, no read stream is open, no
    progress and no [sendComplete] was emitted, and the promise is not
    resolved with [accepted: true]. *)
Theorem sendFile_nothing_before_accept
    (JSON_stringify : TransferInfo -> list byte)
    (JSON_parse : list N -> option Response)
    (utf8_decode : list byte -> list N)
    (path_basename : string -> string)
    (deviceIp_ filePath_ senderEmail_ : string) (size now : Z)
    (st0 : Send) (inputs : list Input) :
  sendFile path_basename deviceIp_ filePath_ senderEmail_ (Some size) now
  = Some st0 ->
  let r := run JSON_stringify JSON_parse utf8_decode st0 inputs in
  (forall id name, transferAccepted id name ∉ r.2) ->
  (socket_written r.1 = []
   \/ socket_written r.1 = JSON_stringify (header st0) ++ [x00])
  /\ reading r.1 = false
  /\ (forall e, emit e ∉ r.2)
  /\ (forall id, promise r.1 <> Some (resolved true id)).
Proof.
  intros Hst r Hacc. injection Hst as <-.
  set (st0 := {| deviceIp := deviceIp_ |}) in *.
  assert (Hb : before_accept JSON_stringify st0).
  { unfold before_accept. cbn. repeat split; discriminate. }
  destruct (run_before_accept JSON_stringify JSON_parse utf8_decode inputs st0
              Hb Hacc)
    as ((Hrd & Hw & Hp & _) & He).
  fold r in Hrd, Hw, Hp, He.
  pose proof (run_header JSON_stringify JSON_parse utf8_decode inputs st0) as Hh.
  fold r in Hh. rewrite Hh in Hw.
  split; [| auto].
  destruct (connected r.1); auto.
Qed.

Lemma sendFile_nothing_before_accept_witness :
  let r := run sample_stringify sample_parse_response sample_decode
               sample_started
               [OnConnect; OnData (ack false); FileData [x01]; OnClose] in
  (socket_written r.1 = [] \/ socket_written r.1 = [x68; x00])
  /\ reading r.1 = false
  /\ (forall e, emit e ∉ r.2)
  /\ (forall id, promise r.1 <> Some (resolved true id)).
Proof.
  assert (Hs : sendFile sample_basename "10.0.0.5" "/home/a/f.bin" "a@x"
                 (Some 4) 7 = Some sample_started) by reflexivity.
  pose proof (sendFile_nothing_before_accept sample_stringify
                sample_parse_response sample_decode sample_basename _ _ _ _ _ _
                [OnConnect; OnData (ack false); FileData [x01]; OnClose] Hs)
    as H.
  cbv zeta in H.
  assert (Hacc : forall id name,
             transferAccepted id name
             ∉ (run sample_stringify sample_parse_response sample_decode
                    sample_started
                    [OnConnect; OnData (ack false); FileData [x01]; OnClose]).2).
  { intros id name Hin. vm_compute in Hin.
    apply list_elem_of_singleton in Hin. discriminate. }
  exact (H Hacc).
Defined.

(** X19. A response that cannot be read is final.  When [JSON.parse]
    throws on the text before the first NUL, or returns [null], the
    promise is rejected (if it was still pending) and, whatever arrives
    afterwards, a well-formed response included, the sender emits
    nothing, writes nothing, opens no read stream and leaves the promise
    as it is; [responseReceived] is set exactly in the case of
    [null]. *)
Theorem sendFile_malformed_response_final
    (JSON_stringify : TransferInfo -> list byte)
    (JSON_parse : list N -> option Response)
    (utf8_decode : list byte -> list N)
    (st : Send) (data : list byte) (i : nat) (inputs : list Input) :
  awaiting_response st -> reading st = false ->
  let buf := responseBuffer st ++ toString utf8_decode data in
  indexOfNul buf = Some i ->
  JSON_parse (take i buf) = None \/ JSON_parse (take i buf) = Some JsonNull ->
  let r1 := step JSON_stringify JSON_parse utf8_decode st (OnData data) in
  let r := run JSON_stringify JSON_parse utf8_decode r1.1 inputs in
  r1.2 = [] /\ r.2 = []
  /\ promise r.1 = Some (default rejected (promise st))
  /\ (responseReceived r.1 = true <-> JSON_parse (take i buf) = Some JsonNull)
  /\ reading r.1 = false
  /\ socket_written r.1 = socket_written st
  /\ socket_ended r.1 = socket_ended st.
Proof.
  intros (Hc & Hcl & Hr & _) Hrd buf Hi Hp r1 r.
  set (st0 := set_responseBuffer buf st).
  set (st1 := settle rejected
                (match JSON_parse (take i buf) with
                 | Some _ => set_responseReceived st0
                 | None => st0
                 end)).
  assert (E1 : r1 = (st1, [])).
  { subst r1 st1 st0. cbn [step]. rewrite Hc, Hcl. cbn [andb negb].
    unfold on_data. rewrite (on_text_parse JSON_parse st _ i Hr Hi).
    fold buf. cbv zeta. destruct Hp as [-> | ->]; reflexivity. }
  destruct (settle_frame rejected
              (match JSON_parse (take i buf) with
               | Some _ => set_responseReceived st0
               | None => st0
               end))
    as (_ & _ & F1 & _ & F2 & F3 & F4 & F5 & F6 & _).
  pose proof (settle_promise rejected
                (match JSON_parse (take i buf) with
                 | Some _ => set_responseReceived st0
                 | None => st0
                 end)) as F7.
  fold st1 in F1, F2, F3, F4, F5, F6, F7.
  assert (G : connected st1 = true /\ socket_ended st1 = socket_ended st
              /\ socket_written st1 = socket_written st
              /\ reading st1 = false
              /\ promise st1 = Some (default rejected (promise st))
              /\ responseBuffer st1 = buf
              /\ (responseReceived st1 = true
                  <-> JSON_parse (take i buf) = Some JsonNull)).
  { rewrite F1, F2, F3, F4, F5, F6, F7.
    destruct Hp as [E | E]; rewrite E; cbn; rewrite ?Hr;
      repeat split; try assumption; try discriminate; reflexivity. }
  destruct G as (G1 & G2 & G3 & G4 & G5 & G6 & G7).
  assert (Hm : malformed JSON_parse st1).
  { unfold malformed. rewrite G1, G4, G5, G6.
    repeat split; try discriminate.
    destruct Hp as [E | E]; [right; exists i; auto | left; apply G7, E]. }
  subst r. rewrite E1. cbn [fst snd].
  destruct (run_malformed JSON_stringify JSON_parse utf8_decode inputs st1 Hm)
    as ((_ & Hrd2 & _) & Hev & Hw & He & Hrr & Hpr).
  rewrite Hrr.
  repeat split; try assumption; try congruence; apply G7.
Qed.

Lemma sendFile_malformed_response_final_witness :
  let r := run sample_stringify sample_parse_response sample_decode
               (step sample_stringify sample_parse_response sample_decode
                     sample_waiting (OnData [x7b; x00])).1
               [OnData (ack true); FileData [x01]; OnClose] in
  r.2 = []
  /\ promise r.1 = Some rejected
  /\ socket_written r.1 = [x68; x00].
Proof.
  pose proof (sendFile_malformed_response_final sample_stringify
                sample_parse_response sample_decode sample_waiting
                [x7b; x00] 1%nat
                [OnData (ack true); FileData [x01]; OnClose]) as H.
  cbv zeta in H.
  destruct H as (_ & H1 & H2 & _ & _ & H3 & _);
    [vm_compute; auto | reflexivity | reflexivity | left; reflexivity |].
  split; [exact H1 |]. split; [exact H2 | exact H3].
Defined.

(** The read stream outlives the socket: after ['close'] it delivers
    the rest of the file and its end. *)
Lemma file_end_after_close
    (JSON_stringify : TransferInfo -> list byte)
    (JSON_parse : list N -> option Response)
    (utf8_decode : list byte -> list N)
    (st : Send) (rest : list (list byte)) :
  reading st = true -> responseReceived st = true ->
  socket_closed st = false -> promise st = None ->
  let id := transferId (header st) in
  let late := run JSON_stringify JSON_parse utf8_decode st
                  (OnClose :: map FileData rest ++ [FileEnd]) in
  last late.2 = Some (emit (sendComplete id (s_filePath st)))
  /\ promise late.1 = Some (resolved true id).
Proof.
  intros Hrd Hrr Hcl Hp id late. subst late.
  cbn [run step]. rewrite Hcl.
  set (st2 := on_close (set_closed st)).
  assert (E2 : st2 = settle (resolved true id) (set_closed st)).
  { subst st2. unfold on_close. cbn [responseReceived set_closed].
    rewrite Hrr. reflexivity. }
  assert (Hp2 : promise st2 = Some (resolved true id)).
  { rewrite E2, settle_promise. cbn [promise set_closed]. rewrite Hp.
    reflexivity. }
  destruct (settle_frame (resolved true id) (set_closed st))
    as (Hh & Hf & _ & _ & _ & _ & _ & _ & Hr & _).
  rewrite <- E2 in Hh, Hf, Hr. cbn [header s_filePath reading set_closed] in *.
  rewrite Hrd in Hr.
  rewrite send_run_app. cbv zeta.
  pose proof (run_file_data JSON_stringify JSON_parse utf8_decode rest st2 Hr)
    as H.
  cbv zeta in H.
  destruct (run JSON_stringify JSON_parse utf8_decode st2 (map FileData rest))
    as [st3 ev3].
  cbn [fst snd] in *.
  destruct H as (_ & _ & _ & Hr3 & Hh3 & Hf3 & _ & _ & _ & Hp3).
  cbn [run step]. rewrite Hr3. unfold file_on_end. cbn [fst snd app].
  rewrite last_snoc, Hh3, Hf3, Hh, Hf.
  cbn [promise socket_end set_reading]. rewrite Hp3, Hp2.
  split; reflexivity.
Qed.

(** X20. After an accepted response, the chunks of the read stream
    are written to the socket in order, each followed by a progress
    event with the running total; at the end of the file [sendComplete]
    is emitted and the socket is ended, and the promise resolves with
    [accepted: true] at ['close'].  It resolves in the same way when the
    socket closes before the end of the file, with no [sendComplete]
    emitted until then; the read stream goes on after the close, and at
    the end of the file [sendComplete] is emitted all the same, the
    promise staying as it resolved. *)
Theorem sendFile_streams_file
    (JSON_stringify : TransferInfo -> list byte)
    (JSON_parse : list N -> option Response)
    (utf8_decode : list byte -> list N)
    (st : Send) (chunks rest : list (list byte)) :
  reading st = true -> sentBytes st = 0 ->
  responseReceived st = true -> socket_closed st = false ->
  promise st = None ->
  let id := transferId (header st) in
  let r := run JSON_stringify JSON_parse utf8_decode st
               (map FileData chunks ++ [FileEnd; OnClose]) in
  let cut := run JSON_stringify JSON_parse utf8_decode st
                 (map FileData chunks ++ [OnClose]) in
  let late := run JSON_stringify JSON_parse utf8_decode st
                  (map FileData chunks
                     ++ OnClose :: map FileData rest ++ [FileEnd]) in
  r.2 = (emit <$> map (fun b => emitProgress id b (fileSize (header st))
                                   "sending")
                     (cumulative 0 chunks))
        ++ [emit (sendComplete id (s_filePath st))]
  /\ socket_written r.1 = socket_written st ++ concat chunks
  /\ socket_ended r.1 = true
  /\ promise r.1 = Some (resolved true id)
  /\ promise cut.1 = Some (resolved true id)
  /\ sentBytes cut.1 = Zlength_bytes (concat chunks)
  /\ (emit (sendComplete id (s_filePath st)) ∉ cut.2)
  /\ last late.2 = Some (emit (sendComplete id (s_filePath st)))
  /\ promise late.1 = Some (resolved true id).
Proof.
  intros Hrd Hsb Hrr Hcl Hp id r cut late.
  pose proof (run_file_data JSON_stringify JSON_parse utf8_decode chunks st
                Hrd) as H.
  cbv zeta in H. rewrite Hsb in H.
  assert (Hlate : last late.2 = Some (emit (sendComplete id (s_filePath st)))
                  /\ promise late.1 = Some (resolved true id)).
  { subst late. rewrite send_run_app. cbv zeta.
    destruct (run JSON_stringify JSON_parse utf8_decode st
                (map FileData chunks)) as [st1 ev1].
    cbn [fst snd] in *.
    destruct H as (_ & _ & _ & Hr1 & Hh & Hf & Hrr1 & Hcl1 & _ & Hp1).
    pose proof (file_end_after_close JSON_stringify JSON_parse utf8_decode
                  st1 rest) as L.
    cbv zeta in L. rewrite Hh, Hf in L. fold id in L.
    destruct L as [L1 L2]; [exact Hr1 | congruence | congruence | congruence |].
    split; [| exact L2].
    destruct (run JSON_stringify JSON_parse utf8_decode st1
                (OnClose :: map FileData rest ++ [FileEnd])) as [st4 ev4].
    cbn [snd] in *. destruct ev4 as [| e ev4]; [discriminate |].
    rewrite last_app_cons. exact L1. }
  clearbody late.
  pose proof (streamFile_data_out chunks (fileSize (header st)) id 0) as Hout.
  pose proof (streamFile_data_events chunks (fileSize (header st)) id 0)
    as Hevs.
  subst r cut. rewrite !send_run_app. cbv zeta.
  destruct (run JSON_stringify JSON_parse utf8_decode st (map FileData chunks))
    as [st1 ev1].
  cbn [fst snd] in *.
  destruct H as (-> & Hw & Hs & Hr1 & Hh & Hf & Hrr1 & Hcl1 & He1 & Hp1).
  assert (Hprog : forall sent e',
            e' ∈ (streamFile_data chunks (fileSize (header st)) id sent).1 ->
            exists b p, e' = transferProgress id b (fileSize (header st)) p
                               "sending").
  { clear. induction chunks as [| c chunks IH]; intros sent e' Hin; simpl in *.
    - apply elem_of_nil in Hin. contradiction.
    - specialize (IH (sent + Zlength_bytes c)).
      destruct (streamFile_data chunks (fileSize (header st)) id
                  (sent + Zlength_bytes c)) as [ev1 out1].
      simpl in *. apply elem_of_cons in Hin as [-> | Hin]; [| eauto].
      unfold emitProgress. eauto. }
  destruct (streamFile_data chunks (fileSize (header st)) id 0) as [ev out]
    eqn:Esf.
  cbn [fst snd] in *. subst out ev.
  destruct st1 as [ip1 fp1 h1 c1 cl1 e1 w1 rr1 rb1 rd1 sb1 p1].
  cbn in Hw, Hs, Hr1, Hh, Hf, Hrr1, Hcl1, He1, Hp1. subst.
  rewrite Hrr, Hcl, Hp. unfold settle. cbn.
  rewrite !app_nil_r. fold id.
  specialize (Hprog 0). rewrite Esf in Hprog |- *. cbn [fst snd] in *.
  destruct Hlate as [L1 L2].
  repeat split; try reflexivity; try assumption.
  intros Hin. apply list_elem_of_fmap in Hin as (e & He & Hin).
  injection He as <-.
  destruct (Hprog _ Hin) as (b & p & Hb). discriminate.
Qed.

Lemma sendFile_streams_file_witness :
  let r := run sample_stringify sample_parse_response sample_decode
               sample_sending
               (map FileData [[x01; x02]; [x03; x04]] ++ [FileEnd; OnClose]) in
  let late := run sample_stringify sample_parse_response sample_decode
                  sample_sending
                  [FileData [x01; x02]; FileData [x03; x04]; OnClose;
                   FileData [x05]; FileEnd] in
  r.2 = [emit (transferProgress "7" 2 4 (Num 50) "sending");
         emit (transferProgress "7" 4 4 (Num 100) "sending");
         emit (sendComplete "7" "/home/a/f.bin")]
  /\ socket_written r.1 = [x68; x00; x01; x02; x03; x04]
  /\ promise r.1 = Some (resolved true "7")
  /\ last late.2 = Some (emit (sendComplete "7" "/home/a/f.bin"))
  /\ promise late.1 = Some (resolved true "7").
Proof.
  pose proof (sendFile_streams_file sample_stringify sample_parse_response
                sample_decode sample_sending [[x01; x02]; [x03; x04]]
                [[x05]]) as H.
  cbv zeta in H.
  destruct H as (H1 & H2 & _ & H3 & _ & _ & _ & H4 & H5); try reflexivity.
  split; [exact H1 |]. split; [exact H2 |]. split; [exact H3 |].
  split; [exact H4 | exact H5].
Defined.

End SenderFacts.

(** ** The two sides together *)

Module ProtocolFacts.
Import JsNumber Transfer TransferStates WireFacts TransferFacts.
Import ReceiverFacts.

(** The segments of a stream that ends with its only NUL. *)
Lemma segments_of_header (hdr : list byte) (hs : list (list byte)) :
  indexOf0 hdr = None ->
  concat hs = hdr ++ [x00] ->
  Forall (fun h => h <> []) hs ->
  exists cs h,
    hs = cs ++ [h]
    /\ indexOf0 (concat cs) = None
    /\ indexOf0 (concat cs ++ h) = Some (length hdr)
    /\ take (length hdr) (concat cs ++ h) = hdr
    /\ drop (S (length hdr)) (concat cs ++ h) = [].
Proof.
  intros Hn Hcat Hne.
  destruct (decide (hs = [])) as [-> | Hhs].
  { destruct hdr; discriminate. }
  destruct (exists_last Hhs) as (cs & h & ->).
  exists cs, h. split; [reflexivity |].
  rewrite concat_app in Hcat. cbn [concat] in Hcat.
  rewrite app_nil_r in Hcat.
  apply Forall_app in Hne as [_ Hh]. apply Forall_cons in Hh as [Hh _].
  destruct (decide (h = [])) as [-> | _]; [congruence |].
  destruct (exists_last Hh) as (h' & x & ->).
  rewrite app_assoc in Hcat.
  apply app_inj_tail in Hcat as [Hpre ->].
  apply indexOf0_None in Hn.
  split.
  { apply indexOf0_None. intros Hin. apply Hn. rewrite <- Hpre.
    apply elem_of_app. left. exact Hin. }
  rewrite app_assoc, Hpre.
  split; [apply indexOf0_frame, Hn |].
  split; [apply take_app_length |].
  replace (S (length hdr)) with (length (hdr ++ [x00]))
    by (rewrite length_app; simpl; lia).
  apply drop_all.
Qed.

Section Handshake.
Variable JSON_parse : list byte -> option TransferInfo.
Variable path_join : string -> string -> string.

(** A new connection that delivers a header and its delimiter, in any
    segments. *)
Lemma header_reaches_receiver self s hdr info hs :
  offer_wf self ->
  sockets self !! s = None ->
  JSON_parse hdr = Some info ->
  indexOf0 hdr = None ->
  concat hs = hdr ++ [x00] ->
  Forall (fun h => h <> []) hs ->
  let offer :=
    run JSON_parse path_join self (OnConnection s :: map (OnData s) hs) in
  offer.2 = [transferRequest (senderEmail info) (fileName info)
               (fileSize info) (transferId info)]
  /\ offer_wf offer.1
  /\ pendingTransfer offer.1
     = Some {| p_socket := s; p_transferInfo := info; p_buffer := [] |}
  /\ (exists c, sockets offer.1 !! s = Some c
                /\ closed c = false /\ written c = [])
  /\ receivePath offer.1 = receivePath self
  /\ files offer.1 = files self
  /\ activeTransfers offer.1 = activeTransfers self.
Proof.
  intros Hwf Hfresh Hrt Hnul Hhs Hne offer.
  set (self0 := handleIncomingConnection self s).
  assert (Hwf0 : offer_wf self0).
  { pose proof (step_offer_wf JSON_parse path_join self (OnConnection s) Hwf)
      as H.
    cbn [step] in H. rewrite Hfresh in H. exact H. }
  assert (Hc0 : sockets self0 !! s = Some new_socket).
  { subst self0. unfold handleIncomingConnection. cbn [sockets set_sockets].
    apply lookup_insert_eq. }
  destruct (segments_of_header _ hs Hnul Hhs Hne)
    as (cs & h & -> & Hn1 & Hi & Htake & Hdrop).
  assert (Eoffer : offer
            = run JSON_parse path_join self0 (map (OnData s) (cs ++ [h]))).
  { subst offer. cbn [run step]. rewrite Hfresh. fold self0.
    destruct (run JSON_parse path_join self0 (map (OnData s) (cs ++ [h]))).
    reflexivity. }
  assert (Hwf1 : offer_wf offer.1).
  { rewrite Eoffer. apply run_offer_wf, Hwf0. }
  assert (Hrp : receivePath offer.1 = receivePath self).
  { rewrite Eoffer, run_receivePath. reflexivity. }
  rewrite (header_segments JSON_parse path_join self0 s new_socket cs h
             (length hdr) info Hc0) in Eoffer;
    try reflexivity; try assumption.
  2:{ cbn [buffer new_socket app]. rewrite Htake. exact Hrt. }
  cbn [buffer new_socket app] in Eoffer.
  set (self0' := on_socket s (set_buffer (concat cs)) self0) in Eoffer.
  set (c1 := set_buffer (concat cs) new_socket) in Eoffer.
  assert (Hc1 : sockets self0' !! s = Some c1).
  { subst self0' c1. rewrite lookup_on_socket_eq, Hc0. reflexivity. }
  destruct (offered_socket self0' s c1 h (length hdr) info Hc1)
    as (c2 & Hc2 & _ & Hcl2 & _ & Hwr2 & _).
  split; [rewrite Eoffer; reflexivity |]. split; [exact Hwf1 |].
  split.
  { rewrite Eoffer. cbn [fst]. unfold offered.
    cbn [pendingTransfer on_socket set_sockets set_pendingTransfer].
    cbn [buffer c1 set_buffer]. rewrite Hdrop. reflexivity. }
  split; [| split; [exact Hrp | rewrite Eoffer; split; reflexivity]].
  exists c2. rewrite Eoffer. cbn [fst]. auto.
Qed.

End Handshake.

(** The sender after ['connect'] and the whole response of the
    receiving side. *)
Lemma sender_reads_response
    (JSON_stringify : TransferInfo -> list byte)
    (JSON_parse_response : list N -> option Sender.Response)
    (utf8_decode : list byte -> list N)
    (st1 : Sender.Send) (rs : list (list byte)) (b : bool) :
  Sender.awaiting_response st1 -> Sender.responseBuffer st1 = [] ->
  concat rs = ack b ->
  let r := Sender.run JSON_stringify JSON_parse_response utf8_decode st1
             (map Sender.OnData rs) in
  let o := Sender.on_text JSON_parse_response st1
             (Sender.response_text b ++ [0%N]) in
  r.2 = o.2 /\ Sender.forget_buffer r.1 = Sender.forget_buffer o.1.
Proof.
  intros Haw Hb Hack r o.
  destruct (SenderFacts.response_fragments JSON_stringify
              JSON_parse_response utf8_decode rs st1 Haw) as [Hev Hfg].
  rewrite SenderFacts.toString_ascii in Hev, Hfg
    by (rewrite Hack; destruct b; reflexivity).
  rewrite Hack in Hev, Hfg.
  assert (E : Byte.to_N <$> ack b = Sender.response_text b ++ [0%N])
    by (destruct b; reflexivity).
  rewrite E in Hev, Hfg. auto.
Qed.



(** X22. The two sides together, when the host rejects: the response
    that [rejectTransfer] writes, which parses to an object with
    [accepted: false], makes the sender emit [transferRejected], end its
    socket and resolve with [accepted: false], which the ['close'] that
    follows does not change; the sender has written the header and its
    delimiter only, and the receiver has the files and the active
    transfers it had before the connection. *)
Theorem rejection_round_trip
    (JSON_stringify : TransferInfo -> list byte)
    (JSON_parse : list byte -> option TransferInfo)
    (JSON_parse_response : list N -> option Sender.Response)
    (utf8_decode : list byte -> list N)
    (path_join : string -> string -> string)
    (path_basename : string -> string)
    (receivePath : string) (disk : gmap string File) (inputs0 : list Input)
    (s : nat)
    (deviceIp_ filePath_ senderEmail_ : string) (size now : Z)
    (st0 : Sender.Send) (hs rs : list (list byte)) :
  let self :=
    (run JSON_parse path_join (constructor receivePath disk) inputs0).1 in
  sockets self !! s = None ->
  Sender.sendFile path_basename deviceIp_ filePath_ senderEmail_
    (Some size) now = Some st0 ->
  let info := Sender.header st0 in
  JSON_parse (JSON_stringify info) = Some info ->
  indexOf0 (JSON_stringify info) = None ->
  JSON_parse_response (Sender.response_text false)
  = Some (Sender.JsonValue false) ->
  let st1 :=
    (Sender.run JSON_stringify JSON_parse_response utf8_decode st0
       [Sender.OnConnect]).1 in
  concat hs = Sender.socket_written st1 ->
  Forall (fun h => h <> []) hs ->
  let offer :=
    run JSON_parse path_join self (OnConnection s :: map (OnData s) hs) in
  let r := rejectTransfer offer.1 (transferId info) in
  (forall c, sockets r.1 !! s = Some c -> concat rs = written c) ->
  let st2 :=
    Sender.run JSON_stringify JSON_parse_response utf8_decode st1
      (map Sender.OnData rs ++ [Sender.OnClose]) in
  r.2 = Return true
  /\ files r.1 = files self
  /\ activeTransfers r.1 = activeTransfers self
  /\ st2.2 = [Sender.transferRejected (pretty now) (path_basename filePath_)]
  /\ Sender.promise st2.1 = Some (Sender.resolved false (pretty now))
  /\ Sender.socket_written st2.1 = JSON_stringify info ++ [x00]
  /\ Sender.socket_ended st2.1 = true.
Proof.
  intros self Hfresh Hst info Hrt Hnul Hresp st1 Hhs Hne offer r Hrs st2.
  injection Hst as <-.
  set (st0 := {| Sender.deviceIp := deviceIp_ |}) in *.
  assert (Hw1 : Sender.socket_written st1 = JSON_stringify info ++ [x00])
    by reflexivity.
  assert (Haw : Sender.awaiting_response st1).
  { repeat split. }
  assert (Hwf : offer_wf self).
  { apply run_offer_wf, constructor_offer_wf. }
  rewrite Hw1 in Hhs.
  destruct (header_reaches_receiver JSON_parse path_join self s _ info hs
              Hwf Hfresh Hrt Hnul Hhs Hne)
    as (_ & _ & P1 & (c2 & Hc2 & _ & Hwr2) & _ & Hfiles & Hact).
  fold offer in P1, Hc2, Hfiles, Hact.
  set (p := {| p_socket := s; p_transferInfo := info; p_buffer := [] |}) in *.
  assert (Er : r = (set_pendingTransfer None
                      (on_socket s socket_end
                         (on_socket s (socket_write (ack false)) offer.1)),
                    Return true)).
  { apply (rejectTransfer_pending offer.1 p P1). }
  assert (Hack : concat rs = ack false).
  { rewrite (Hrs (socket_end (socket_write (ack false) c2))).
    - cbn. rewrite Hwr2. reflexivity.
    - rewrite Er. cbn [fst sockets set_pendingTransfer].
      rewrite !lookup_on_socket_eq, Hc2. reflexivity. }
  split; [rewrite Er; reflexivity |].
  split; [rewrite Er; exact Hfiles |].
  split; [rewrite Er; exact Hact |].
  subst st2. rewrite SenderFacts.send_run_app. cbv zeta.
  destruct (sender_reads_response JSON_stringify JSON_parse_response
              utf8_decode st1
              rs false Haw eq_refl Hack) as [Hev Hfg].
  rewrite (SenderFacts.on_text_whole JSON_parse_response st1
             (Sender.response_text false) [])
    in Hev, Hfg;
    [| reflexivity | reflexivity
     | apply SenderFacts.indexOfNul_None; reflexivity
     | reflexivity | reflexivity
     | apply SenderFacts.indexOfNul_None; reflexivity].
  cbv zeta in Hev, Hfg. rewrite Hresp in Hev, Hfg. cbn [fst snd] in Hev, Hfg.
  apply SenderFacts.field_of_forget in Hfg
    as (_ & _ & _ & Hcl & He & Hw & Hrr & _ & _ & Hp).
  set (sa := (Sender.run JSON_stringify JSON_parse_response utf8_decode st1
                (map Sender.OnData rs))) in *.
  cbn in Hcl, He, Hw, Hrr, Hp.
  cbn [Sender.run Sender.step fst snd]. rewrite Hcl. cbn [fst snd].
  unfold Sender.on_close. cbn [Sender.responseReceived Sender.set_closed].
  rewrite Hrr, Hev.
  rewrite (SenderFacts.settle_settled _ _
             (Sender.resolved false (pretty now))) by exact Hp.
  cbn. rewrite Hp, Hw, He. repeat split.
Qed.

Lemma rejection_round_trip_witness :
  let offer := run Sender.sample_parse_header sample_join sample_server
                   (OnConnection 1%nat :: map (OnData 1%nat) [[x68; x00]]) in
  let st2 := Sender.run Sender.sample_stringify Sender.sample_parse_response
               Sender.sample_decode Sender.sample_waiting
               (map Sender.OnData [take 7 (ack false); drop 7 (ack false)]
                ++ [Sender.OnClose]) in
  files (rejectTransfer offer.1 "7").1 = ∅
  /\ st2.2 = [Sender.transferRejected "7" "f.bin"]
  /\ Sender.promise st2.1 = Some (Sender.resolved false "7").
Proof.
  pose proof (rejection_round_trip Sender.sample_stringify
                Sender.sample_parse_header Sender.sample_parse_response
                Sender.sample_decode sample_join Sender.sample_basename
                "recv" ∅ [] 1%nat
                "10.0.0.5" "/home/a/f.bin" "a@x" 4 7 Sender.sample_started
                [[x68; x00]] [take 7 (ack false); drop 7 (ack false)]) as H.
  cbv zeta in H.
  destruct H as (_ & H1 & _ & H2 & H3 & _);
    [reflexivity | reflexivity | reflexivity | reflexivity | reflexivity
    | reflexivity | repeat constructor; discriminate | |].
  { intros c Hc. vm_compute in Hc. injection Hc as <-. reflexivity. }
  split; [exact H1 |]. split; [exact H2 | exact H3].
Defined.

End ProtocolFacts.

(** ** The store *)

Module StoreFacts.
Import Store.

Lemma truthy_hasName (s : Data) : truthy (firstName s) = hasName s.
Proof. reflexivity. Qed.

(** X23. [initializeDevice], with a non-empty uuid and host name at
    hand, returns the stored [deviceId], which is then non-empty like the
    device name; an id or a name that was stored and non-empty is kept;
    a second call changes nothing and returns the same id, whatever uuid
    and host name it is offered; email, login state, names and settings
    are not touched. *)
Theorem initializeDevice_keeps_identity
    (uuid hostname uuid' hostname' : string) (s : Data) :
  uuid <> EmptyString -> hostname <> EmptyString ->
  let r := initializeDevice uuid hostname s in
  r.2 = getDeviceId r.1
  /\ truthy (getDeviceId r.1) = true
  /\ truthy (getDeviceName r.1) = true
  /\ (truthy (deviceId s) = true -> getDeviceId r.1 = deviceId s)
  /\ (truthy (deviceName s) = true -> getDeviceName r.1 = deviceName s)
  /\ initializeDevice uuid' hostname' r.1 = r
  /\ getEmail r.1 = getEmail s /\ isLoggedIn r.1 = isLoggedIn s
  /\ hasName r.1 = hasName s /\ settings r.1 = settings s.
Proof.
  intros Hu Hh r. subst r. unfold initializeDevice.
  apply String.eqb_neq in Hu, Hh.
  destruct s as [d e f l n li rp st].
  destruct d as [d |], n as [n |]; cbn;
    repeat match goal with
           | |- context [String.eqb ?x EmptyString] =>
               destruct (String.eqb x EmptyString) eqn:?; cbn
           end;
    rewrite ?Hu, ?Hh; cbn;
    repeat match goal with
           | H : String.eqb _ _ = _ |- _ => rewrite H; cbn
           end;
    repeat split; try reflexivity; try discriminate.
Qed.

Lemma initializeDevice_keeps_identity_witness :
  let r := initializeDevice "u-1" "host" (defaults "/home/a/Downloads") in
  r.2 = Some "u-1"
  /\ initializeDevice "u-2" "other" r.1 = r.
Proof.
  pose proof (initializeDevice_keeps_identity "u-1" "host" "u-2" "other"
                (defaults "/home/a/Downloads")) as H.
  cbv zeta in H.
  destruct H as (H1 & _ & _ & _ & _ & H2 & _); [discriminate | discriminate |].
  split; [exact H1 | exact H2].
Defined.

(** X24. After [logout] the user is not logged in, has no name and no
    email, [hasNameForEmail] is false for every email and for [null],
    and the window opens on the login page; the device id, the device
    name and the settings are as before, and a second [logout] changes
    nothing. *)
Theorem logout_forgets_user_keeps_device
    (downloads : string) (s : Data) (e : option string) :
  let s' := logout s in
  isLoggedIn s' = false
  /\ hasName s' = false
  /\ hasNameForEmail e s' = false
  /\ getEmail s' = None
  /\ Main.startPage (getProfile s') = "login.html"
  /\ getDeviceId s' = getDeviceId s
  /\ getDeviceName s' = getDeviceName s
  /\ getSettings downloads s' = getSettings downloads s
  /\ logout s' = s'.
Proof.
  intros s'. subst s'. unfold hasNameForEmail. cbn.
  rewrite andb_false_r. repeat split.
Qed.

(** X25. The tests of a stored name agree: [hasNameForEmail(e)] is
    true exactly when [e] is the stored email and [hasName()] is true,
    and the window opens on the home page exactly when [isLoggedIn()]
    and [hasName()] are true; after [setName(f, l)] it does so exactly
    when [f] is not the empty string. *)
Theorem stored_name_tests_agree (s : Data) (e : option string) :
  (hasNameForEmail e s = true <-> getEmail s = e /\ hasName s = true)
  /\ (Main.startPage (getProfile s) = "home.html"
      <-> isLoggedIn s = true /\ hasName s = true)
  /\ (forall f l,
        Main.startPage (getProfile (setName (Some f) l s))
        = if String.eqb f EmptyString then "login.html" else "home.html").
Proof.
  split; [| split].
  - unfold hasNameForEmail, getEmail. rewrite andb_true_iff, truthy_hasName.
    rewrite bool_decide_eq_true. reflexivity.
  - unfold Main.startPage, isLoggedIn.
    cbn [getProfile p_isLoggedIn p_firstName].
    rewrite truthy_hasName.
    destruct (loggedIn s), (hasName s); cbn; split;
      try discriminate; try tauto; intros [? ?]; discriminate.
  - intros f l. unfold Main.startPage. cbn.
    destruct (String.eqb f EmptyString); reflexivity.
Qed.

Lemma assign_insert (key : string) (value : Setting)
    (o : gmap string Setting) :
  key <> "__proto__" -> assign key value o = <[key := value]> o.
Proof.
  intros Hk. unfold assign. apply String.eqb_neq in Hk. rewrite Hk.
  destruct (o !! key); reflexivity.
Qed.

(** X26. After [setSetting(key, value)], for a key other than
    [__proto__], [getSettings()] has [value] under [key] and what it had
    before under every other key; the profile is untouched; on a store
    whose settings are [null] the defaults are written with [key]
    changed; and the same call again changes nothing. *)
Theorem setSetting_then_getSettings
    (downloads : string) (s : Data) (key : string) (value : Setting) :
  key <> "__proto__" ->
  let s' := setSetting downloads key value s in
  getSettings downloads s' !! key = Some value
  /\ (forall key', key' <> key ->
        getSettings downloads s' !! key' = getSettings downloads s !! key')
  /\ getProfile s' = getProfile s
  /\ (settings s = None ->
      getSettings downloads s' = <[key := value]> (default_settings downloads))
  /\ setSetting downloads key value s' = s'.
Proof.
  intros Hk s'. subst s'. unfold setSetting, getSettings.
  cbn [settings set_settings]. rewrite !assign_insert by exact Hk.
  split; [apply lookup_insert_eq |].
  split; [intros key' Hne; apply lookup_insert_ne; congruence |].
  split; [reflexivity |].
  split; [intros ->; reflexivity |].
  unfold set_settings. cbn. rewrite insert_insert_eq. reflexivity.
Qed.

Lemma setSetting_then_getSettings_witness :
  let s' := setSetting "/home/a/Downloads" "autoAccept" (SString "all")
              (defaults "/home/a/Downloads") in
  getSettings "/home/a/Downloads" s' !! "autoAccept" = Some (SString "all")
  /\ getSettings "/home/a/Downloads" s' !! "soundEffects" = Some (SBool true).
Proof.
  pose proof (setSetting_then_getSettings "/home/a/Downloads"
                (defaults "/home/a/Downloads") "autoAccept" (SString "all"))
    as H.
  cbv zeta in H. destruct H as (H1 & H2 & _); [discriminate |].
  split; [exact H1 |]. rewrite H2 by discriminate. reflexivity.
Defined.

End StoreFacts.
